(** * The SkSL IR generator (src/sksl/SkSLIRGenerator.cpp), embedded in Rocq

    The generator turns the parser's syntax tree into typed IR, reporting
    semantic errors on the way.  This development embeds the functions of
    [IRGenerator] that decide the properties stated at the end of the file:
    constant folding, implicit coercion, binary-operator typing, swizzles,
    overload resolution, array sizes and the statement converters with
    their loop and switch nesting counters.

    Conventions of the embedding.
    - A [std::unique_ptr] that may be null is an [option]; [nullptr] is [None].
    - C++ [int] and [int64_t] values are [Z]; casts and wrap-around are
      written out where the source has them.
    - [fErrors.error(offset, msg)] appends to the list of reported errors.
    - [SkASSERT] compiles to nothing in release builds and is kept as a
      comment only.
    - Where the source dereferences a pointer that is null, the behaviour is
      undefined: the model takes what happens as a parameter
      ([nullDereference]), and the theorems on statements exclude such runs
      by hypothesis.
    - The classes [Type], [Context], [Token], [ASTNode], [SymbolTable],
      [Inliner] and the IR node classes are declared in headers that are not
      among the sources.  What the generator uses of them is an interface
      here (a type class), or a definition whose comment says so. *)

From Stdlib Require Import ZArith List Ascii String Bool Lia DecimalString.
Import ListNotations.

Set Warnings "-register-all,-notation-for-abbreviation".

Local Open Scope string_scope.
Local Open Scope list_scope.
Local Open Scope Z_scope.

(** [operator+] on strings. *)
Infix "+++" := String.append (at level 60, right associativity).

(** * Part I: the embedding *)

(** ** C integers *)

Definition INT_MAX : Z := 2147483647.

Definition INT64_MIN : Z := -9223372036854775808.

Definition INT64_MAX : Z := 9223372036854775807.

(** The cast [(int) v] of a 64-bit value. *)
Definition int32_t (v : Z) : Z := (v + 2147483648) mod 4294967296 - 2147483648.

(** The cast [(uint32_t) v]. *)
Definition uint32_t (v : Z) : Z := v mod 4294967296.

(** [to_string] on an integer: its decimal spelling. *)
Definition to_string (v : Z) : string := NilZero.string_of_int (Z.to_int v).

(** ** Tokens *)

(** [Token::Kind], restricted to the operator tokens the generator inspects. *)
Inductive TokenKind : Set :=
| TK_PLUS | TK_MINUS | TK_STAR | TK_SLASH | TK_PERCENT
| TK_SHL | TK_SHR
| TK_BITWISEOR | TK_BITWISEXOR | TK_BITWISEAND | TK_BITWISENOT
| TK_LOGICALOR | TK_LOGICALXOR | TK_LOGICALAND | TK_LOGICALNOT
| TK_QUESTION | TK_COLON | TK_COMMA
| TK_EQ | TK_EQEQ | TK_NEQ | TK_GT | TK_LT | TK_GTEQ | TK_LTEQ
| TK_PLUSPLUS | TK_MINUSMINUS
| TK_PLUSEQ | TK_MINUSEQ | TK_STAREQ | TK_SLASHEQ | TK_PERCENTEQ
| TK_SHLEQ | TK_SHREQ
| TK_BITWISEOREQ | TK_BITWISEXOREQ | TK_BITWISEANDEQ
| TK_LOGICALOREQ | TK_LOGICALXOREQ | TK_LOGICALANDEQ.

(** The tokens of the prefix operators.  [convertPrefixExpression] aborts on
    any other token; the parser builds a prefix node from these six only. *)
Inductive PrefixOperator : Set :=
| Prefix_PLUS | Prefix_MINUS | Prefix_PLUSPLUS | Prefix_MINUSMINUS
| Prefix_LOGICALNOT | Prefix_BITWISENOT.

Definition PrefixOperator_token (op : PrefixOperator) : TokenKind :=
  match op with
  | Prefix_PLUS => TK_PLUS
  | Prefix_MINUS => TK_MINUS
  | Prefix_PLUSPLUS => TK_PLUSPLUS
  | Prefix_MINUSMINUS => TK_MINUSMINUS
  | Prefix_LOGICALNOT => TK_LOGICALNOT
  | Prefix_BITWISENOT => TK_BITWISENOT
  end.

(** Modelled from the spec: [Compiler::IsAssignment] (SkSLCompiler.cpp is not
    among the sources) holds of [=] and of the assignment forms of the
    binary operators. *)
Definition IsAssignment (op : TokenKind) : bool :=
  match op with
  | TK_EQ | TK_PLUSEQ | TK_MINUSEQ | TK_STAREQ | TK_SLASHEQ | TK_PERCENTEQ
  | TK_SHLEQ | TK_SHREQ | TK_BITWISEOREQ | TK_BITWISEXOREQ | TK_BITWISEANDEQ
  | TK_LOGICALOREQ | TK_LOGICALXOREQ | TK_LOGICALANDEQ => true
  | _ => false
  end.

(** Modelled from the spec: [Compiler::OperatorName], the spelling of an
    operator in a diagnostic. *)
Definition OperatorName (op : TokenKind) : string :=
  match op with
  | TK_PLUS => "+" | TK_MINUS => "-" | TK_STAR => "*" | TK_SLASH => "/"
  | TK_PERCENT => "%" | TK_SHL => "<<" | TK_SHR => ">>"
  | TK_BITWISEOR => "|" | TK_BITWISEXOR => "^" | TK_BITWISEAND => "&"
  | TK_BITWISENOT => "~"
  | TK_LOGICALOR => "||" | TK_LOGICALXOR => "^^" | TK_LOGICALAND => "&&"
  | TK_LOGICALNOT => "!"
  | TK_QUESTION => "?" | TK_COLON => ":" | TK_COMMA => ","
  | TK_EQ => "=" | TK_EQEQ => "==" | TK_NEQ => "!="
  | TK_GT => ">" | TK_LT => "<" | TK_GTEQ => ">=" | TK_LTEQ => "<="
  | TK_PLUSPLUS => "++" | TK_MINUSMINUS => "--"
  | TK_PLUSEQ => "+=" | TK_MINUSEQ => "-=" | TK_STAREQ => "*="
  | TK_SLASHEQ => "/=" | TK_PERCENTEQ => "%="
  | TK_SHLEQ => "<<=" | TK_SHREQ => ">>="
  | TK_BITWISEOREQ => "|=" | TK_BITWISEXOREQ => "^=" | TK_BITWISEANDEQ => "&="
  | TK_LOGICALOREQ => "||=" | TK_LOGICALXOREQ => "^^=" | TK_LOGICALANDEQ => "&&="
  end.

(** ** The type system, as the generator sees it *)

(** [Type::TypeKind]. *)
Inductive TypeKind : Set :=
| kArray | kEnum | kGeneric | kNullable | kMatrix | kOther | kSampler
| kSeparateSampler | kScalar | kStruct | kTexture | kVector.

Definition TypeKind_eqb (a b : TypeKind) : bool :=
  match a, b with
  | kArray, kArray | kEnum, kEnum | kGeneric, kGeneric
  | kNullable, kNullable | kMatrix, kMatrix | kOther, kOther
  | kSampler, kSampler | kSeparateSampler, kSeparateSampler
  | kScalar, kScalar | kStruct, kStruct | kTexture, kTexture
  | kVector, kVector => true
  | _, _ => false
  end.

(** The methods of [Type] and the members of [Context] that the generator
    calls.  SkSLType.h and SkSLContext.h are not among the sources, so the
    generator is verified against this interface: every theorem holds for
    every implementation of it. *)
Class TypeSystem (Ty : Type) : Type := {
  (** [operator==] on types *)
  Type_eqb : Ty -> Ty -> bool;
  name : Ty -> string;
  displayName : Ty -> string;
  typeKind : Ty -> TypeKind;
  isNumber : Ty -> bool;
  isFloat : Ty -> bool;
  isInteger : Ty -> bool;
  componentType : Ty -> Ty;
  nonnullable : Ty -> Ty;
  columns : Ty -> Z;
  rows : Ty -> Z;
  (** the names and types of [fields()] *)
  fields : Ty -> list (string * Ty);
  toCompound : Ty -> Z -> Z -> Ty;
  (** [Type::coercionCost]: an [int], [INT_MAX] when there is no coercion *)
  coercionCost : Ty -> Ty -> Z;
  (** [Type(name, TypeKind::kArray, componentType, columns)] *)
  ArrayType : string -> Ty -> Z -> Ty;
  (** [Type(name, TypeKind::kNullable, componentType)] *)
  NullableType : string -> Ty -> Ty;
  (** the result type of indexing a value of the given type *)
  indexType : Ty -> Ty;
  fInvalid_Type : Ty;
  fVoid_Type : Ty;
  fBool_Type : Ty;
  fInt_Type : Ty;
  fUInt_Type : Ty;
  fFloat_Type : Ty;
  fFloat2_Type : Ty;
  fFloat4_Type : Ty;
  fFloat4x4_Type : Ty;
  fFloatLiteral_Type : Ty;
  fIntLiteral_Type : Ty;
  fNull_Type : Ty;
  fSkCaps_Type : Ty;
  fFragmentProcessor_Type : Ty;
  (** the type [IntLiteral(context, offset, value)] gives its node *)
  IntLiteral_Type : Ty;
  (** the type [FloatLiteral(context, offset, value)] gives its node *)
  FloatLiteral_Type : Ty
}.

(** [Type::canCoerceTo]: the spec defines it as
    [coercionCost(...) != infinite]. *)
Definition canCoerceTo {Ty} `{TypeSystem Ty} (from to : Ty) : bool :=
  negb (coercionCost from to =? INT_MAX).

(** Floating-point values and the C++ operators the generator applies to
    them.  [Fsingle] is the conversion to [float] that constant folding of
    vectors performs. *)
Class FloatOps (F : Type) : Type := {
  Fzero : F;
  Fadd : F -> F -> F;
  Fsub : F -> F -> F;
  Fmul : F -> F -> F;
  Fdiv : F -> F -> F;
  Fneg : F -> F;
  Feqb : F -> F -> bool;
  Fltb : F -> F -> bool;
  Fleb : F -> F -> bool;
  Fsingle : F -> F
}.

(** The pseudo-components of a swizzle mask: [SKSL_SWIZZLE_0] for the
    literal [0] and [SKSL_SWIZZLE_1] for the literal [1] (SkSLSwizzle.h is
    not among the sources).  Both are negative: [checkSwizzleWrite] tells
    them from real components by [idx < 0], and
    [count_contiguous_swizzle_chunks] asserts [components[i] <= 0] over
    masks that hold them next to the real component [0]. *)
Class SwizzleConstants : Type := {
  SKSL_SWIZZLE_0 : Z;
  SKSL_SWIZZLE_1 : Z;
  SKSL_SWIZZLE_0_negative : SKSL_SWIZZLE_0 < 0;
  SKSL_SWIZZLE_1_negative : SKSL_SWIZZLE_1 < 0
}.

(** ** Modifiers and layout *)

(** [Layout::CType]: only [kDefault] is told apart. *)
Inductive CType : Set :=
| CType_kDefault
| CType_other (tag : Z).

(** The members of [Layout] that the generator reads. *)
Record Layout : Set := {
  Layout_fFlags : Z;
  fLocation : Z;
  fIndex : Z;
  fBuiltin : Z;
  fInvocations : Z;
  fMaxVertices : Z;
  fKey : Z;
  fCType : CType;
  fWhen : string;
  fMarker : string
}.

Record Modifiers : Set := {
  fLayout : Layout;
  fFlags : Z
}.

(** The flag constants of [Modifiers] and [Layout], the builtin numbers and
    the reserved names of [Compiler] (SkSLModifiers.h, SkSLLayout.h and
    SkSLCompiler.h are not among the sources). *)
Class Constants : Type := {
  kConst_Flag : Z;
  kIn_Flag : Z;
  kOut_Flag : Z;
  kUniform_Flag : Z;
  kFlat_Flag : Z;
  kNoPerspective_Flag : Z;
  kReadOnly_Flag : Z;
  kWriteOnly_Flag : Z;
  kCoherent_Flag : Z;
  kVolatile_Flag : Z;
  kRestrict_Flag : Z;
  kBuffer_Flag : Z;
  kHasSideEffects_Flag : Z;
  kPLS_Flag : Z;
  kPLSIn_Flag : Z;
  kPLSOut_Flag : Z;
  kVarying_Flag : Z;
  kInline_Flag : Z;
  kTracked_Flag : Z;
  kSRGBUnpremul_Flag : Z;
  SK_WIDTH_BUILTIN : Z;
  SK_HEIGHT_BUILTIN : Z;
  SK_FRAGCOORD_BUILTIN : Z;
  RTADJUST_NAME : string;
  (** whether the macro [SKSL_STANDALONE] is defined in this build *)
  SKSL_STANDALONE : bool;
  (** [Layout()] and [Modifiers()], the default-constructed values *)
  Layout_default : Layout;
  Modifiers_default : Modifiers
}.

(** [flags & flag], as a condition. *)
Definition hasFlag (flags flag : Z) : bool := negb (Z.land flags flag =? 0).

(** [Program::Kind]. *)
Inductive ProgramKind : Set :=
| kFragment_Kind | kVertex_Kind | kGeometry_Kind | kFragmentProcessor_Kind
| kPipelineStage_Kind | kGeneric_Kind.

Definition ProgramKind_eqb (a b : ProgramKind) : bool :=
  match a, b with
  | kFragment_Kind, kFragment_Kind | kVertex_Kind, kVertex_Kind
  | kGeometry_Kind, kGeometry_Kind
  | kFragmentProcessor_Kind, kFragmentProcessor_Kind
  | kPipelineStage_Kind, kPipelineStage_Kind
  | kGeneric_Kind, kGeneric_Kind => true
  | _, _ => false
  end.

(** [VariableReference::RefKind]. *)
Inductive RefKind : Set :=
| kRead_RefKind | kWrite_RefKind | kReadWrite_RefKind | kPointer_RefKind.

(** [Variable::Storage]. *)
Inductive Storage : Set :=
| kGlobal_Storage | kInterfaceBlock_Storage | kLocal_Storage
| kParameter_Storage.

Definition Storage_eqb (a b : Storage) : bool :=
  match a, b with
  | kGlobal_Storage, kGlobal_Storage
  | kInterfaceBlock_Storage, kInterfaceBlock_Storage
  | kLocal_Storage, kLocal_Storage
  | kParameter_Storage, kParameter_Storage => true
  | _, _ => false
  end.

(** [FieldAccess::OwnerKind]. *)
Inductive OwnerKind : Set :=
| kDefault_OwnerKind | kAnonymousInterfaceBlock_OwnerKind.

(** ** The state monad of the generator

    A method of [IRGenerator] reads and writes the members of the generator:
    it is a function from the state before the call to its result and the
    state after it. *)

Definition State (S A : Type) : Type := S -> A * S.

Definition ret {S A : Type} (a : A) : State S A := fun s => (a, s).

Definition bind {S A B : Type} (m : State S A) (k : A -> State S B)
  : State S B :=
  fun s => let (a, s') := m s in k a s'.

Definition gets {S A : Type} (f : S -> A) : State S A := fun s => (f s, s).

Definition modify {S : Type} (f : S -> S) : State S unit := fun s => (tt, f s).

(** [x = m(); if (!x) { return nullptr; } k(x)] *)
Definition bindNull {S A B : Type} (m : State S (option A))
    (k : A -> State S (option B)) : State S (option B) :=
  bind m (fun o => match o with
                   | None => ret None
                   | Some a => k a
                   end).

Notation "x <- m ;; k" := (bind m (fun x => k))
  (at level 100, m at next level, right associativity).

Notation "m ;; k" := (bind m (fun _ => k))
  (at level 100, right associativity).

Notation "x <-? m ;; k" := (bindNull m (fun x => k))
  (at level 100, m at next level, right associativity).

(** [Program::Inputs]. *)
Record Inputs : Set := {
  fRTWidth : bool;
  fRTHeight : bool;
  Inputs_fFlipY : bool
}.

(** What the generator reads of [Program::Settings] and of its caps. *)
Record Caps : Set := {
  fragCoordConventionsExtensionString : bool;
  gsInvocationsSupport : bool
}.

Record Settings : Set := {
  fCaps : option Caps;
  Settings_fFlipY : bool;
  fInlineThreshold : Z
}.


(** ** The generator over a type system *)

Section IR.

Context {Ty : Type} {F : Type}.
Context {types : TypeSystem Ty} {floats : FloatOps F}.
Context {swizzles : SwizzleConstants} {constants : Constants}.

(** ** IR nodes *)

(** [ExternalValue]: a host value visible to the program. *)
Inductive ExternalValue : Type :=
| mkExternalValue (fName : string) (type : Ty) (canWrite canCall : bool)
    (callParameterTypes : list Ty) (callReturnType : Ty)
    (children : list (string * ExternalValue)).

(** A parameter of a function declaration.  The source keeps parameters as
    [Variable]s; a parameter has no initial value, and its name, modifiers
    and type are all that is read. *)
Record ParamVariable : Type := {
  Param_fName : string;
  Param_fModifiers : Modifiers;
  Param_fType : Ty
}.

(** [FunctionDeclaration]; [fDefinition] is kept as "has a definition". *)
Record FunctionDeclaration : Type := {
  FunctionDeclaration_fName : string;
  fParameters : list ParamVariable;
  fReturnType : Ty;
  FunctionDeclaration_fBuiltin : bool;
  fDefinition : bool
}.

(** [Expression] and its subclasses, one constructor per class, with the
    members each class stores.  [Var] is the class [Variable], declared with
    it: a variable points at its initial value. *)
Inductive Expression : Type :=
| BinaryExpression (fOffset : Z) (fLeft : Expression) (fOperator : TokenKind)
    (fRight : Expression) (fType : Ty)
| BoolLiteral (fOffset : Z) (fValue : bool) (fType : Ty)
| Constructor (fOffset : Z) (fType : Ty) (fArguments : list Expression)
| ExternalFunctionCall (fOffset : Z) (fType : Ty) (fFunction : ExternalValue)
    (fArguments : list Expression)
| ExternalValueReference (fOffset : Z) (fValue : ExternalValue)
| FieldAccess (fBase : Expression) (fFieldIndex : Z) (fOwnerKind : OwnerKind)
| FloatLiteral (fOffset : Z) (fValue : F) (fType : Ty)
| FunctionCall (fOffset : Z) (fType : Ty) (fFunction : FunctionDeclaration)
    (fArguments : list Expression)
| FunctionReference (fOffset : Z) (fFunctions : list FunctionDeclaration)
| IndexExpression (fBase : Expression) (fIndex : Expression)
| IntLiteral (fOffset : Z) (fValue : Z) (fType : Ty)
| NullLiteral (fOffset : Z) (fType : Ty)
| PostfixExpression (fOperand : Expression) (fOperator : TokenKind)
| PrefixExpression (fOperator : TokenKind) (fOperand : Expression)
| Setting (fOffset : Z) (fName : string) (fValue : Expression)
| Swizzle (fBase : Expression) (fComponents : list Z)
| TernaryExpression (fOffset : Z) (fTest fIfTrue fIfFalse : Expression)
| TypeReference (fOffset : Z) (fValue : Ty)
| VariableReference (fOffset : Z) (fVariable : Var) (fRefKind : RefKind)
with Var : Type :=
| mkVar (fOffset : Z) (fModifiers : Modifiers) (fName : string)
    (fType : Ty) (fStorage : Storage) (fInitialValue : option Expression).

Definition Var_fModifiers (v : Var) : Modifiers :=
  match v with mkVar _ m _ _ _ _ => m end.

Definition Var_fName (v : Var) : string :=
  match v with mkVar _ _ n _ _ _ => n end.

Definition Var_type (v : Var) : Ty :=
  match v with mkVar _ _ _ t _ _ => t end.

Definition Var_fInitialValue (v : Var) : option Expression :=
  match v with mkVar _ _ _ _ _ i => i end.

Definition ExternalValue_fName (v : ExternalValue) : string :=
  match v with mkExternalValue n _ _ _ _ _ _ => n end.

Definition ExternalValue_type (v : ExternalValue) : Ty :=
  match v with mkExternalValue _ t _ _ _ _ _ => t end.

Definition ExternalValue_canWrite (v : ExternalValue) : bool :=
  match v with mkExternalValue _ _ w _ _ _ _ => w end.

Definition ExternalValue_canCall (v : ExternalValue) : bool :=
  match v with mkExternalValue _ _ _ c _ _ _ => c end.

Definition getCallParameterTypes (v : ExternalValue) : list Ty :=
  match v with mkExternalValue _ _ _ _ ps _ _ => ps end.

Definition callParameterCount (v : ExternalValue) : Z :=
  Z.of_nat (List.length (getCallParameterTypes v)).

Definition callReturnType (v : ExternalValue) : Ty :=
  match v with mkExternalValue _ _ _ _ _ r _ => r end.

Fixpoint lookupChild (field : string) (cs : list (string * ExternalValue))
  : option ExternalValue :=
  match cs with
  | [] => None
  | (n, c) :: rest => if String.eqb n field then Some c else lookupChild field rest
  end.

Definition getChild (v : ExternalValue) (field : string) : option ExternalValue :=
  match v with mkExternalValue _ _ _ _ _ _ cs => lookupChild field cs end.

(** The constructors that take the [Context]: the node's type comes from it. *)
Definition BoolLiteral_new (offset : Z) (value : bool) : Expression :=
  BoolLiteral offset value fBool_Type.

Definition IntLiteral_new (offset : Z) (value : Z) : Expression :=
  IntLiteral offset value IntLiteral_Type.

Definition FloatLiteral_new (offset : Z) (value : F) : Expression :=
  FloatLiteral offset value FloatLiteral_Type.

Definition NullLiteral_new (offset : Z) : Expression :=
  NullLiteral offset fNull_Type.

(** [Expression::type()].  A node that stores no type of its own derives it
    from its children, as the constructor of its class does. *)
Fixpoint type_of (e : Expression) : Ty :=
  match e with
  | BinaryExpression _ _ _ _ t => t
  | BoolLiteral _ _ t => t
  | Constructor _ t _ => t
  | ExternalFunctionCall _ t _ _ => t
  | ExternalValueReference _ v => ExternalValue_type v
  | FieldAccess base idx _ =>
      match nth_error (fields (type_of base)) (Z.to_nat idx) with
      | Some (_, t) => t
      | None => fInvalid_Type
      end
  | FloatLiteral _ _ t => t
  | FunctionCall _ t _ _ => t
  | FunctionReference _ _ => fInvalid_Type
  | IndexExpression base _ => indexType (type_of base)
  | IntLiteral _ _ t => t
  | NullLiteral _ t => t
  | PostfixExpression operand _ => type_of operand
  | PrefixExpression _ operand => type_of operand
  | Setting _ _ value => type_of value
  | Swizzle base components =>
      toCompound (componentType (type_of base)) (Z.of_nat (List.length components)) 1
  | TernaryExpression _ _ ifTrue _ => type_of ifTrue
  | TypeReference _ _ => fInvalid_Type
  | VariableReference _ v _ => Var_type v
  end.

(** [Expression::fOffset].  A node built around a base expression takes the
    offset of that expression. *)
Fixpoint offset_of (e : Expression) : Z :=
  match e with
  | BinaryExpression o _ _ _ _ => o
  | BoolLiteral o _ _ => o
  | Constructor o _ _ => o
  | ExternalFunctionCall o _ _ _ => o
  | ExternalValueReference o _ => o
  | FieldAccess base _ _ => offset_of base
  | FloatLiteral o _ _ => o
  | FunctionCall o _ _ _ => o
  | FunctionReference o _ => o
  | IndexExpression base _ => offset_of base
  | IntLiteral o _ _ => o
  | NullLiteral o _ => o
  | PostfixExpression operand _ => offset_of operand
  | PrefixExpression _ operand => offset_of operand
  | Setting o _ _ => o
  | Swizzle base _ => offset_of base
  | TernaryExpression o _ _ _ => o
  | TypeReference o _ => o
  | VariableReference o _ _ => o
  end.

(** Modelled from the spec: [Expression::isCompileTimeConstant] is a virtual
    method of the IR node classes, whose headers are not among the sources.
    The spec folds "both-constant" operands that are literals or constant
    vectors: a literal is a compile-time constant, a constructor is one when
    all its arguments are, a negated constant is one, and no other node is. *)
Fixpoint isCompileTimeConstant (e : Expression) : bool :=
  match e with
  | BoolLiteral _ _ _ | IntLiteral _ _ _ | FloatLiteral _ _ _
  | NullLiteral _ _ => true
  | Constructor _ _ args =>
      (fix all (l : list Expression) : bool :=
         match l with
         | [] => true
         | a :: rest => isCompileTimeConstant a && all rest
         end) args
  | PrefixExpression TK_MINUS operand => isCompileTimeConstant operand
  | _ => false
  end.

(** The methods of the IR node classes that the generator calls and whose
    definitions are not among the sources. *)
Class NodeMethods : Type := {
  (** [Expression::coercionCost(target)] *)
  Expression_coercionCost : Expression -> Ty -> Z;
  (** [FunctionDeclaration::determineFinalTypes]: the parameter types and
      the return type for these arguments, or failure *)
  determineFinalTypes :
    FunctionDeclaration -> list Expression -> option (list Ty * Ty);
  (** [Expression::getFVecComponent(i)] *)
  getFVecComponent : Expression -> Z -> F;
  (** [Expression::compareConstant(context, other)] *)
  compareConstant : Expression -> Expression -> bool
}.

Context {nodes : NodeMethods}.

(** [VarDeclaration] and [VarDeclarations]. *)
Record VarDeclaration : Type := {
  fVar : Var;
  fSizes : list (option Expression);
  VarDeclaration_fValue : option Expression
}.

Record VarDeclarations : Type := {
  VarDeclarations_fOffset : Z;
  fBaseType : Ty;
  fVars : list VarDeclaration
}.

(** [Statement] and its subclasses.  The symbol table a block, loop or
    switch points at is not part of the model. *)
Inductive Statement : Type :=
| Block (fOffset : Z) (fStatements : list Statement) (fIsScope : bool)
| BreakStatement (fOffset : Z)
| ContinueStatement (fOffset : Z)
| DiscardStatement (fOffset : Z)
| DoStatement (fOffset : Z) (fStatement : Statement) (fTest : Expression)
| ExpressionStatement (fExpression : Expression)
| ForStatement (fOffset : Z) (fInitializer : option Statement)
    (fTest : option Expression) (fNext : option Expression)
    (fStatement : Statement)
| IfStatement (fOffset : Z) (fIsStatic : bool) (fTest : Expression)
    (fIfTrue : Statement) (fIfFalse : option Statement)
| Nop
| ReturnStatement (fOffset : Z) (fExpression : option Expression)
| SwitchStatement (fOffset : Z) (fIsStatic : bool) (fValue : Expression)
    (fCases : list SwitchCase)
| VarDeclarationsStatement (fDeclaration : VarDeclarations)
| WhileStatement (fOffset : Z) (fTest : Expression) (fStatement : Statement)
with SwitchCase : Type :=
| mkSwitchCase (fOffset : Z) (fValue : option Expression)
    (fStatements : list Statement).


(** [Expression::Kind] and [Expression::kind()]. *)
Inductive ExpressionKind : Set :=
| Expression_kBinary | Expression_kBoolLiteral | Expression_kConstructor
| Expression_kExternalFunctionCall | Expression_kExternalValue
| Expression_kFieldAccess | Expression_kFloatLiteral
| Expression_kFunctionCall | Expression_kFunctionReference
| Expression_kIndex | Expression_kIntLiteral | Expression_kNullLiteral
| Expression_kPostfix | Expression_kPrefix | Expression_kSetting
| Expression_kSwizzle | Expression_kTernary | Expression_kTypeReference
| Expression_kVariableReference.

Definition kind (e : Expression) : ExpressionKind :=
  match e with
  | BinaryExpression _ _ _ _ _ => Expression_kBinary
  | BoolLiteral _ _ _ => Expression_kBoolLiteral
  | Constructor _ _ _ => Expression_kConstructor
  | ExternalFunctionCall _ _ _ _ => Expression_kExternalFunctionCall
  | ExternalValueReference _ _ => Expression_kExternalValue
  | FieldAccess _ _ _ => Expression_kFieldAccess
  | FloatLiteral _ _ _ => Expression_kFloatLiteral
  | FunctionCall _ _ _ _ => Expression_kFunctionCall
  | FunctionReference _ _ => Expression_kFunctionReference
  | IndexExpression _ _ => Expression_kIndex
  | IntLiteral _ _ _ => Expression_kIntLiteral
  | NullLiteral _ _ => Expression_kNullLiteral
  | PostfixExpression _ _ => Expression_kPostfix
  | PrefixExpression _ _ => Expression_kPrefix
  | Setting _ _ _ => Expression_kSetting
  | Swizzle _ _ => Expression_kSwizzle
  | TernaryExpression _ _ _ _ => Expression_kTernary
  | TypeReference _ _ => Expression_kTypeReference
  | VariableReference _ _ _ => Expression_kVariableReference
  end.

Definition ExpressionKind_eqb (a b : ExpressionKind) : bool :=
  match a, b with
  | Expression_kBinary, Expression_kBinary
  | Expression_kBoolLiteral, Expression_kBoolLiteral
  | Expression_kConstructor, Expression_kConstructor
  | Expression_kExternalFunctionCall, Expression_kExternalFunctionCall
  | Expression_kExternalValue, Expression_kExternalValue
  | Expression_kFieldAccess, Expression_kFieldAccess
  | Expression_kFloatLiteral, Expression_kFloatLiteral
  | Expression_kFunctionCall, Expression_kFunctionCall
  | Expression_kFunctionReference, Expression_kFunctionReference
  | Expression_kIndex, Expression_kIndex
  | Expression_kIntLiteral, Expression_kIntLiteral
  | Expression_kNullLiteral, Expression_kNullLiteral
  | Expression_kPostfix, Expression_kPostfix
  | Expression_kPrefix, Expression_kPrefix
  | Expression_kSetting, Expression_kSetting
  | Expression_kSwizzle, Expression_kSwizzle
  | Expression_kTernary, Expression_kTernary
  | Expression_kTypeReference, Expression_kTypeReference
  | Expression_kVariableReference, Expression_kVariableReference => true
  | _, _ => false
  end.

(** ** Symbols and the state of the generator *)

(** [Symbol] and its subclasses. *)
Inductive Symbol : Type :=
| Symbol_Variable (v : Var)
| Symbol_Field (fOwner : Var) (fFieldIndex : Z)
| Symbol_FunctionDeclaration (f : FunctionDeclaration)
| Symbol_UnresolvedFunction (fFunctions : list FunctionDeclaration)
| Symbol_Type (t : Ty)
| Symbol_External (v : ExternalValue).

(** Modelled from the spec: [SymbolTable] (SkSLSymbolTable.h is not among the
    sources) is a mapping from names to symbols with a link to the table of
    the enclosing scope.  A table is the list of its scopes, the current one
    first; each scope lists its declarations, the latest first. *)
Definition SymbolTable : Type := list (list (string * Symbol)).

Fixpoint lookupScope (n : string) (scope : list (string * Symbol))
  : option Symbol :=
  match scope with
  | [] => None
  | (m, s) :: rest => if String.eqb m n then Some s else lookupScope n rest
  end.

(** The lookup [operator[]] of the current table: "lookups walk outward
    through the parent chain until found or exhausted". *)
Fixpoint SymbolTable_lookup (n : string) (table : SymbolTable) : option Symbol :=
  match table with
  | [] => None
  | scope :: parent =>
      match lookupScope n scope with
      | Some s => Some s
      | None => SymbolTable_lookup n parent
      end
  end.

(** [Program::Settings::Value], the value of a capability. *)
Inductive SettingsValue : Type :=
| Value_kBool (b : bool)
| Value_kInt (i : Z)
| Value_kFloat (f : F).

(** [Program::Settings::Value::literal]. *)
Definition literal (v : SettingsValue) (offset : Z) : Expression :=
  match v with
  | Value_kBool b => BoolLiteral_new offset b
  | Value_kInt i => IntLiteral_new offset i
  | Value_kFloat f => FloatLiteral_new offset f
  end.

(** The members of [IRGenerator] that expression and declaration conversion
    read and write.  [Rest] stands for the members that only the parts of the
    generator outside this model use (program elements, intrinsics).  The
    two nesting counters are not here: no converter of an expression or of a
    declaration mentions them, see [IRGenerator] below. *)
Context {Rest : Type}.

Record Env : Type := {
  fKind : ProgramKind;
  fSettings : Settings;
  fErrors : list (Z * string);
  fSymbolTable : SymbolTable;
  fExtraStatements : list Statement;
  fCanInline : bool;
  fTmpSwizzleCounter : Z;
  fInputs : Inputs;
  fCapsMap : list (string * SettingsValue);
  (** the names of the sections at the root of [fFile] *)
  fFileSections : list string;
  fCurrentFunction : option FunctionDeclaration;
  fRTAdjust : option Var;
  fSkPerVertex : option Var;
  fRTAdjustInterfaceBlock : option Var;
  fRTAdjustFieldIndex : Z;
  fRest : Rest
}.

Definition with_fErrors (v : list (Z * string)) (e : Env) : Env :=
  {| fKind := fKind e; fSettings := fSettings e; fErrors := v;
     fSymbolTable := fSymbolTable e; fExtraStatements := fExtraStatements e;
     fCanInline := fCanInline e; fTmpSwizzleCounter := fTmpSwizzleCounter e;
     fInputs := fInputs e; fCapsMap := fCapsMap e;
     fFileSections := fFileSections e;
     fCurrentFunction := fCurrentFunction e; fRTAdjust := fRTAdjust e;
     fSkPerVertex := fSkPerVertex e;
     fRTAdjustInterfaceBlock := fRTAdjustInterfaceBlock e;
     fRTAdjustFieldIndex := fRTAdjustFieldIndex e; fRest := fRest e |}.

Definition with_fSymbolTable (v : SymbolTable) (e : Env) : Env :=
  {| fKind := fKind e; fSettings := fSettings e; fErrors := fErrors e;
     fSymbolTable := v; fExtraStatements := fExtraStatements e;
     fCanInline := fCanInline e; fTmpSwizzleCounter := fTmpSwizzleCounter e;
     fInputs := fInputs e; fCapsMap := fCapsMap e;
     fFileSections := fFileSections e;
     fCurrentFunction := fCurrentFunction e; fRTAdjust := fRTAdjust e;
     fSkPerVertex := fSkPerVertex e;
     fRTAdjustInterfaceBlock := fRTAdjustInterfaceBlock e;
     fRTAdjustFieldIndex := fRTAdjustFieldIndex e; fRest := fRest e |}.

Definition with_fExtraStatements (v : list Statement) (e : Env) : Env :=
  {| fKind := fKind e; fSettings := fSettings e; fErrors := fErrors e;
     fSymbolTable := fSymbolTable e; fExtraStatements := v;
     fCanInline := fCanInline e; fTmpSwizzleCounter := fTmpSwizzleCounter e;
     fInputs := fInputs e; fCapsMap := fCapsMap e;
     fFileSections := fFileSections e;
     fCurrentFunction := fCurrentFunction e; fRTAdjust := fRTAdjust e;
     fSkPerVertex := fSkPerVertex e;
     fRTAdjustInterfaceBlock := fRTAdjustInterfaceBlock e;
     fRTAdjustFieldIndex := fRTAdjustFieldIndex e; fRest := fRest e |}.

Definition with_fCanInline (v : bool) (e : Env) : Env :=
  {| fKind := fKind e; fSettings := fSettings e; fErrors := fErrors e;
     fSymbolTable := fSymbolTable e; fExtraStatements := fExtraStatements e;
     fCanInline := v; fTmpSwizzleCounter := fTmpSwizzleCounter e;
     fInputs := fInputs e; fCapsMap := fCapsMap e;
     fFileSections := fFileSections e;
     fCurrentFunction := fCurrentFunction e; fRTAdjust := fRTAdjust e;
     fSkPerVertex := fSkPerVertex e;
     fRTAdjustInterfaceBlock := fRTAdjustInterfaceBlock e;
     fRTAdjustFieldIndex := fRTAdjustFieldIndex e; fRest := fRest e |}.

Definition with_fTmpSwizzleCounter (v : Z) (e : Env) : Env :=
  {| fKind := fKind e; fSettings := fSettings e; fErrors := fErrors e;
     fSymbolTable := fSymbolTable e; fExtraStatements := fExtraStatements e;
     fCanInline := fCanInline e; fTmpSwizzleCounter := v;
     fInputs := fInputs e; fCapsMap := fCapsMap e;
     fFileSections := fFileSections e;
     fCurrentFunction := fCurrentFunction e; fRTAdjust := fRTAdjust e;
     fSkPerVertex := fSkPerVertex e;
     fRTAdjustInterfaceBlock := fRTAdjustInterfaceBlock e;
     fRTAdjustFieldIndex := fRTAdjustFieldIndex e; fRest := fRest e |}.

Definition with_fInputs (v : Inputs) (e : Env) : Env :=
  {| fKind := fKind e; fSettings := fSettings e; fErrors := fErrors e;
     fSymbolTable := fSymbolTable e; fExtraStatements := fExtraStatements e;
     fCanInline := fCanInline e; fTmpSwizzleCounter := fTmpSwizzleCounter e;
     fInputs := v; fCapsMap := fCapsMap e;
     fFileSections := fFileSections e;
     fCurrentFunction := fCurrentFunction e; fRTAdjust := fRTAdjust e;
     fSkPerVertex := fSkPerVertex e;
     fRTAdjustInterfaceBlock := fRTAdjustInterfaceBlock e;
     fRTAdjustFieldIndex := fRTAdjustFieldIndex e; fRest := fRest e |}.

Definition with_fRTAdjust (v : option Var) (e : Env) : Env :=
  {| fKind := fKind e; fSettings := fSettings e; fErrors := fErrors e;
     fSymbolTable := fSymbolTable e; fExtraStatements := fExtraStatements e;
     fCanInline := fCanInline e; fTmpSwizzleCounter := fTmpSwizzleCounter e;
     fInputs := fInputs e; fCapsMap := fCapsMap e;
     fFileSections := fFileSections e;
     fCurrentFunction := fCurrentFunction e; fRTAdjust := v;
     fSkPerVertex := fSkPerVertex e;
     fRTAdjustInterfaceBlock := fRTAdjustInterfaceBlock e;
     fRTAdjustFieldIndex := fRTAdjustFieldIndex e; fRest := fRest e |}.

(** A method of the generator that leaves the nesting counters alone. *)
Definition Gen (A : Type) : Type := State Env A.

(** [fErrors.error(offset, msg)]. *)
Definition error (offset : Z) (msg : string) : Gen unit :=
  modify (fun e => with_fErrors (fErrors e ++ [(offset, msg)]) e).

(** The state after [fErrors.error(offset, msg)] in the state [e]. *)
Definition reported (offset : Z) (msg : string) (e : Env) : Env :=
  with_fErrors (fErrors e ++ [(offset, msg)]) e.

(** ** Constant folding *)

(** [short_circuit_boolean].  [left] is a boolean literal (the source
    asserts it); [right.clone()] is the expression itself. *)
Definition short_circuit_boolean (left : Expression) (op : TokenKind)
    (right : Expression) : option Expression :=
  match left with
  | BoolLiteral leftOffset leftVal _ =>
      match op with
      | TK_LOGICALAND =>
          (* (true && expr) -> (expr) and (false && expr) -> (false) *)
          if leftVal then Some right
          else Some (BoolLiteral_new leftOffset false)
      | TK_LOGICALOR =>
          (* (true || expr) -> (true) and (false || expr) -> (expr) *)
          if leftVal then Some (BoolLiteral_new leftOffset true)
          else Some right
      | TK_LOGICALXOR =>
          (* (true ^^ expr) -> !(expr) and (false ^^ expr) -> (expr) *)
          if leftVal then Some (PrefixExpression TK_LOGICALNOT right)
          else Some right
      | _ => None
      end
  | _ => None
  end.

(** The block of [constantFold] for two boolean literals. *)
Definition foldBoolLiterals (offset : Z) (leftVal : bool) (op : TokenKind)
    (rightVal : bool) : option Expression :=
  match op with
  | TK_LOGICALAND => Some (BoolLiteral_new offset (leftVal && rightVal))
  | TK_LOGICALOR => Some (BoolLiteral_new offset (leftVal || rightVal))
  | TK_LOGICALXOR => Some (BoolLiteral_new offset (xorb leftVal rightVal))
  | _ => None
  end.

(** The block of [constantFold] for two integer literals.  [leftVal] and
    [rightVal] are [int64_t].  The macro [URESULT(Int, op)] computes
    [(uint32_t) leftVal op (uint32_t) rightVal] in 32-bit unsigned
    arithmetic; [RESULT(t, op)] computes [leftVal op rightVal]. *)
Definition foldIntLiterals (offset : Z) (leftVal : Z) (op : TokenKind)
    (rightOffset : Z) (rightVal : Z) : Gen (option Expression) :=
  match op with
  | TK_PLUS =>
      ret (Some (IntLiteral_new offset
                   (uint32_t (uint32_t leftVal + uint32_t rightVal))))
  | TK_MINUS =>
      ret (Some (IntLiteral_new offset
                   (uint32_t (uint32_t leftVal - uint32_t rightVal))))
  | TK_STAR =>
      ret (Some (IntLiteral_new offset
                   (uint32_t (uint32_t leftVal * uint32_t rightVal))))
  | TK_SLASH =>
      if (leftVal =? INT64_MIN) && (rightVal =? -1) then
        error rightOffset "arithmetic overflow" ;; ret None
      else if rightVal =? 0 then
        error rightOffset "division by zero" ;; ret None
      else ret (Some (IntLiteral_new offset (Z.quot leftVal rightVal)))
  | TK_PERCENT =>
      if (leftVal =? INT64_MIN) && (rightVal =? -1) then
        error rightOffset "arithmetic overflow" ;; ret None
      else if rightVal =? 0 then
        error rightOffset "division by zero" ;; ret None
      else ret (Some (IntLiteral_new offset (Z.rem leftVal rightVal)))
  | TK_BITWISEAND => ret (Some (IntLiteral_new offset (Z.land leftVal rightVal)))
  | TK_BITWISEOR => ret (Some (IntLiteral_new offset (Z.lor leftVal rightVal)))
  | TK_BITWISEXOR => ret (Some (IntLiteral_new offset (Z.lxor leftVal rightVal)))
  | TK_EQEQ => ret (Some (BoolLiteral_new offset (leftVal =? rightVal)))
  | TK_NEQ => ret (Some (BoolLiteral_new offset (negb (leftVal =? rightVal))))
  | TK_GT => ret (Some (BoolLiteral_new offset (leftVal >? rightVal)))
  | TK_GTEQ => ret (Some (BoolLiteral_new offset (leftVal >=? rightVal)))
  | TK_LT => ret (Some (BoolLiteral_new offset (leftVal <? rightVal)))
  | TK_LTEQ => ret (Some (BoolLiteral_new offset (leftVal <=? rightVal)))
  | TK_SHL =>
      if (rightVal >=? 0) && (rightVal <=? 31) then
        ret (Some (IntLiteral_new offset
                     (uint32_t (Z.shiftl (uint32_t leftVal) (uint32_t rightVal)))))
      else error rightOffset "shift value out of range" ;; ret None
  | TK_SHR =>
      if (rightVal >=? 0) && (rightVal <=? 31) then
        ret (Some (IntLiteral_new offset
                     (uint32_t (Z.shiftr (uint32_t leftVal) (uint32_t rightVal)))))
      else error rightOffset "shift value out of range" ;; ret None
  | _ => ret None
  end.

(** The block of [constantFold] for two floating-point literals. *)
Definition foldFloatLiterals (offset : Z) (leftVal : F) (op : TokenKind)
    (rightOffset : Z) (rightVal : F) : Gen (option Expression) :=
  match op with
  | TK_PLUS => ret (Some (FloatLiteral_new offset (Fadd leftVal rightVal)))
  | TK_MINUS => ret (Some (FloatLiteral_new offset (Fsub leftVal rightVal)))
  | TK_STAR => ret (Some (FloatLiteral_new offset (Fmul leftVal rightVal)))
  | TK_SLASH =>
      if negb (Feqb rightVal Fzero) then
        ret (Some (FloatLiteral_new offset (Fdiv leftVal rightVal)))
      else error rightOffset "division by zero" ;; ret None
  | TK_EQEQ => ret (Some (BoolLiteral_new offset (Feqb leftVal rightVal)))
  | TK_NEQ => ret (Some (BoolLiteral_new offset (negb (Feqb leftVal rightVal))))
  | TK_GT => ret (Some (BoolLiteral_new offset (Fltb rightVal leftVal)))
  | TK_GTEQ => ret (Some (BoolLiteral_new offset (Fleb rightVal leftVal)))
  | TK_LT => ret (Some (BoolLiteral_new offset (Fltb leftVal rightVal)))
  | TK_LTEQ => ret (Some (BoolLiteral_new offset (Fleb leftVal rightVal)))
  | _ => ret None
  end.

(** The indices [0 .. n-1] of a [for] loop over the columns of a vector. *)
Definition indices (n : Z) : list Z := map Z.of_nat (seq 0 (Z.to_nat n)).

(** The macro [RETURN_VEC_COMPONENTWISE_RESULT(op)]. *)
Definition vecComponentwise (op : F -> F -> F) (left right : Expression)
  : Expression :=
  Constructor (-1) (type_of left)
    (map (fun i =>
            FloatLiteral_new (-1)
              (Fsingle (op (getFVecComponent left i) (getFVecComponent right i))))
         (indices (columns (type_of left)))).

(** The loop of [constantFold] that divides two vectors, stopping at the
    first zero divisor. *)
Fixpoint vecDivide (left right : Expression) (idxs : list Z)
  : option (list Expression) :=
  match idxs with
  | [] => Some []
  | i :: rest =>
      let rvalue := getFVecComponent right i in
      if Feqb rvalue Fzero then None
      else
        match vecDivide left right rest with
        | None => None
        | Some args =>
            Some (FloatLiteral_new (-1)
                    (Fsingle (Fdiv (getFVecComponent left i) rvalue)) :: args)
        end
  end.

(** The blocks of [constantFold] for two vectors of floats of the same type
    and for two matrices. *)
Definition foldCompound (left : Expression) (op : TokenKind)
    (right : Expression) : Gen (option Expression) :=
  let leftType := type_of left in
  let rightType := type_of right in
  if TypeKind_eqb (typeKind leftType) kVector
     && isFloat (componentType leftType)
     && Type_eqb leftType rightType then
    match op with
    | TK_EQEQ => ret (Some (BoolLiteral_new (-1) (compareConstant left right)))
    | TK_NEQ =>
        ret (Some (BoolLiteral_new (-1) (negb (compareConstant left right))))
    | TK_PLUS => ret (Some (vecComponentwise Fadd left right))
    | TK_MINUS => ret (Some (vecComponentwise Fsub left right))
    | TK_STAR => ret (Some (vecComponentwise Fmul left right))
    | TK_SLASH =>
        match vecDivide left right (indices (columns leftType)) with
        | None => error (offset_of right) "division by zero" ;; ret None
        | Some args => ret (Some (Constructor (-1) leftType args))
        end
    | _ => ret None
    end
  else if TypeKind_eqb (typeKind leftType) kMatrix
          && TypeKind_eqb (typeKind rightType) kMatrix
          && ExpressionKind_eqb (kind left) (kind right) then
    match op with
    | TK_EQEQ => ret (Some (BoolLiteral_new (-1) (compareConstant left right)))
    | TK_NEQ =>
        ret (Some (BoolLiteral_new (-1) (negb (compareConstant left right))))
    | _ => ret None
    end
  else ret None.

Definition isBoolLiteral (e : Expression) : bool :=
  match e with
  | BoolLiteral _ _ _ => true
  | _ => false
  end.

(** [IRGenerator::constantFold]. *)
Definition constantFold (left : Expression) (op : TokenKind)
    (right : Expression) : Gen (option Expression) :=
  (* If the left side is a constant boolean literal, the right side does not
     need to be constant for short circuit optimizations to allow the
     constant to be folded. *)
  if isBoolLiteral left && negb (isCompileTimeConstant right) then
    ret (short_circuit_boolean left op right)
  else if isBoolLiteral right && negb (isCompileTimeConstant left) then
    (* (left OP right) is equivalent to (right OP left) for short-circuit
       optimizations *)
    ret (short_circuit_boolean right op left)
  else if negb (isCompileTimeConstant left)
          || negb (isCompileTimeConstant right) then
    (* constant folding requires both sides to be constant *)
    ret None
  else
    match left, right with
    | BoolLiteral offset leftVal _, BoolLiteral _ rightVal _ =>
        ret (foldBoolLiterals offset leftVal op rightVal)
    | IntLiteral offset leftVal _, IntLiteral rightOffset rightVal _ =>
        foldIntLiterals offset leftVal op rightOffset rightVal
    | FloatLiteral offset leftVal _, FloatLiteral rightOffset rightVal _ =>
        foldFloatLiterals offset leftVal op rightOffset rightVal
    | _, _ => foldCompound left op right
    end.

(** ** The syntax tree *)

(** The type node of a declaration: [ASTNode::TypeData] and the array sizes
    that follow the type name ([None] for an empty pair of brackets). *)
Record TypeNode : Set := {
  TypeNode_fOffset : Z;
  TypeData_fName : string;
  fIsNullable : bool;
  TypeNode_sizes : list (option Z)
}.

(** [ASTNode], one constructor per [ASTNode::Kind] that a statement or an
    expression can have, with the data and the children that the parser
    gives a node of that kind.  [kNull] is the kind of the literal [null]
    and of an absent child: [operator bool] is false of it alone.
    [kOtherNode] stands for the kinds of declarations. *)
Inductive ASTNode : Type :=
| kNull (fOffset : Z)
| kBinary (fOffset : Z) (left : ASTNode) (op : TokenKind) (right : ASTNode)
| kBool (fOffset : Z) (value : bool)
| kCall (fOffset : Z) (base : ASTNode) (arguments : list ASTNode)
| kField (fOffset : Z) (base : ASTNode) (field : string)
| kFloat (fOffset : Z) (value : F)
| kIdentifier (fOffset : Z) (identifier : string)
| kIndex (fOffset : Z) (base : ASTNode) (index : option ASTNode)
| kInt (fOffset : Z) (value : Z)
| kPostfix (fOffset : Z) (base : ASTNode) (op : TokenKind)
| kPrefix (fOffset : Z) (op : PrefixOperator) (base : ASTNode)
| kScope (fOffset : Z) (base : ASTNode) (member : string)
| kTernary (fOffset : Z) (test ifTrue ifFalse : ASTNode)
| kBlock (fOffset : Z) (statements : list ASTNode)
| kVarDeclarations (fOffset : Z) (modifiers : Modifiers) (type : TypeNode)
    (declarations : list ASTNode)
| kVarDeclaration (fOffset : Z) (fName : string) (sizes : list ASTNode)
    (value : option ASTNode)
| kIf (fOffset : Z) (isStatic : bool) (test ifTrue : ASTNode)
    (ifFalse : option ASTNode)
| kFor (fOffset : Z) (initializer test next statement : ASTNode)
| kWhile (fOffset : Z) (test statement : ASTNode)
| kDo (fOffset : Z) (statement test : ASTNode)
| kSwitch (fOffset : Z) (isStatic : bool) (value : ASTNode)
    (cases : list ASTNode)
| kSwitchCase (fOffset : Z) (value : ASTNode) (statements : list ASTNode)
| kReturn (fOffset : Z) (value : option ASTNode)
| kBreak (fOffset : Z)
| kContinue (fOffset : Z)
| kDiscard (fOffset : Z)
| kOtherNode (fOffset : Z).

(** [ASTNode::operator bool]. *)
Definition ASTNode_present (n : ASTNode) : bool :=
  match n with
  | kNull _ => false
  | _ => true
  end.

Definition ASTNode_fOffset (n : ASTNode) : Z :=
  match n with
  | kNull o | kBinary o _ _ _ | kBool o _ | kCall o _ _ | kField o _ _
  | kFloat o _ | kIdentifier o _ | kIndex o _ _ | kInt o _ | kPostfix o _ _
  | kPrefix o _ _ | kScope o _ _ | kTernary o _ _ _ | kBlock o _
  | kVarDeclarations o _ _ _ | kVarDeclaration o _ _ _ | kIf o _ _ _ _
  | kFor o _ _ _ _ | kWhile o _ _ | kDo o _ _ | kSwitch o _ _ _
  | kSwitchCase o _ _ | kReturn o _ | kBreak o | kContinue o | kDiscard o
  | kOtherNode o => o
  end.

(** The statements that hold statements. *)
Definition isCompoundStatement (n : ASTNode) : bool :=
  match n with
  | kBlock _ _ | kIf _ _ _ _ _ | kFor _ _ _ _ _ | kWhile _ _ _ | kDo _ _ _
  | kSwitch _ _ _ _ => true
  | _ => false
  end.

(** ** Identifiers and implicit coercion *)

Definition set_fRTWidth (e : Env) : Env :=
  with_fInputs {| fRTWidth := true; fRTHeight := fRTHeight (fInputs e);
                  Inputs_fFlipY := Inputs_fFlipY (fInputs e) |} e.

Definition set_fRTHeight (e : Env) : Env :=
  with_fInputs {| fRTWidth := fRTWidth (fInputs e); fRTHeight := true;
                  Inputs_fFlipY := Inputs_fFlipY (fInputs e) |} e.

Definition set_fFlipY (e : Env) : Env :=
  with_fInputs {| fRTWidth := fRTWidth (fInputs e);
                  fRTHeight := fRTHeight (fInputs e);
                  Inputs_fFlipY := true |} e.

(** The [switch] of [convertIdentifier] over the builtin number of a
    variable; the case of [SK_FRAGCOORD_BUILTIN] is compiled only when
    [SKSL_STANDALONE] is not defined. *)
Definition noteBuiltin (builtin : Z) : Gen unit :=
  if builtin =? SK_WIDTH_BUILTIN then modify set_fRTWidth
  else if builtin =? SK_HEIGHT_BUILTIN then modify set_fRTHeight
  else if negb SKSL_STANDALONE && (builtin =? SK_FRAGCOORD_BUILTIN) then
    modify set_fFlipY ;;
    settings <- gets fSettings ;;
    if Settings_fFlipY settings
       && match fCaps settings with
          | None => true
          | Some caps => negb (fragCoordConventionsExtensionString caps)
          end
    then modify set_fRTHeight
    else ret tt
  else ret tt.

(** [IRGenerator::convertIdentifier], on the offset and the string of the
    identifier node. *)
Definition convertIdentifier (offset : Z) (identifier : string)
  : Gen (option Expression) :=
  table <- gets fSymbolTable ;;
  match SymbolTable_lookup identifier table with
  | None =>
      error offset ("unknown identifier '" +++ identifier +++ "'") ;;
      ret None
  | Some (Symbol_FunctionDeclaration f) =>
      ret (Some (FunctionReference offset [f]))
  | Some (Symbol_UnresolvedFunction fs) =>
      ret (Some (FunctionReference offset fs))
  | Some (Symbol_Variable var) =>
      let modifiers := Var_fModifiers var in
      noteBuiltin (fBuiltin (fLayout modifiers)) ;;
      programKind <- gets fKind ;;
      (if ProgramKind_eqb programKind kFragmentProcessor_Kind
          && hasFlag (fFlags modifiers) kIn_Flag
          && negb (hasFlag (fFlags modifiers) kUniform_Flag)
          && (fKey (fLayout modifiers) =? 0)
          && (fBuiltin (fLayout modifiers) =? -1)
          && negb (Type_eqb (nonnullable (Var_type var)) fFragmentProcessor_Type)
          && negb (TypeKind_eqb (typeKind (Var_type var)) kSampler)
       then
         sections <- gets fFileSections ;;
         if existsb (String.eqb "setData") sections then ret tt
         else error offset
                ("'in' variable must be either 'uniform' or " +++
                 "'layout(key)', or there must be a custom " +++
                 "@setData function")
       else ret tt) ;;
      (* default to kRead_RefKind; this will be corrected later if the
         variable is written to *)
      ret (Some (VariableReference offset var kRead_RefKind))
  | Some (Symbol_Field owner fieldIndex) =>
      ret (Some (FieldAccess (VariableReference offset owner kRead_RefKind)
                   fieldIndex kAnonymousInterfaceBlock_OwnerKind))
  | Some (Symbol_Type t) => ret (Some (TypeReference offset t))
  | Some (Symbol_External v) => ret (Some (ExternalValueReference offset v))
  end.

(** [IRGenerator::checkValid]. *)
Definition checkValid (expr : Expression) : Gen unit :=
  match expr with
  | FunctionReference offset _ =>
      error offset "expected '(' to begin function call"
  | TypeReference offset _ =>
      error offset "expected '(' to begin constructor invocation"
  | _ =>
      if Type_eqb (type_of expr) fInvalid_Type then
        error (offset_of expr) "invalid expression"
      else ret tt
  end.

(** The functions of the generator that this model calls and does not
    define.  [coerce_call] is the call [this->call(-1, ctor, args)] by which
    [coerce] builds the constructor of a scalar: [call] itself coerces the
    arguments it is given, and taking this one use as given lets [coerce] be
    defined before [call].  [callFunction] is the overload of [call] on a
    single [FunctionDeclaration], which copies intrinsics and runs the
    inliner. *)
Class Collaborators : Type := {
  coerce_call : Z -> Expression -> list Expression -> Gen (option Expression);
  convertConstructor : Z -> Ty -> list Expression -> Gen (option Expression);
  callFunction :
    Z -> FunctionDeclaration -> list Expression -> Gen (option Expression);
  convertTypeField : Z -> Ty -> string -> Gen (option Expression)
}.

Context {collaborators : Collaborators}.

(** [IRGenerator::coerce]. *)
Definition coerce (expr : option Expression) (type : Ty)
  : Gen (option Expression) :=
  match expr with
  | None => ret None
  | Some expr =>
      if Type_eqb (type_of expr) type then ret (Some expr)
      else
        checkValid expr ;;
        if Type_eqb (type_of expr) fInvalid_Type then ret None
        else if Expression_coercionCost expr type =? INT_MAX then
          error (offset_of expr)
            ("expected '" +++ displayName type +++ "', but found '" +++
             displayName (type_of expr) +++ "'") ;;
          ret None
        else if TypeKind_eqb (typeKind type) kScalar then
          ctor <- (if Type_eqb type fFloatLiteral_Type then
                     convertIdentifier (-1) "float"
                   else if Type_eqb type fIntLiteral_Type then
                     convertIdentifier (-1) "int"
                   else convertIdentifier (-1) (name type)) ;;
          match ctor with
          | None => ret None (* SkASSERT(ctor) *)
          | Some ctor => coerce_call (-1) ctor [expr]
          end
        else
          match expr with
          | NullLiteral offset _ =>
              (* SkASSERT(type.typeKind() == Type::TypeKind::kNullable) *)
              ret (Some (NullLiteral offset type))
          | _ => ret (Some (Constructor (-1) type [expr]))
          end
  end.

(** ** The types of a binary expression *)

(** [is_matrix_multiply]. *)
Definition is_matrix_multiply (left right : Ty) : bool :=
  if TypeKind_eqb (typeKind left) kMatrix then
    TypeKind_eqb (typeKind right) kMatrix
    || TypeKind_eqb (typeKind right) kVector
  else
    TypeKind_eqb (typeKind left) kVector
    && TypeKind_eqb (typeKind right) kMatrix.

(** The out parameters of [determine_binary_type]. *)
Record BinaryTypes : Type := {
  outLeftType : Ty;
  outRightType : Ty;
  outResultType : Ty
}.

Definition isVectorOrMatrix (t : Ty) : bool :=
  TypeKind_eqb (typeKind t) kVector || TypeKind_eqb (typeKind t) kMatrix.

(** The part of [determine_binary_type] after its [switch], with the flags
    the [switch] has set. *)
Definition determine_binary_type_tail
    (rec : TokenKind -> Ty -> Ty -> option BinaryTypes)
    (isLogical validMatrixOrVectorOp : bool)
    (op : TokenKind) (left right : Ty) : option BinaryTypes :=
  let isAssignment := IsAssignment op in
  let leftIsVectorOrMatrix := isVectorOrMatrix left in
  let rightIsVectorOrMatrix := isVectorOrMatrix right in
  if leftIsVectorOrMatrix && validMatrixOrVectorOp
     && TypeKind_eqb (typeKind right) kScalar then
    match rec op (componentType left) right with
    | Some r =>
        Some {| outLeftType :=
                  toCompound (outLeftType r) (columns left) (rows left);
                outRightType := outRightType r;
                outResultType :=
                  if negb isLogical then
                    toCompound (outResultType r) (columns left) (rows left)
                  else outResultType r |}
    | None => None
    end
  else if negb isAssignment && rightIsVectorOrMatrix && validMatrixOrVectorOp
          && TypeKind_eqb (typeKind left) kScalar then
    match rec op left (componentType right) with
    | Some r =>
        Some {| outLeftType := outLeftType r;
                outRightType :=
                  toCompound (outRightType r) (columns right) (rows right);
                outResultType :=
                  if negb isLogical then
                    toCompound (outResultType r) (columns right) (rows right)
                  else outResultType r |}
    | None => None
    end
  else
    let rightToLeftCost := coercionCost right left in
    let leftToRightCost :=
      if isAssignment then INT_MAX else coercionCost left right in
    if (TypeKind_eqb (typeKind left) kScalar
        && TypeKind_eqb (typeKind right) kScalar)
       || (leftIsVectorOrMatrix && validMatrixOrVectorOp) then
      if rightToLeftCost <? leftToRightCost then
        (* Right-to-Left conversion is cheaper (and therefore possible) *)
        Some {| outLeftType := left; outRightType := left;
                outResultType := if isLogical then fBool_Type else left |}
      else if negb (leftToRightCost =? INT_MAX) then
        (* Left-to-Right conversion is possible (and at least as cheap as
           Right-to-Left) *)
        Some {| outLeftType := right; outRightType := right;
                outResultType := if isLogical then fBool_Type else right |}
      else None
    else None.

(** The body of [determine_binary_type]; [rec] is the function itself, for
    its calls on component types.  The result is [None] where the source
    returns [false]. *)
Definition determine_binary_type_body
    (rec : TokenKind -> Ty -> Ty -> option BinaryTypes)
    (op : TokenKind) (left right : Ty) : option BinaryTypes :=
  let isAssignment := IsAssignment op in
  match op with
  | TK_EQ =>
      if canCoerceTo right left then
        Some {| outLeftType := left; outRightType := left;
                outResultType := left |}
      else None
  | TK_EQEQ | TK_NEQ =>
      if canCoerceTo right left then
        Some {| outLeftType := left; outRightType := left;
                outResultType := fBool_Type |}
      else if canCoerceTo left right then
        Some {| outLeftType := right; outRightType := right;
                outResultType := fBool_Type |}
      else None
  | TK_LT | TK_GT | TK_LTEQ | TK_GTEQ =>
      determine_binary_type_tail rec true false op left right
  | TK_LOGICALOR | TK_LOGICALAND | TK_LOGICALXOR
  | TK_LOGICALOREQ | TK_LOGICALANDEQ | TK_LOGICALXOREQ =>
      if canCoerceTo left fBool_Type && canCoerceTo right fBool_Type then
        Some {| outLeftType := fBool_Type; outRightType := fBool_Type;
                outResultType := fBool_Type |}
      else None
  | TK_STAREQ | TK_STAR =>
      if is_matrix_multiply left right then
        (* determine final component type *)
        match rec TK_STAR (componentType left) (componentType right) with
        | Some r =>
            let component := outResultType r in
            let leftColumns := columns left in
            let leftRows := rows left in
            (* matrix * vector treats the vector as a column vector, so we
               need to transpose it *)
            let rightColumns :=
              if TypeKind_eqb (typeKind right) kVector then rows right
              else columns right in
            let rightRows :=
              if TypeKind_eqb (typeKind right) kVector then columns right
              else rows right in
            let result :=
              if rightColumns >? 1 then
                toCompound component rightColumns leftRows
              else
                (* result was a column vector, transpose it back to a row *)
                toCompound component leftRows rightColumns in
            if isAssignment
               && (negb (columns result =? leftColumns)
                   || negb (rows result =? leftRows)) then None
            else if leftColumns =? rightRows then
              Some {| outLeftType :=
                        toCompound component (columns left) (rows left);
                      outRightType :=
                        toCompound component (columns right) (rows right);
                      outResultType := result |}
            else None
        | None => None
        end
      else determine_binary_type_tail rec false true op left right
  | TK_PLUSEQ | TK_MINUSEQ | TK_SLASHEQ | TK_PERCENTEQ | TK_SHLEQ | TK_SHREQ
  | TK_PLUS | TK_MINUS | TK_SLASH | TK_PERCENT =>
      determine_binary_type_tail rec false true op left right
  | TK_COMMA =>
      Some {| outLeftType := left; outRightType := right;
              outResultType := right |}
  | _ => determine_binary_type_tail rec false false op left right
  end.

(** [determine_binary_type], with a bound on the depth of its recursion on
    component types: [fuel] nested calls are allowed, and a deeper one
    fails. *)
Fixpoint determine_binary_type_fuel (fuel : nat) (op : TokenKind)
    (left right : Ty) : option BinaryTypes :=
  determine_binary_type_body
    (match fuel with
     | O => fun _ _ _ => None
     | S fuel' => determine_binary_type_fuel fuel'
     end) op left right.

(** [determine_binary_type].  The component of a vector or of a matrix is a
    scalar, so the function calls itself at most once, on scalars. *)
Definition determine_binary_type (op : TokenKind) (left right : Ty)
  : option BinaryTypes :=
  determine_binary_type_fuel 2 op left right.

(** The relational operators: [isLogical] in [determine_binary_type]. *)
Definition isRelational (op : TokenKind) : bool :=
  match op with
  | TK_LT | TK_GT | TK_LTEQ | TK_GTEQ => true
  | _ => false
  end.

(** The arithmetic operators: [validMatrixOrVectorOp], without the
    assignment forms. *)
Definition isArithmetic (op : TokenKind) : bool :=
  match op with
  | TK_PLUS | TK_MINUS | TK_STAR | TK_SLASH | TK_PERCENT => true
  | _ => false
  end.

(** The binary operators, other than assignments, that no label of the
    [switch] of [determine_binary_type] returns from: the arithmetic,
    shift, bitwise and relational operators. *)
Definition isCostOperator (op : TokenKind) : bool :=
  match op with
  | TK_PLUS | TK_MINUS | TK_STAR | TK_SLASH | TK_PERCENT
  | TK_SHL | TK_SHR | TK_BITWISEOR | TK_BITWISEXOR | TK_BITWISEAND
  | TK_LT | TK_GT | TK_LTEQ | TK_GTEQ => true
  | _ => false
  end.

Definition isScalar (t : Ty) : bool := TypeKind_eqb (typeKind t) kScalar.

(** The operands that such an operator types by the costs of coercion: two
    scalars, or a vector or matrix on the left of an arithmetic operator
    with an operand that is not a scalar, a matrix multiplication apart. *)
Definition typedByCost (op : TokenKind) (left right : Ty) : bool :=
  isCostOperator op
  && ((isScalar left && isScalar right)
      || (isVectorOrMatrix left && isArithmetic op && negb (isScalar right)
          && negb (match op with TK_STAR => true | _ => false end
                   && is_matrix_multiply left right))).

(** ** Assignment targets *)

(** The loop of [checkSwizzleWrite]; [bits] holds the components seen. *)
Fixpoint checkSwizzleWrite_loop (offset : Z) (bits : Z) (components : list Z)
  : Gen bool :=
  match components with
  | [] => ret true
  | idx :: rest =>
      if idx <? 0 then
        error offset "cannot write to a swizzle mask containing a constant" ;;
        ret false
      else
        (* SkASSERT(idx <= 3) *)
        let bit := Z.shiftl 1 idx in
        if negb (Z.land bits bit =? 0) then
          error offset "cannot write to the same swizzle field more than once" ;;
          ret false
        else checkSwizzleWrite_loop offset (Z.lor bits bit) rest
  end.

(** [IRGenerator::checkSwizzleWrite], on the members of the swizzle. *)
Definition checkSwizzleWrite (fBase : Expression) (fComponents : list Z)
  : Gen bool :=
  checkSwizzleWrite_loop (offset_of fBase) 0 fComponents.

(** [IRGenerator::setRefKind].  The source updates the reference kind inside
    [expr]; here the updated expression is returned with the result. *)
Fixpoint setRefKind (expr : Expression) (refKind : RefKind)
  : Gen (bool * Expression) :=
  match expr with
  | VariableReference offset var _ =>
      if hasFlag (fFlags (Var_fModifiers var))
           (Z.lor (Z.lor kConst_Flag kUniform_Flag) kVarying_Flag) then
        error offset
          ("cannot modify immutable variable '" +++ Var_fName var +++ "'") ;;
        ret (false, expr)
      else ret (true, VariableReference offset var refKind)
  | FieldAccess base fieldIndex ownerKind =>
      r <- setRefKind base refKind ;;
      ret (fst r, FieldAccess (snd r) fieldIndex ownerKind)
  | Swizzle base components =>
      ok <- checkSwizzleWrite base components ;;
      if ok then
        r <- setRefKind base refKind ;;
        ret (fst r, Swizzle (snd r) components)
      else ret (false, expr)
  | IndexExpression base index =>
      r <- setRefKind base refKind ;;
      ret (fst r, IndexExpression (snd r) index)
  | TernaryExpression offset test ifTrue ifFalse =>
      r1 <- setRefKind ifTrue refKind ;;
      if fst r1 then
        r2 <- setRefKind ifFalse refKind ;;
        ret (fst r2, TernaryExpression offset test (snd r1) (snd r2))
      else ret (false, TernaryExpression offset test (snd r1) ifFalse)
  | ExternalValueReference offset v =>
      if negb (ExternalValue_canWrite v) then
        error offset
          ("cannot modify immutable external value '" +++
           ExternalValue_fName v +++ "'") ;;
        ret (false, expr)
      else ret (true, expr)
  | _ =>
      error (offset_of expr) "cannot assign to this expression" ;;
      ret (false, expr)
  end.

(** ** Swizzles and fields *)

(** [count_contiguous_swizzle_chunks]: the number of runs of the component
    [0]; [inChunk] says that the component before was a [0]. *)
Fixpoint count_chunks (inChunk : bool) (components : list Z) : Z :=
  match components with
  | [] => 0
  | c :: rest =>
      if c =? 0 then (if inChunk then 0 else 1) + count_chunks true rest
      else count_chunks false rest
  end.

Definition count_contiguous_swizzle_chunks (components : list Z) : Z :=
  count_chunks false components.

Definition isOneOf (c : Ascii.ascii) (s : string) : bool :=
  existsb (Ascii.eqb c) (list_ascii_of_string s).

(** One turn of the [switch] of [convertSwizzle] over a character of the
    mask: the component to push and whether it is a literal, or [None] for
    the [default] label.  A label whose test on the number of columns fails
    falls through to the next one. *)
Definition swizzleComponent (baseColumns : Z) (c : Ascii.ascii)
  : option (Z * bool) :=
  if isOneOf c "0" then Some (SKSL_SWIZZLE_0, true)
  else if isOneOf c "1" then Some (SKSL_SWIZZLE_1, true)
  else if isOneOf c "xrsL" then Some (0, false)
  else if isOneOf c "ygtT" then
    if baseColumns >=? 2 then Some (1, false)
    else if baseColumns >=? 3 then Some (2, false)
    else if baseColumns >=? 4 then Some (3, false)
    else None
  else if isOneOf c "zbpR" then
    if baseColumns >=? 3 then Some (2, false)
    else if baseColumns >=? 4 then Some (3, false)
    else None
  else if isOneOf c "waqB" then
    if baseColumns >=? 4 then Some (3, false)
    else None
  else None.

(** The first loop of [convertSwizzle]: the components of the mask and the
    number of literals among them, or the first character that is not a
    component of the base. *)
Fixpoint swizzleComponents (baseColumns : Z) (mask : list Ascii.ascii)
  : Ascii.ascii + (list Z * Z) :=
  match mask with
  | [] => inr ([], 0)
  | c :: rest =>
      match swizzleComponent baseColumns c with
      | None => inl c
      | Some (component, isLiteral) =>
          match swizzleComponents baseColumns rest with
          | inl bad => inl bad
          | inr (components, numLiteralFields) =>
              inr (component :: components,
                   (if isLiteral then 1 else 0) + numLiteralFields)
          end
      end
  end.

(** The argument that a run of [count] components [0] contributes to the
    constructor of a swizzled scalar. *)
Definition swizzleRun (expr : Expression) (offset : Z) (count : Z)
  : list Expression :=
  if count =? 0 then []
  else if count >? 1 then
    [Constructor offset (toCompound (type_of expr) count 1) [expr]]
  else [expr].

(** The last loop of [convertSwizzle]: the arguments of the constructor that
    a swizzled scalar becomes.  [count] is the length of the run of
    components [0] that ends before [components]. *)
Fixpoint swizzleArguments (expr : Expression) (offset : Z) (count : Z)
    (components : list Z) : list Expression :=
  match components with
  | [] => swizzleRun expr offset count
  | c :: rest =>
      if c =? 0 then swizzleArguments expr offset (count + 1) rest
      else
        swizzleRun expr offset count ++
        (if c =? SKSL_SWIZZLE_0 then [IntLiteral_new offset 0]
         else if c =? SKSL_SWIZZLE_1 then [IntLiteral_new offset 1]
         else []) ++
        swizzleArguments expr offset 0 rest
  end.

(** [IRGenerator::convertSwizzle]. *)
Definition convertSwizzle (base : Expression) (fields : string)
  : Gen (option Expression) :=
  let baseType := type_of base in
  if negb (TypeKind_eqb (typeKind baseType) kVector)
     && negb (isNumber baseType) then
    error (offset_of base)
      ("cannot swizzle value of type '" +++ displayName baseType +++ "'") ;;
    ret None
  else
    match swizzleComponents (columns baseType) (list_ascii_of_string fields) with
    | inl c =>
        error (offset_of base)
          ("invalid swizzle component '" +++ String c "" +++ "'") ;;
        ret None
    | inr (swizzleComponents, numLiteralFields) =>
        (* SkASSERT(swizzleComponents.size() > 0) *)
        let size := Z.of_nat (List.length swizzleComponents) in
        if size >? 4 then
          error (offset_of base)
            ("too many components in swizzle mask '" +++ fields +++ "'") ;;
          ret None
        else if numLiteralFields =? size then
          error (offset_of base) "swizzle must refer to base expression" ;;
          ret None
        else if isNumber baseType then
          (* Swizzling a single scalar. Something like foo.x0x1 is
             equivalent to float4(foo, 0, foo, 1) *)
          let offset := offset_of base in
          expr <-
            match base with
            | VariableReference _ _ _ | FloatLiteral _ _ _
            | IntLiteral _ _ _ =>
                (* just a constant or variable reference: safe to re-use *)
                ret base
            | _ =>
                if count_contiguous_swizzle_chunks swizzleComponents <=? 1 then
                  (* no copying needed *)
                  ret base
                else
                  (* store the value in a temporary variable *)
                  varIndex <- gets fTmpSwizzleCounter ;;
                  modify (with_fTmpSwizzleCounter (varIndex + 1)) ;;
                  let var :=
                    mkVar offset Modifiers_default
                      ("_tmpSwizzle" +++ to_string varIndex) baseType
                      kLocal_Storage (Some base) in
                  let expr := VariableReference offset var kRead_RefKind in
                  modify (fun e =>
                    with_fExtraStatements
                      (fExtraStatements e ++
                       [VarDeclarationsStatement
                          {| VarDeclarations_fOffset := offset;
                             fBaseType := type_of expr;
                             fVars :=
                               [{| fVar := var; fSizes := [];
                                   VarDeclaration_fValue := Some base |}] |}])
                      e) ;;
                  ret expr
            end ;;
          ret (Some (Constructor offset
                       (toCompound (type_of expr) size 1)
                       (swizzleArguments expr offset 0 swizzleComponents)))
        else ret (Some (Swizzle base swizzleComponents))
    end.

Fixpoint lookupCap (n : string) (caps : list (string * SettingsValue))
  : option SettingsValue :=
  match caps with
  | [] => None
  | (m, v) :: rest => if String.eqb m n then Some v else lookupCap n rest
  end.

(** [IRGenerator::getCap]. *)
Definition getCap (offset : Z) (n : string) : Gen (option Expression) :=
  caps <- gets fCapsMap ;;
  match lookupCap n caps with
  | None =>
      error offset ("unknown capability flag '" +++ n +++ "'") ;;
      ret None
  | Some found =>
      ret (Some (Setting offset ("sk_Caps." +++ n) (literal found offset)))
  end.

(** The index of the first field with the given name. *)
Fixpoint fieldIndex (field : string) (fs : list (string * Ty)) (i : Z)
  : option Z :=
  match fs with
  | [] => None
  | (n, _) :: rest =>
      if String.eqb n field then Some i else fieldIndex field rest (i + 1)
  end.

(** [IRGenerator::convertField]. *)
Definition convertField (base : Expression) (field : string)
  : Gen (option Expression) :=
  match base with
  | ExternalValueReference offset ev =>
      match getChild ev field with
      | None =>
          error offset
            ("external value does not have a child named '" +++ field +++ "'") ;;
          ret None
      | Some result => ret (Some (ExternalValueReference offset result))
      end
  | _ =>
      let baseType := type_of base in
      match fieldIndex field (fields baseType) 0 with
      | Some i => ret (Some (FieldAccess base i kDefault_OwnerKind))
      | None =>
          error (offset_of base)
            ("type '" +++ displayName baseType +++
             "' does not have a field " +++ "named '" +++ field +++ "") ;;
          ret None
      end
  end.

(** ** Calls and overload resolution *)

(** The loop of [callCost]: the sum of the costs of coercing each argument
    to the type at its position, or [INT_MAX] at the first argument that
    does not coerce.  [determineFinalTypes] gives as many types as there are
    arguments; the loop ends with the shorter list. *)
Fixpoint callCost_loop (arguments : list Expression) (types : list Ty)
    (total : Z) : Z :=
  match arguments, types with
  | argument :: arguments', type :: types' =>
      let cost := Expression_coercionCost argument type in
      if negb (cost =? INT_MAX) then callCost_loop arguments' types' (total + cost)
      else INT_MAX
  | _, _ => total
  end.

(** The costs of coercing the arguments to the types at their positions. *)
Definition argumentCosts (arguments : list Expression) (finalTypes : list Ty)
  : list Z :=
  map (fun p => Expression_coercionCost (fst p) (snd p))
      (combine arguments finalTypes).

(** [IRGenerator::callCost]. *)
Definition callCost (function : FunctionDeclaration)
    (arguments : list Expression) : Z :=
  if negb (Nat.eqb (List.length (fParameters function)) (List.length arguments))
  then INT_MAX
  else
    match determineFinalTypes function arguments with
    | None => INT_MAX
    | Some (types, _) => callCost_loop arguments types 0
    end.

(** The loop of [call] over the candidates of a function reference:
    [bestCost] and [best] before and after. *)
Fixpoint call_findBest (functions : list FunctionDeclaration)
    (arguments : list Expression) (bestCost : Z)
    (best : option FunctionDeclaration) : Z * option FunctionDeclaration :=
  match functions with
  | [] => (bestCost, best)
  | f :: rest =>
      let cost := callCost f arguments in
      if cost <? bestCost then call_findBest rest arguments cost (Some f)
      else call_findBest rest arguments bestCost best
  end.

(** The candidate that the loop of [call] leaves in [best]. *)
Definition selectOverload (functions : list FunctionDeclaration)
    (arguments : list Expression) : option FunctionDeclaration :=
  snd (call_findBest functions arguments INT_MAX None).

(** The text [a, b, c] of the types of the arguments in the diagnostic
    "no match for". *)
Fixpoint argumentTypes (separator : string) (arguments : list Expression)
  : string :=
  match arguments with
  | [] => ""
  | a :: rest =>
      separator +++ displayName (type_of a) +++ argumentTypes ", " rest
  end.

(** The loop of [call] that coerces each argument of an external function to
    the type of its parameter. *)
Fixpoint coerceArguments (arguments : list Expression) (types : list Ty)
  : Gen (option (list Expression)) :=
  match arguments, types with
  | a :: arguments', t :: types' =>
      a' <-? coerce (Some a) t ;;
      rest <-? coerceArguments arguments' types' ;;
      ret (Some (a' :: rest))
  | _, _ => ret (Some arguments)
  end.

(** [IRGenerator::call] on a function value. *)
Definition call (offset : Z) (functionValue : Expression)
    (arguments : list Expression) : Gen (option Expression) :=
  match functionValue with
  | TypeReference _ t => convertConstructor offset t arguments
  | ExternalValueReference _ v =>
      if negb (ExternalValue_canCall v) then
        error offset "this external value is not a function" ;;
        ret None
      else
        let count := callParameterCount v in
        if negb (count =? Z.of_nat (List.length arguments)) then
          error offset
            ("external function expected " +++ to_string count +++
             " arguments, but found " +++
             to_string (Z.of_nat (List.length arguments))) ;;
          ret None
        else
          arguments' <-? coerceArguments arguments (getCallParameterTypes v) ;;
          ret (Some (ExternalFunctionCall offset (callReturnType v) v arguments'))
  | FunctionReference _ functions =>
      match functions with
      | f0 :: _ :: _ =>
          (* ref.fFunctions.size() > 1 *)
          match selectOverload functions arguments with
          | Some best => callFunction offset best arguments
          | None =>
              error offset
                ("no match for " +++ FunctionDeclaration_fName f0 +++ "(" +++
                 argumentTypes "" arguments +++ ")") ;;
              ret None
          end
      | [f0] => callFunction offset f0 arguments
      | [] => ret None (* a function reference names a function *)
      end
  | _ =>
      error offset "not a function" ;;
      ret None
  end.

(** ** Constant integers *)

(** [IRGenerator::getConstantInt]: the value written to [*out], or [None]
    where the source returns [false]. *)
Fixpoint getConstantInt (value : Expression) : option Z :=
  match value with
  | IntLiteral _ v _ => Some v
  | VariableReference _ (mkVar _ modifiers _ _ _ initialValue) _ =>
      if hasFlag (fFlags modifiers) kConst_Flag then
        match initialValue with
        | Some initial => getConstantInt initial
        | None => None
        end
      else None
  | _ => None
  end.

(** ** Expressions *)

(** [AutoDisableInline]: [body] runs between the constructor and the
    destructor of the guard. *)
Definition AutoDisableInline {A : Type} (canInline : bool) (body : Gen A)
  : Gen A :=
  fOldCanInline <- gets fCanInline ;;
  modify (with_fCanInline (fOldCanInline && canInline)) ;;
  result <- body ;;
  modify (with_fCanInline fOldCanInline) ;;
  ret result.

Definition isIntLiteral (e : Expression) : bool :=
  match e with
  | IntLiteral _ _ _ => true
  | _ => false
  end.

(** The converters of the expression kinds call [convertExpression] on the
    children of their node; they take it as [rec], and [convertExpression]
    below closes the recursion.  Each takes the offset, the data and the
    children of a node of its kind. *)
Section ExpressionConverters.

Variable rec : ASTNode -> Gen (option Expression).

(** [IRGenerator::convertBinaryExpression]. *)
Definition convertBinaryExpression (offset : Z) (leftNode : ASTNode)
    (op : TokenKind) (rightNode : ASTNode) : Gen (option Expression) :=
  left <-? rec leftNode ;;
  (* Can't inline the right side of a short-circuiting boolean, because our
     inlining approach runs things out of order. *)
  right <-? AutoDisableInline
              (match op with
               | TK_LOGICALAND | TK_LOGICALOR => false
               | _ => true
               end)
              (rec rightNode) ;;
  let rawLeftType :=
    if isIntLiteral left && isInteger (type_of right) then type_of right
    else type_of left in
  let rawRightType :=
    if isIntLiteral right && isInteger (type_of left) then type_of left
    else type_of right in
  match determine_binary_type op rawLeftType rawRightType with
  | None =>
      error offset
        ("type mismatch: '" +++ OperatorName op +++ "' cannot operate on '" +++
         displayName (type_of left) +++ "', '" +++
         displayName (type_of right) +++ "'") ;;
      ret None
  | Some types =>
      assigned <-
        (if IsAssignment op then
           setRefKind left
             (match op with
              | TK_EQ => kWrite_RefKind
              | _ => kReadWrite_RefKind
              end)
         else ret (true, left)) ;;
      if negb (fst assigned) then ret None
      else
        left' <- coerce (Some (snd assigned)) (outLeftType types) ;;
        right' <- coerce (Some right) (outRightType types) ;;
        match left', right' with
        | Some left', Some right' =>
            result <- constantFold left' op right' ;;
            match result with
            | Some folded => ret (Some folded)
            | None =>
                ret (Some (BinaryExpression offset left' op right'
                             (outResultType types)))
            end
        | _, _ => ret None
        end
  end.

(** [IRGenerator::convertTernaryExpression]. *)
Definition convertTernaryExpression (offset : Z)
    (testNode ifTrueNode ifFalseNode : ASTNode) : Gen (option Expression) :=
  converted <- rec testNode ;;
  test <-? coerce converted fBool_Type ;;
  branches <-? AutoDisableInline false
                 (ifTrue <-? rec ifTrueNode ;;
                  ifFalse <-? rec ifFalseNode ;;
                  ret (Some (ifTrue, ifFalse))) ;;
  let ifTrue := fst branches in
  let ifFalse := snd branches in
  let mismatch :=
    error offset
      ("ternary operator result mismatch: '" +++
       displayName (type_of ifTrue) +++ "', '" +++
       displayName (type_of ifFalse) +++ "'") ;;
    ret None in
  match determine_binary_type TK_EQEQ (type_of ifTrue) (type_of ifFalse) with
  | None => mismatch
  | Some types =>
      let trueType := outLeftType types in
      let falseType := outRightType types in
      (* [trueType != falseType] compares two pointers, which
         [determine_binary_type] has set to the same type for TK_EQEQ *)
      if Type_eqb (nonnullable trueType) fFragmentProcessor_Type then
        error offset
          ("ternary expression of type '" +++ displayName trueType +++
           "' not allowed") ;;
        ret None
      else
        ifTrue' <-? coerce (Some ifTrue) trueType ;;
        ifFalse' <-? coerce (Some ifFalse) falseType ;;
        match test with
        | BoolLiteral _ value _ =>
            (* static boolean test, just return one of the branches *)
            if value then ret (Some ifTrue') else ret (Some ifFalse')
        | _ => ret (Some (TernaryExpression offset test ifTrue' ifFalse'))
        end
  end.

Definition cannotOperate (offset : Z) (op : string) (baseType : Ty)
  : Gen (option Expression) :=
  error offset
    ("'" +++ op +++ "' cannot operate on '" +++ displayName baseType +++ "'") ;;
  ret None.

(** [IRGenerator::convertPrefixExpression]. *)
Definition convertPrefixExpression (offset : Z) (op : PrefixOperator)
    (baseNode : ASTNode) : Gen (option Expression) :=
  base <-? rec baseNode ;;
  let baseType := type_of base in
  match op with
  | Prefix_PLUS =>
      if negb (isNumber baseType)
         && negb (TypeKind_eqb (typeKind baseType) kVector)
         && negb (Type_eqb baseType fFloatLiteral_Type) then
        cannotOperate offset "+" baseType
      else ret (Some base)
  | Prefix_MINUS =>
      match base with
      | IntLiteral baseOffset value _ =>
          ret (Some (IntLiteral_new baseOffset (- value)))
      | FloatLiteral baseOffset value _ =>
          ret (Some (FloatLiteral_new baseOffset (Fneg value)))
      | _ =>
          if negb (isNumber baseType)
             && negb (TypeKind_eqb (typeKind baseType) kVector) then
            cannotOperate offset "-" baseType
          else ret (Some (PrefixExpression TK_MINUS base))
      end
  | Prefix_PLUSPLUS | Prefix_MINUSMINUS =>
      if negb (isNumber baseType) then
        cannotOperate offset (OperatorName (PrefixOperator_token op)) baseType
      else
        r <- setRefKind base kReadWrite_RefKind ;;
        ret (Some (PrefixExpression (PrefixOperator_token op) (snd r)))
  | Prefix_LOGICALNOT =>
      if negb (Type_eqb baseType fBool_Type) then
        cannotOperate offset (OperatorName TK_LOGICALNOT) baseType
      else
        match base with
        | BoolLiteral baseOffset value _ =>
            ret (Some (BoolLiteral_new baseOffset (negb value)))
        | _ => ret (Some (PrefixExpression TK_LOGICALNOT base))
        end
  | Prefix_BITWISENOT =>
      if negb (Type_eqb baseType fInt_Type)
         && negb (Type_eqb baseType fUInt_Type) then
        cannotOperate offset (OperatorName TK_BITWISENOT) baseType
      else ret (Some (PrefixExpression TK_BITWISENOT base))
  end.

(** [IRGenerator::convertPostfixExpression]. *)
Definition convertPostfixExpression (offset : Z) (baseNode : ASTNode)
    (op : TokenKind) : Gen (option Expression) :=
  base <-? rec baseNode ;;
  let baseType := type_of base in
  if negb (isNumber baseType) then
    cannotOperate offset (OperatorName op) baseType
  else
    r <- setRefKind base kReadWrite_RefKind ;;
    ret (Some (PostfixExpression (snd r) op)).

(** [IRGenerator::convertIndex]. *)
Definition convertIndex (base : Expression) (index : ASTNode)
  : Gen (option Expression) :=
  match base with
  | TypeReference baseOffset oldType =>
      match index with
      | kInt _ size =>
          (* [size] is a [SKSL_INT]; the constructor of [Type] takes an
             [int] *)
          let newType :=
            ArrayType (name oldType +++ "[" +++ to_string size +++ "]")
              oldType (int32_t size) in
          ret (Some (TypeReference baseOffset newType))
      | _ =>
          error baseOffset "array size must be a constant" ;;
          ret None
      end
  | _ =>
      let baseType := type_of base in
      if negb (TypeKind_eqb (typeKind baseType) kArray)
         && negb (TypeKind_eqb (typeKind baseType) kMatrix)
         && negb (TypeKind_eqb (typeKind baseType) kVector) then
        error (offset_of base)
          ("expected array, but found '" +++ displayName baseType +++ "'") ;;
        ret None
      else
        converted <-? rec index ;;
        converted' <-?
          (if negb (Type_eqb (type_of converted) fUInt_Type) then
             coerce (Some converted) fInt_Type
           else ret (Some converted)) ;;
        ret (Some (IndexExpression base converted'))
  end.

(** [IRGenerator::convertIndexExpression]. *)
Definition convertIndexExpression (offset : Z) (baseNode : ASTNode)
    (index : option ASTNode) : Gen (option Expression) :=
  base <-? rec baseNode ;;
  match index with
  | Some indexNode => convertIndex base indexNode
  | None =>
      match base with
      | TypeReference baseOffset oldType =>
          let newType := ArrayType (name oldType +++ "[]") oldType (-1) in
          ret (Some (TypeReference baseOffset newType))
      | _ =>
          error offset "'[]' must follow a type name" ;;
          ret None
      end
  end.

(** The loop of [convertCallExpression] over the arguments. *)
Fixpoint convertArguments (nodes : list ASTNode)
  : Gen (option (list Expression)) :=
  match nodes with
  | [] => ret (Some [])
  | n :: rest =>
      converted <-? rec n ;;
      arguments <-? convertArguments rest ;;
      ret (Some (converted :: arguments))
  end.

(** [IRGenerator::convertCallExpression]. *)
Definition convertCallExpression (offset : Z) (baseNode : ASTNode)
    (argumentNodes : list ASTNode) : Gen (option Expression) :=
  base <-? rec baseNode ;;
  arguments <-? convertArguments argumentNodes ;;
  call offset base arguments.

(** [IRGenerator::convertFieldExpression]. *)
Definition convertFieldExpression (offset : Z) (baseNode : ASTNode)
    (field : string) : Gen (option Expression) :=
  base <-? rec baseNode ;;
  let baseType := type_of base in
  if Type_eqb baseType fSkCaps_Type then getCap offset field
  else
    match base with
    | ExternalValueReference _ _ => convertField base field
    | _ =>
        match typeKind baseType with
        | kOther | kStruct => convertField base field
        | _ => convertSwizzle base field
        end
    end.

(** [IRGenerator::convertScopeExpression]. *)
Definition convertScopeExpression (offset : Z) (baseNode : ASTNode)
    (member : string) : Gen (option Expression) :=
  base <-? rec baseNode ;;
  match base with
  | TypeReference baseOffset type => convertTypeField baseOffset type member
  | _ =>
      error offset "'::' must follow a type name" ;;
      ret None
  end.

End ExpressionConverters.

(** [IRGenerator::convertExpression].  A node of any other kind is not an
    expression: the source returns null in a release build. *)
Fixpoint convertExpression (expr : ASTNode) : Gen (option Expression) :=
  match expr with
  | kBinary offset leftNode op rightNode =>
      convertBinaryExpression convertExpression offset leftNode op rightNode
  | kBool offset value => ret (Some (BoolLiteral_new offset value))
  | kCall offset base arguments =>
      convertCallExpression convertExpression offset base arguments
  | kField offset base field =>
      convertFieldExpression convertExpression offset base field
  | kFloat offset value => ret (Some (FloatLiteral_new offset value))
  | kIdentifier offset identifier => convertIdentifier offset identifier
  | kIndex offset base index =>
      convertIndexExpression convertExpression offset base index
  | kInt offset value => ret (Some (IntLiteral_new offset value))
  | kNull offset => ret (Some (NullLiteral_new offset))
  | kPostfix offset base op =>
      convertPostfixExpression convertExpression offset base op
  | kPrefix offset op base =>
      convertPrefixExpression convertExpression offset op base
  | kScope offset base member =>
      convertScopeExpression convertExpression offset base member
  | kTernary offset test ifTrue ifFalse =>
      convertTernaryExpression convertExpression offset test ifTrue ifFalse
  | _ => ret None
  end.

(** ** Declarations *)

(** Modelled from the spec: [SymbolTable::add] "fails (reports "already
    defined") if [name] exists in the current scope only (shadowing an outer
    scope is legal)"; the new symbol is not added then. *)
Definition SymbolTable_add (n : string) (offset : Z) (symbol : Symbol)
  : Gen unit :=
  table <- gets fSymbolTable ;;
  match table with
  | [] => ret tt
  | scope :: parent =>
      match lookupScope n scope with
      | Some _ => error offset ("symbol '" +++ n +++ "' was already defined")
      | None => modify (with_fSymbolTable (((n, symbol) :: scope) :: parent))
      end
  end.

Definition Var_with_fModifiers (m : Modifiers) (v : Var) : Var :=
  match v with
  | mkVar offset _ n type storage initial => mkVar offset m n type storage initial
  end.

Fixpoint setModifiersInScope (n : string) (m : Modifiers)
    (scope : list (string * Symbol)) : list (string * Symbol) :=
  match scope with
  | [] => []
  | (k, s) :: rest =>
      if String.eqb k n then
        match s with
        | Symbol_Variable v => (k, Symbol_Variable (Var_with_fModifiers m v)) :: rest
        | _ => (k, s) :: rest
        end
      else (k, s) :: setModifiersInScope n m rest
  end.

(** The assignment to [fModifiers] of the variable that a name resolves to. *)
Fixpoint SymbolTable_setModifiers (n : string) (m : Modifiers)
    (table : SymbolTable) : SymbolTable :=
  match table with
  | [] => []
  | scope :: parent =>
      match lookupScope n scope with
      | Some _ => setModifiersInScope n m scope :: parent
      | None => scope :: SymbolTable_setModifiers n m parent
      end
  end.

(** [IRGenerator::pushSymbolTable] and [IRGenerator::popSymbolTable]. *)
Definition pushSymbolTable : Gen unit :=
  modify (fun e => with_fSymbolTable ([] :: fSymbolTable e) e).

Definition popSymbolTable : Gen unit :=
  modify (fun e => with_fSymbolTable (tl (fSymbolTable e)) e).

(** [if (condition) { fErrors.error(offset, msg); }] *)
Definition errorIf (condition : bool) (offset : Z) (msg : string) : Gen unit :=
  if condition then error offset msg else ret tt.

(** The loop of [convertType] over the array sizes of the type node. *)
Fixpoint convertType_sizes (result : Ty) (sizes : list (option Z)) : Ty :=
  match sizes with
  | [] => result
  | size :: rest =>
      let n :=
        name result +++ "[" +++
        match size with
        | Some i => to_string i
        | None => ""
        end +++ "]" in
      (* [size.getInt()] is a [SKSL_INT]; the constructor of [Type] takes
         an [int] *)
      convertType_sizes
        (ArrayType n result
           match size with Some i => int32_t i | None => 0 end) rest
  end.

(** [IRGenerator::convertType]. *)
Definition convertType (type : TypeNode) (allowVoid : bool) : Gen (option Ty) :=
  let offset := TypeNode_fOffset type in
  let tdName := TypeData_fName type in
  let isArray := negb (Nat.eqb (List.length (TypeNode_sizes type)) 0) in
  table <- gets fSymbolTable ;;
  match SymbolTable_lookup tdName table with
  | Some (Symbol_Type found) =>
      result <-
        (if fIsNullable type then
           if Type_eqb found fFragmentProcessor_Type then
             errorIf isArray offset
               ("type '" +++ tdName +++ "' may not be used in " +++ "an array") ;;
             ret (NullableType (name found +++ "?") found)
           else
             error offset ("type '" +++ tdName +++ "' may not be nullable") ;;
             ret found
         else ret found) ;;
      if Type_eqb result fVoid_Type && negb allowVoid then
        error offset ("type '" +++ tdName +++ "' not allowed in this context") ;;
        ret None
      else if Type_eqb result fVoid_Type && isArray then
        error offset ("type '" +++ tdName +++ "' may not be used in an array") ;;
        ret None
      else ret (Some (convertType_sizes result (TypeNode_sizes type)))
  | _ =>
      error offset ("unknown type '" +++ tdName +++ "'") ;;
      ret None
  end.

(** The sequence of [CHECK(flag, name)] of [checkModifiers]. *)
Fixpoint checkModifiers_loop (offset : Z) (flags permitted : Z)
    (checks : list (Z * string)) : Gen unit :=
  match checks with
  | [] => ret tt (* SkASSERT(flags == 0) *)
  | (flag, n) :: rest =>
      if flags =? 0 then ret tt
      else if hasFlag flags flag then
        errorIf (negb (hasFlag permitted flag)) offset
          ("'" +++ n +++ "' is not permitted here") ;;
        checkModifiers_loop offset (Z.land flags (Z.lnot flag)) permitted rest
      else checkModifiers_loop offset flags permitted rest
  end.

(** [IRGenerator::checkModifiers]. *)
Definition checkModifiers (offset : Z) (modifiers : Modifiers) (permitted : Z)
  : Gen unit :=
  checkModifiers_loop offset (fFlags modifiers) permitted
    [ (kConst_Flag, "const"); (kIn_Flag, "in"); (kOut_Flag, "out");
      (kUniform_Flag, "uniform"); (kFlat_Flag, "flat");
      (kNoPerspective_Flag, "noperspective"); (kReadOnly_Flag, "readonly");
      (kWriteOnly_Flag, "writeonly"); (kCoherent_Flag, "coherent");
      (kVolatile_Flag, "volatile"); (kRestrict_Flag, "restrict");
      (kBuffer_Flag, "buffer"); (kHasSideEffects_Flag, "sk_has_side_effects");
      (kPLS_Flag, "__pixel_localEXT"); (kPLSIn_Flag, "__pixel_local_inEXT");
      (kPLSOut_Flag, "__pixel_local_outEXT"); (kVarying_Flag, "varying");
      (kInline_Flag, "inline") ].

(** The checks of [convertVarDeclarations] on the modifiers and the base
    type of a declaration; each reports an error and goes on. *)
Definition checkVarDeclarationModifiers (offset : Z) (modifiers : Modifiers)
    (baseType : Ty) (storage : Storage) : Gen unit :=
  let flags := fFlags modifiers in
  let layout := fLayout modifiers in
  programKind <- gets fKind ;;
  let pipelineStage := ProgramKind_eqb programKind kPipelineStage_Kind in
  errorIf (Type_eqb (nonnullable baseType) fFragmentProcessor_Type
           && negb (Storage_eqb storage kGlobal_Storage)) offset
    ("variables of type '" +++ displayName baseType +++ "' must be global") ;;
  (if negb (ProgramKind_eqb programKind kFragmentProcessor_Kind) then
     errorIf (hasFlag flags kIn_Flag
              && TypeKind_eqb (typeKind baseType) kMatrix) offset
       "'in' variables may not have matrix type" ;;
     errorIf (hasFlag flags kIn_Flag && hasFlag flags kUniform_Flag) offset
       "'in uniform' variables only permitted within fragment processors" ;;
     errorIf (negb (String.eqb (fWhen layout) "")) offset
       "'when' is only permitted within fragment processors" ;;
     errorIf (hasFlag (Layout_fFlags layout) kTracked_Flag) offset
       "'tracked' is only permitted within fragment processors" ;;
     errorIf (match fCType layout with
              | CType_kDefault => false
              | _ => true
              end) offset
       "'ctype' is only permitted within fragment processors" ;;
     errorIf (negb (fKey layout =? 0)) offset
       "'key' is only permitted within fragment processors"
   else ret tt) ;;
  (if pipelineStage then
     errorIf (hasFlag flags kIn_Flag
              && negb (Type_eqb (nonnullable baseType) fFragmentProcessor_Type))
       offset "'in' variables not permitted in runtime effects"
   else ret tt) ;;
  errorIf (negb (fKey layout =? 0) && hasFlag flags kUniform_Flag) offset
    "'key' is not permitted on 'uniform' variables" ;;
  (if negb (String.eqb (fMarker layout) "") then
     errorIf (negb pipelineStage) offset
       "'marker' is only permitted in runtime effects" ;;
     errorIf (negb (hasFlag flags kUniform_Flag)) offset
       "'marker' is only permitted on 'uniform' variables" ;;
     errorIf (negb (Type_eqb baseType fFloat4x4_Type)) offset
       "'marker' is only permitted on float4x4 variables"
   else ret tt) ;;
  (if hasFlag (Layout_fFlags layout) kSRGBUnpremul_Flag then
     errorIf (negb pipelineStage) offset
       "'srgb_unpremul' is only permitted in runtime effects" ;;
     errorIf (negb (hasFlag flags kUniform_Flag)) offset
       "'srgb_unpremul' is only permitted on 'uniform' variables" ;;
     let validColorXformType (t : Ty) :=
       TypeKind_eqb (typeKind t) kVector && isFloat (componentType t)
       && ((columns t =? 3) || (columns t =? 4)) in
     errorIf (negb (validColorXformType baseType)
              && negb (TypeKind_eqb (typeKind baseType) kArray
                       && validColorXformType (componentType baseType)))
       offset
       ("'srgb_unpremul' is only permitted on half3, half4, float3, or float4 " +++
        "variables")
   else ret tt) ;;
  (if hasFlag flags kVarying_Flag then
     errorIf (negb pipelineStage) offset
       "'varying' is only permitted in runtime effects" ;;
     errorIf (negb (isFloat baseType)
              && negb (TypeKind_eqb (typeKind baseType) kVector
                       && isFloat (componentType baseType))) offset
       "'varying' must be float scalar or vector"
   else ret tt) ;;
  let permitted :=
    if Storage_eqb storage kGlobal_Storage then
      fold_left Z.lor
        [ kIn_Flag; kOut_Flag; kUniform_Flag; kFlat_Flag; kVarying_Flag;
          kNoPerspective_Flag; kPLS_Flag; kPLSIn_Flag; kPLSOut_Flag;
          kRestrict_Flag; kVolatile_Flag; kReadOnly_Flag; kWriteOnly_Flag;
          kCoherent_Flag; kBuffer_Flag ] kConst_Flag
    else kConst_Flag in
  checkModifiers offset modifiers permitted.

(** The loop of [convertVarDeclarations] over the array sizes of one
    declarator: the type of the variable and the size expressions, or
    [None] where the source returns null.  [rec] is [convertExpression]. *)
Fixpoint convertArraySizes (rec : ASTNode -> Gen (option Expression))
    (type : Ty) (rawSizes : list ASTNode)
  : Gen (option (Ty * list (option Expression))) :=
  match rawSizes with
  | [] => ret (Some (type, []))
  | rawSize :: rest =>
      if ASTNode_present rawSize then
        converted <- rec rawSize ;;
        size <-? coerce converted fInt_Type ;;
        match size with
        | IntLiteral _ count _ =>
            if count <=? 0 then
              error (offset_of size) "array size must be positive" ;;
              ret None
            else
              let n := name type +++ "[" +++ to_string count +++ "]" in
              r <-? convertArraySizes rec (ArrayType n type (int32_t count)) rest ;;
              ret (Some (fst r, Some size :: snd r))
        | _ =>
            error (offset_of size) "array size must be specified" ;;
            ret None
        end
      else
        r <-? convertArraySizes rec
                (ArrayType (name type +++ "[]") type (-1)) rest ;;
        ret (Some (fst r, None :: snd r))
  end.

(** The body of the loop of [convertVarDeclarations] over the declarators:
    the declaration to add to [variables], if any, or [None] where the
    source returns null. *)
Definition convertVarDeclaration (rec : ASTNode -> Gen (option Expression))
    (modifiers : Modifiers) (baseType : Ty) (storage : Storage)
    (varOffset : Z) (varName : string) (rawSizes : list ASTNode)
    (rawValue : option ASTNode) : Gen (option (option VarDeclaration)) :=
  programKind <- gets fKind ;;
  errorIf ((fLocation (fLayout modifiers) =? 0)
           && (fIndex (fLayout modifiers) =? 0)
           && hasFlag (fFlags modifiers) kOut_Flag
           && ProgramKind_eqb programKind kFragment_Kind
           && negb (String.eqb varName "sk_FragColor")) varOffset
    "out location=0, index=0 is reserved for sk_FragColor" ;;
  sized <-? convertArraySizes rec baseType rawSizes ;;
  let type := fst sized in
  let sizes := snd sized in
  (if String.eqb varName RTADJUST_NAME then
     (* SkASSERT(!fRTAdjust); SkASSERT(var->type() == *fContext.fFloat4_Type) *)
     modify (with_fRTAdjust
               (Some (mkVar varOffset modifiers varName type storage None)))
   else ret tt) ;;
  value <-?
    match rawValue with
    | Some valueNode =>
        converted <-? rec valueNode ;;
        coerced <-? coerce (Some converted) type ;;
        ret (Some (Some coerced))
    | None => ret (Some None)
    end ;;
  let var := mkVar varOffset modifiers varName type storage value in
  (if String.eqb varName RTADJUST_NAME then modify (with_fRTAdjust (Some var))
   else ret tt) ;;
  table <- gets fSymbolTable ;;
  let isGlobal := Storage_eqb storage kGlobal_Storage in
  match SymbolTable_lookup varName table with
  | Some symbol =>
      if isGlobal && String.eqb varName "sk_FragColor" then
        (* Already defined, ignore. *)
        ret (Some None)
      else
        match symbol with
        | Symbol_Variable existing =>
            if isGlobal && (fBuiltin (fLayout (Var_fModifiers existing)) >=? 0)
            then
              (* Already defined, just update the modifiers. *)
              modify (fun e =>
                with_fSymbolTable
                  (SymbolTable_setModifiers varName modifiers (fSymbolTable e)) e) ;;
              ret (Some None)
            else
              SymbolTable_add varName varOffset (Symbol_Variable var) ;;
              ret (Some (Some {| fVar := var; fSizes := sizes;
                                 VarDeclaration_fValue := value |}))
        | _ =>
            SymbolTable_add varName varOffset (Symbol_Variable var) ;;
            ret (Some (Some {| fVar := var; fSizes := sizes;
                               VarDeclaration_fValue := value |}))
        end
  | None =>
      SymbolTable_add varName varOffset (Symbol_Variable var) ;;
      ret (Some (Some {| fVar := var; fSizes := sizes;
                         VarDeclaration_fValue := value |}))
  end.

(** The loop of [convertVarDeclarations] over the declarators. *)
Fixpoint convertVarDeclarations_loop (rec : ASTNode -> Gen (option Expression))
    (modifiers : Modifiers) (baseType : Ty) (storage : Storage)
    (declarations : list ASTNode) : Gen (option (list VarDeclaration)) :=
  match declarations with
  | [] => ret (Some [])
  | kVarDeclaration varOffset varName rawSizes rawValue :: rest =>
      declared <-? convertVarDeclaration rec modifiers baseType storage
                     varOffset varName rawSizes rawValue ;;
      variables <-? convertVarDeclarations_loop rec modifiers baseType storage
                      rest ;;
      ret (Some (match declared with
                 | Some declaration => declaration :: variables
                 | None => variables
                 end))
  | _ :: _ => ret None (* a child of a declarations node is a declarator *)
  end.

(** [IRGenerator::convertVarDeclarations], on the offset, the modifiers, the
    type node and the declarators of the declarations node. *)
Definition convertVarDeclarations (offset : Z) (modifiers : Modifiers)
    (rawType : TypeNode) (declarations : list ASTNode) (storage : Storage)
  : Gen (option VarDeclarations) :=
  baseType <-? convertType rawType false ;;
  checkVarDeclarationModifiers offset modifiers baseType storage ;;
  variables <-? convertVarDeclarations_loop convertExpression modifiers
                  baseType storage declarations ;;
  ret (Some {| VarDeclarations_fOffset := offset; fBaseType := baseType;
               fVars := variables |}).

(** ** Statements *)

(** The generator: the members above and the two nesting counters.
    [fLoopLevel] and [fSwitchLevel] are written by the guards
    [AutoLoopLevel] and [AutoSwitchLevel] and read by [convertBreak] and
    [convertContinue]; nothing else in the source mentions them. *)
Record IRGenerator : Type := {
  env : Env;
  fLoopLevel : Z;
  fSwitchLevel : Z
}.

(** A method of the generator that may use the nesting counters. *)
Definition Conv (A : Type) : Type := State IRGenerator A.

(** A call to a method that does not use the counters. *)
Definition liftGen {A : Type} (m : Gen A) : Conv A :=
  fun g =>
    let (a, e) := m (env g) in
    (a, {| env := e; fLoopLevel := fLoopLevel g;
           fSwitchLevel := fSwitchLevel g |}).

(** [AutoSymbolTable]: [body] runs between the constructor and the
    destructor of the guard. *)
Definition AutoSymbolTable {A : Type} (body : Conv A) : Conv A :=
  liftGen pushSymbolTable ;;
  result <- body ;;
  liftGen popSymbolTable ;;
  ret result.

(** [AutoLoopLevel]. *)
Definition AutoLoopLevel {A : Type} (body : Conv A) : Conv A :=
  modify (fun g => {| env := env g; fLoopLevel := fLoopLevel g + 1;
                      fSwitchLevel := fSwitchLevel g |}) ;;
  result <- body ;;
  modify (fun g => {| env := env g; fLoopLevel := fLoopLevel g - 1;
                      fSwitchLevel := fSwitchLevel g |}) ;;
  ret result.

(** [AutoSwitchLevel]. *)
Definition AutoSwitchLevel {A : Type} (body : Conv A) : Conv A :=
  modify (fun g => {| env := env g; fLoopLevel := fLoopLevel g;
                      fSwitchLevel := fSwitchLevel g + 1 |}) ;;
  result <- body ;;
  modify (fun g => {| env := env g; fLoopLevel := fLoopLevel g;
                      fSwitchLevel := fSwitchLevel g - 1 |}) ;;
  ret result.

(** The walk of [ensure_scoped_blocks] down the nested blocks: whether the
    outermost block is to become a scope. *)
Fixpoint needsScope (stmt : Statement) : bool :=
  match stmt with
  | Block _ statements isScope =>
      if isScope then
        (* We found an explicit scope; all is well. *)
        false
      else
        match statements with
        | [nested] =>
            match nested with
            | Block _ _ _ =>
                (* We have to go deeper. *)
                needsScope nested
            | _ =>
                (* exactly one thing inside, and it's not another block *)
                false
            end
        | _ =>
            (* multiple (or zero) statements, but no scope *)
            true
        end
  | _ => false
  end.

(** [ensure_scoped_blocks]; the source sets [fIsScope] in place. *)
Definition ensure_scoped_blocks (stmt : Statement) : Statement :=
  match stmt with
  | Block offset statements isScope =>
      if needsScope stmt then Block offset statements true else stmt
  | _ => stmt
  end.

(** [IRGenerator::getNormalizeSkPositionCode]:
    [sk_Position = float4(sk_Position.xy * rtAdjust.xz +
    sk_Position.ww * rtAdjust.yw, 0, sk_Position.w)].  The source asserts
    that [fSkPerVertex] and [fRTAdjust] are set. *)
Definition getNormalizeSkPositionCode : Gen (option Statement) :=
  skPerVertex <- gets fSkPerVertex ;;
  rtAdjust <- gets fRTAdjust ;;
  rtAdjustInterfaceBlock <- gets fRTAdjustInterfaceBlock ;;
  rtAdjustFieldIndex <- gets fRTAdjustFieldIndex ;;
  match skPerVertex, rtAdjust with
  | Some perVertex, Some adjust =>
      let REF (var : Var) := VariableReference (-1) var kRead_RefKind in
      let WREF (var : Var) := VariableReference (-1) var kWrite_RefKind in
      let FIELD (var : Var) (idx : Z) :=
        FieldAccess (REF var) idx kAnonymousInterfaceBlock_OwnerKind in
      let POS :=
        FieldAccess (WREF perVertex) 0 kAnonymousInterfaceBlock_OwnerKind in
      let ADJUST :=
        match rtAdjustInterfaceBlock with
        | Some block => FIELD block rtAdjustFieldIndex
        | None => REF adjust
        end in
      let OP (l : Expression) (op : TokenKind) (r : Expression) :=
        BinaryExpression (-1) l op r fFloat2_Type in
      let children :=
        [ OP (OP (Swizzle POS [0; 1]) TK_STAR (Swizzle ADJUST [0; 2]))
             TK_PLUS
             (OP (Swizzle POS [3; 3]) TK_STAR (Swizzle ADJUST [1; 3]));
          FloatLiteral_new (-1) Fzero;
          Swizzle POS [3] ] in
      ret (Some (ExpressionStatement
                   (OP POS TK_EQ (Constructor (-1) fFloat4_Type children))))
  | _, _ => ret None
  end.

(** [IRGenerator::convertVarDeclarationStatement]. *)
Definition convertVarDeclarationStatement (offset : Z) (modifiers : Modifiers)
    (rawType : TypeNode) (declarations : list ASTNode)
  : Gen (option Statement) :=
  decl <-? convertVarDeclarations offset modifiers rawType declarations
             kLocal_Storage ;;
  ret (Some (VarDeclarationsStatement decl)).

(** [IRGenerator::convertExpressionStatement]. *)
Definition convertExpressionStatement (s : ASTNode) : Gen (option Statement) :=
  e <-? convertExpression s ;;
  ret (Some (ExpressionStatement e)).

(** [IRGenerator::convertReturn].  The source asserts that
    [fCurrentFunction] is set. *)
Definition convertReturn (offset : Z) (value : option ASTNode)
  : Gen (option Statement) :=
  currentFunction <- gets fCurrentFunction ;;
  match currentFunction with
  | None => ret None
  | Some function =>
      match value with
      | Some valueNode =>
          result <-? convertExpression valueNode ;;
          if Type_eqb (fReturnType function) fVoid_Type then
            error (offset_of result)
              "may not return a value from a void function" ;;
            ret None
          else
            result' <-? coerce (Some result) (fReturnType function) ;;
            ret (Some (ReturnStatement (offset_of result') (Some result')))
      | None =>
          errorIf (negb (Type_eqb (fReturnType function) fVoid_Type)) offset
            ("expected function to return '" +++
             displayName (fReturnType function) +++ "'") ;;
          ret (Some (ReturnStatement offset None))
      end
  end.

(** [IRGenerator::convertBreak]. *)
Definition convertBreak (offset : Z) : Conv (option Statement) :=
  loopLevel <- gets fLoopLevel ;;
  switchLevel <- gets fSwitchLevel ;;
  if (loopLevel >? 0) || (switchLevel >? 0) then
    ret (Some (BreakStatement offset))
  else
    liftGen (error offset "break statement must be inside a loop or switch") ;;
    ret None.

(** [IRGenerator::convertContinue]. *)
Definition convertContinue (offset : Z) : Conv (option Statement) :=
  loopLevel <- gets fLoopLevel ;;
  if loopLevel >? 0 then ret (Some (ContinueStatement offset))
  else
    liftGen (error offset "continue statement must be inside a loop") ;;
    ret None.

(** The control-flow nesting state: the loop level and the switch level. *)
Definition levels (g : IRGenerator) : Z * Z := (fLoopLevel g, fSwitchLevel g).

(** The generator [g] after [fErrors.error(offset, msg)]. *)
Definition refused (offset : Z) (msg : string) (g : IRGenerator)
  : IRGenerator :=
  {| env := reported offset msg (env g); fLoopLevel := fLoopLevel g;
     fSwitchLevel := fSwitchLevel g |}.

(** [IRGenerator::convertDiscard]. *)
Definition convertDiscard (offset : Z) : Conv (option Statement) :=
  ret (Some (DiscardStatement offset)).

(** Where the source dereferences a null pointer, the C++ standard sets no
    outcome and the call does not return.  The model takes what happens
    there as a parameter: nothing is known of it, and a theorem speaks of
    such a run only if it holds whatever happens. *)
Class UndefinedBehaviour : Type := {
  nullDereference : Conv (option Statement)
}.

Context {undefined : UndefinedBehaviour}.

(** The statement converters call [convertStatement] on the children of
    their node; they take it as [rec], and [convertStatement] below closes
    the recursion. *)
Section StatementConverters.

Variable rec : ASTNode -> Conv (option Statement).

(** The loop over the statements of a block or of a switch case. *)
Fixpoint convertStatements (children : list ASTNode)
  : Conv (option (list Statement)) :=
  match children with
  | [] => ret (Some [])
  | child :: rest =>
      statement <-? rec child ;;
      statements <-? convertStatements rest ;;
      ret (Some (statement :: statements))
  end.

(** [IRGenerator::convertBlock]. *)
Definition convertBlock (offset : Z) (children : list ASTNode)
  : Conv (option Statement) :=
  AutoSymbolTable
    (statements <-? convertStatements children ;;
     ret (Some (Block offset statements true))).

(** [IRGenerator::convertIf]. *)
Definition convertIf (offset : Z) (isStatic : bool) (testNode ifTrueNode : ASTNode)
    (ifFalseNode : option ASTNode) : Conv (option Statement) :=
  test <-? liftGen (converted <- convertExpression testNode ;;
                    coerce converted fBool_Type) ;;
  ifTrue <-? rec ifTrueNode ;;
  let ifTrue := ensure_scoped_blocks ifTrue in
  ifFalse <-?
    match ifFalseNode with
    | Some node =>
        ifFalse <-? rec node ;;
        ret (Some (Some (ensure_scoped_blocks ifFalse)))
    | None => ret (Some None)
    end ;;
  match test with
  | BoolLiteral _ value _ =>
      (* static boolean value, fold down to a single branch *)
      if value then ret (Some ifTrue)
      else
        match ifFalse with
        | Some ifFalse => ret (Some ifFalse)
        | None =>
            (* False & no else clause. Not an error, so don't return null! *)
            ret (Some Nop)
        end
  | _ => ret (Some (IfStatement offset isStatic test ifTrue ifFalse))
  end.

(** [IRGenerator::convertFor]. *)
Definition convertFor (offset : Z) (initializerNode testNode nextNode
    statementNode : ASTNode) : Conv (option Statement) :=
  AutoLoopLevel (AutoSymbolTable
    (initializer <-?
       (if ASTNode_present initializerNode then
          initializer <-? rec initializerNode ;;
          ret (Some (Some initializer))
        else ret (Some None)) ;;
     test <-?
       (if ASTNode_present testNode then
          test <-? liftGen (AutoDisableInline false
                              (converted <- convertExpression testNode ;;
                               coerce converted fBool_Type)) ;;
          ret (Some (Some test))
        else ret (Some None)) ;;
     next <-?
       (if ASTNode_present nextNode then
          next <-? liftGen (AutoDisableInline false
                              (convertExpression nextNode)) ;;
          ret (Some (Some next))
        else ret (Some None)) ;;
     statement <-? rec statementNode ;;
     ret (Some (ForStatement offset initializer test next
                  (ensure_scoped_blocks statement))))).

(** [IRGenerator::convertWhile]. *)
Definition convertWhile (offset : Z) (testNode statementNode : ASTNode)
  : Conv (option Statement) :=
  AutoLoopLevel
    (test <-? liftGen (AutoDisableInline false
                         (converted <- convertExpression testNode ;;
                          coerce converted fBool_Type)) ;;
     statement <-? rec statementNode ;;
     ret (Some (WhileStatement offset test (ensure_scoped_blocks statement)))).

(** [IRGenerator::convertDo]. *)
Definition convertDo (offset : Z) (statementNode testNode : ASTNode)
  : Conv (option Statement) :=
  AutoLoopLevel
    (statement <-? rec statementNode ;;
     test <-? liftGen (AutoDisableInline false
                         (converted <- convertExpression testNode ;;
                          coerce converted fBool_Type)) ;;
     ret (Some (DoStatement offset (ensure_scoped_blocks statement) test))).

(** The body of the loop of [convertSwitch] over the cases: the value of a
    case, checked against the values of the cases before it. *)
Definition convertCaseValue (valueType : Ty) (caseValues : list Z)
    (valueNode : ASTNode) : Gen (option (option Expression * list Z)) :=
  if ASTNode_present valueNode then
    converted <-? convertExpression valueNode ;;
    caseValue <-? coerce (Some converted) valueType ;;
    match getConstantInt caseValue with
    | None =>
        error (offset_of caseValue) "case value must be a constant integer" ;;
        ret None
    | Some v =>
        errorIf (existsb (Z.eqb (int32_t v)) caseValues) (offset_of caseValue)
          "duplicate case value" ;;
        ret (Some (Some caseValue, int32_t v :: caseValues))
    end
  else ret (Some (None, caseValues)).

(** The loop of [convertSwitch] over the cases. *)
Fixpoint convertCases (valueType : Ty) (caseValues : list Z)
    (caseNodes : list ASTNode) : Conv (option (list SwitchCase)) :=
  match caseNodes with
  | [] => ret (Some [])
  | kSwitchCase caseOffset valueNode statementNodes :: rest =>
      r <-? liftGen (convertCaseValue valueType caseValues valueNode) ;;
      statements <-? convertStatements statementNodes ;;
      cases <-? convertCases valueType (snd r) rest ;;
      ret (Some (mkSwitchCase caseOffset (fst r) statements :: cases))
  | _ :: _ => ret None (* SkASSERT(c.fKind == ASTNode::Kind::kSwitchCase) *)
  end.

(** [IRGenerator::convertSwitch]. *)
Definition convertSwitch (offset : Z) (isStatic : bool) (valueNode : ASTNode)
    (caseNodes : list ASTNode) : Conv (option Statement) :=
  AutoSwitchLevel
    (value <-? liftGen (convertExpression valueNode) ;;
     value' <-?
       (if negb (Type_eqb (type_of value) fUInt_Type)
           && negb (TypeKind_eqb (typeKind (type_of value)) kEnum) then
          liftGen (coerce (Some value) fInt_Type)
        else ret (Some value)) ;;
     AutoSymbolTable
       (cases <-? convertCases (type_of value') [] caseNodes ;;
        ret (Some (SwitchStatement offset isStatic value' cases)))).

Definition isEmitVertex (e : Expression) : bool :=
  match e with
  | FunctionCall _ _ function _ =>
      FunctionDeclaration_fBuiltin function
      && String.eqb (FunctionDeclaration_fName function) "EmitVertex"
  | _ => false
  end.

(** [IRGenerator::convertSingleStatement]. *)
Definition convertSingleStatement (statement : ASTNode)
  : Conv (option Statement) :=
  match statement with
  | kBlock offset children => convertBlock offset children
  | kVarDeclarations offset modifiers type declarations =>
      liftGen (convertVarDeclarationStatement offset modifiers type declarations)
  | kIf offset isStatic test ifTrue ifFalse =>
      convertIf offset isStatic test ifTrue ifFalse
  | kFor offset initializer test next body =>
      convertFor offset initializer test next body
  | kWhile offset test body => convertWhile offset test body
  | kDo offset body test => convertDo offset body test
  | kSwitch offset isStatic value cases =>
      convertSwitch offset isStatic value cases
  | kReturn offset value => liftGen (convertReturn offset value)
  | kBreak offset => convertBreak offset
  | kContinue offset => convertContinue offset
  | kDiscard offset => convertDiscard offset
  | _ =>
      (* it's an expression *)
      result <- liftGen (convertExpressionStatement statement) ;;
      rtAdjust <- liftGen (gets fRTAdjust) ;;
      programKind <- liftGen (gets fKind) ;;
      match rtAdjust, programKind with
      | Some _, kGeometry_Kind =>
          match result with
          | Some (ExpressionStatement expr) =>
              if isEmitVertex expr then
                normalize <- liftGen getNormalizeSkPositionCode ;;
                ret (Some (Block (ASTNode_fOffset statement)
                             (match normalize with
                              | Some n => [n]
                              | None => []
                              end ++ [ExpressionStatement expr])
                             true))
              else ret result
          | Some _ =>
              (* SkASSERT(result->kind() == Statement::Kind::kExpression) *)
              ret result
          | None =>
              (* [*result->as<ExpressionStatement>().fExpression] with
                 [result] null: there is no test of [result] before it *)
              nullDereference
          end
      | _, _ => ret result
      end
  end.

(** The body of [IRGenerator::convertStatement]. *)
Definition convertStatement_body (statement : ASTNode)
  : Conv (option Statement) :=
  oldExtraStatements <- liftGen (gets fExtraStatements) ;;
  liftGen (modify (with_fExtraStatements [])) ;;
  result <- convertSingleStatement statement ;;
  extraStatements <- liftGen (gets fExtraStatements) ;;
  liftGen (modify (with_fExtraStatements oldExtraStatements)) ;;
  match result with
  | None => ret None
  | Some result =>
      match extraStatements with
      | [] => ret (Some result)
      | _ :: _ => ret (Some (Block (-1) (extraStatements ++ [result]) false))
      end
  end.

End StatementConverters.

(** [IRGenerator::convertStatement]. *)
Fixpoint convertStatement (statement : ASTNode) : Conv (option Statement) :=
  convertStatement_body convertStatement statement.



(** ** Outcomes, for the statements of Part III *)

(** The outcome of a fold in the state [e]: either the state is left as it
    was, or the fold yields null after one error at [offset], which is one
    of the three that [constantFold] reports. *)
Definition foldsOrReports (m : Gen (option Expression)) (offset : Z) (e : Env)
  : Prop :=
  (exists result, m e = (result, e))
  \/ (exists msg,
        m e = (None, reported offset msg e)
        /\ (msg = "division by zero" \/ msg = "arithmetic overflow"
            \/ msg = "shift value out of range")).

(** The reference kinds of the variable references that an assignment to
    [e] writes through: those under the field accesses, swizzles, indexings
    and ternaries that [setRefKind] walks down. *)
Fixpoint targetRefKinds (e : Expression) : list RefKind :=
  match e with
  | VariableReference _ _ refKind => [refKind]
  | FieldAccess base _ _ | Swizzle base _ | IndexExpression base _ =>
      targetRefKinds base
  | TernaryExpression _ _ ifTrue ifFalse =>
      targetRefKinds ifTrue ++ targetRefKinds ifFalse
  | _ => []
  end.

(** The flags that [checkModifiers] checks and their names, in the order of
    its [CHECK] lines. *)
Definition modifierNames : list (Z * string) :=
  [ (kConst_Flag, "const"); (kIn_Flag, "in"); (kOut_Flag, "out");
    (kUniform_Flag, "uniform"); (kFlat_Flag, "flat");
    (kNoPerspective_Flag, "noperspective"); (kReadOnly_Flag, "readonly");
    (kWriteOnly_Flag, "writeonly"); (kCoherent_Flag, "coherent");
    (kVolatile_Flag, "volatile"); (kRestrict_Flag, "restrict");
    (kBuffer_Flag, "buffer"); (kHasSideEffects_Flag, "sk_has_side_effects");
    (kPLS_Flag, "__pixel_localEXT"); (kPLSIn_Flag, "__pixel_local_inEXT");
    (kPLSOut_Flag, "__pixel_local_outEXT"); (kVarying_Flag, "varying");
    (kInline_Flag, "inline") ].

(** No two of the flags share a bit. *)
Definition flagsDisjoint (checks : list (Z * string)) : Prop :=
  ForallOrdPairs (fun a b => Z.land (fst a) (fst b) = 0) checks.

(** The modifiers among [checks] that are set in [flags] and not permitted. *)
Definition forbiddenModifiers (flags permitted : Z)
    (checks : list (Z * string)) : list (Z * string) :=
  filter (fun c => hasFlag flags (fst c) && negb (hasFlag permitted (fst c)))
    checks.

(** The error that [checkModifiers] reports for a modifier. *)
Definition notPermitted (offset : Z) (c : Z * string) : Z * string :=
  (offset, "'" +++ snd c +++ "' is not permitted here").

(** ** Frames, for the statements of Part III *)

(** A method of the generator keeps the relation [R] when the state it
    leaves is related to the state it was called in. *)
Definition frames (R : Env -> Env -> Prop) {A : Type} (m : Gen A) : Prop :=
  forall e, R e (snd (m e)).

(** The functions of the generator that the model does not define keep
    [R]. *)
Definition collaboratorsFrame (R : Env -> Env -> Prop) : Prop :=
  (forall offset ctor arguments, frames R (coerce_call offset ctor arguments))
  /\ (forall offset type arguments,
        frames R (convertConstructor offset type arguments))
  /\ (forall offset function arguments,
        frames R (callFunction offset function arguments))
  /\ (forall offset type field, frames R (convertTypeField offset type field)).

(** The errors reported in [e'] are those reported in [e], followed by
    more. *)
Definition extendsErrors (e e' : Env) : Prop :=
  exists more, fErrors e' = fErrors e ++ more.

(** The symbol table of [e'] is that of [e] with symbols added to its
    innermost scope, and to no other. *)
Definition extendsScope (e e' : Env) : Prop :=
  match fSymbolTable e with
  | [] => fSymbolTable e' = []
  | scope :: parent =>
      exists added, fSymbolTable e' = (added ++ scope) :: parent
  end.

(** The symbol table of [e'] is that of [e]. *)
Definition keepsSymbolTable (e e' : Env) : Prop :=
  fSymbolTable e' = fSymbolTable e.

(** The program kind of [e'] is that of [e]. *)
Definition keepsKind (e e' : Env) : Prop := fKind e' = fKind e.

(** [R], between two states of one program kind. *)
Definition sameKind (R : Env -> Env -> Prop) (e e' : Env) : Prop :=
  fKind e' = fKind e /\ R e e'.

(** [frames], for a method that may use the nesting counters: called in a
    program that is not a geometry program, the method keeps [R], the loop
    level and the switch level.  In a geometry program the conversion of an
    expression statement can dereference null, and nothing is said. *)
Definition framesConv (R : Env -> Env -> Prop) {A : Type} (m : Conv A)
  : Prop :=
  forall g,
    fKind (env g) <> kGeometry_Kind ->
    R (env g) (env (snd (m g))) /\ levels (snd (m g)) = levels g.

End IR.


(** * Part I, continued: tiling a large bitmap (src/gpu/TiledTextureUtils.cpp)

    The helpers that decide whether an image is drawn in tiles, and with
    which tile size.  They compute on [int] and [size_t]: an [int] result
    is written with its 32-bit wrap-around ([int32_t], as the target
    computes it; the C++ standard leaves signed overflow undefined) and a
    [size_t] result modulo [2 ^ SIZE_BITS]. *)

(** [SkIRect]: the four [int32_t] edges. *)
Record SkIRect : Set := {
  fLeft : Z;
  fTop : Z;
  fRight : Z;
  fBottom : Z
}.

(** [SkISize]; [width()] and [height()] return the members. *)
Record SkISize : Set := {
  fWidth : Z;
  fHeight : Z
}.

(** [static const int kBmpSmallTileSize = 1 << 10]. *)
Definition kBmpSmallTileSize : Z := Z.shiftl 1 10.

(** [sizeof(SkPMColor)]: "assume 32bit pixels". *)
Definition sizeof_SkPMColor : Z := 4.

(** What the helpers use of the target and of the classes that are not
    among the sources. *)
Class TilingPlatform : Type := {
  (** the width of [size_t] on the target *)
  SIZE_BITS : Z;
  (** [SkMatrix], [SkRect] and the scalar type of [SkPoint]: no function
      below looks inside a value of these types *)
  SkMatrix : Type;
  SkRect : Type;
  SkScalar : Type;
  (** [SkSafeMath::Mul] on two [size_t] *)
  SkSafeMath_Mul : Z -> Z -> Z;
  (** [determine_clipped_src_rect] maps the clip through the inverse of the
      matrices and intersects it with the image; its matrix and rectangle
      operations are not among the sources, so it is taken as given *)
  determine_clipped_src_rect :
    SkIRect -> SkMatrix -> SkMatrix -> SkISize -> option SkRect -> SkIRect;
  (** [SkIRect::outset(dx, dy)] *)
  SkIRect_outset : SkIRect -> Z -> Z -> SkIRect;
  (** [x - (float) k] on the scalars of a point *)
  SkScalar_minus_int : SkScalar -> Z -> SkScalar
}.

Section TiledTextureUtils.

Context {platform : TilingPlatform}.

(** The conversion to [size_t]. *)
Definition size_t (v : Z) : Z := v mod 2 ^ SIZE_BITS.

(** [SkPoint]. *)
Record SkPoint : Type := {
  fX : SkScalar;
  fY : SkScalar
}.

(** [get_tile_count]. *)
Definition get_tile_count (srcRect : SkIRect) (tileSize : Z) : Z :=
  let tilesX :=
    int32_t (int32_t (int32_t (Z.quot (fRight srcRect) tileSize)
                      - int32_t (Z.quot (fLeft srcRect) tileSize)) + 1) in
  let tilesY :=
    int32_t (int32_t (int32_t (Z.quot (fBottom srcRect) tileSize)
                      - int32_t (Z.quot (fTop srcRect) tileSize)) + 1) in
  (* We calculate expected tile count before we read the bitmap's pixels *)
  SkSafeMath_Mul (size_t tilesX) (size_t tilesY).

(** [determine_tile_size]. *)
Definition determine_tile_size (src : SkIRect) (maxTileSize : Z) : Z :=
  if maxTileSize <=? kBmpSmallTileSize then maxTileSize
  else
    let maxTileTotalTileSize := get_tile_count src maxTileSize in
    let smallTotalTileSize := get_tile_count src kBmpSmallTileSize in
    let maxTileTotalTileSize :=
      size_t (maxTileTotalTileSize
              * size_t (int32_t (maxTileSize * maxTileSize))) in
    let smallTotalTileSize :=
      size_t (smallTotalTileSize
              * size_t (int32_t (kBmpSmallTileSize * kBmpSmallTileSize))) in
    if maxTileTotalTileSize >? size_t (2 * smallTotalTileSize) then
      kBmpSmallTileSize
    else maxTileSize.

(** [TiledTextureUtils::ShouldTileImage].  The result is the returned
    [bool] with the values of [*tileSize] and [*clippedSubset] after the
    call; [tileSize0] and [clippedSubset0] are their values before it. *)
Definition ShouldTileImage (conservativeClipBounds : SkIRect)
    (imageSize : SkISize) (ctm srcToDst : SkMatrix) (src : option SkRect)
    (maxTileSize : Z) (cacheSize : Z) (tileSize0 : Z)
    (clippedSubset0 : SkIRect) : bool * (Z * SkIRect) :=
  (* if it's larger than the max tile size, then we have no choice but
     tiling. *)
  if (fWidth imageSize >? maxTileSize) || (fHeight imageSize >? maxTileSize)
  then
    let clippedSubset :=
      determine_clipped_src_rect conservativeClipBounds ctm srcToDst
        imageSize src in
    (true, (determine_tile_size clippedSubset maxTileSize, clippedSubset))
  else
    (* If the image would only produce 4 tiles of the smaller size, don't
       bother tiling it. *)
    let area := size_t (int32_t (fWidth imageSize * fHeight imageSize)) in
    if area <? size_t (int32_t (int32_t (4 * kBmpSmallTileSize)
                                * kBmpSmallTileSize))
    then (false, (tileSize0, clippedSubset0))
    else if cacheSize =? 0 then
      (* We don't have access to the cacheSize so we will just upload the
         entire image to be on the safe side and not tile. *)
      (false, (tileSize0, clippedSubset0))
    else
      (* An assumption here is that sw bitmap size is a good proxy for its
         size as a texture *)
      let bmpSize := size_t (area * sizeof_SkPMColor) in
      if bmpSize <? cacheSize / 2 then (false, (tileSize0, clippedSubset0))
      else
        (* Figure out how much of the src we will need based on the src rect
           and clipping. Reject if tiling memory savings would be < 50%. *)
        let clippedSubset :=
          determine_clipped_src_rect conservativeClipBounds ctm srcToDst
            imageSize src in
        let usedTileBytes :=
          size_t (size_t (size_t (get_tile_count clippedSubset kBmpSmallTileSize
                                  * size_t kBmpSmallTileSize)
                          * size_t kBmpSmallTileSize)
                  * sizeof_SkPMColor) in
        (size_t (usedTileBytes * 2) <? bmpSize,
         (kBmpSmallTileSize, clippedSubset)).

(** [TiledTextureUtils::ClampedOutsetWithOffset]: the values of [*iRect]
    and [*offset] after the call. *)
Definition ClampedOutsetWithOffset (iRect : SkIRect) (outset : Z)
    (offset : SkPoint) (clamp : SkIRect) : SkIRect * SkPoint :=
  let iRect := SkIRect_outset iRect outset outset in
  let leftClampDelta := int32_t (fLeft clamp - fLeft iRect) in
  let offsetX :=
    if leftClampDelta >? 0 then
      SkScalar_minus_int (fX offset) (int32_t (outset - leftClampDelta))
    else SkScalar_minus_int (fX offset) outset in
  let left := if leftClampDelta >? 0 then fLeft clamp else fLeft iRect in
  let topClampDelta := int32_t (fTop clamp - fTop iRect) in
  let offsetY :=
    if topClampDelta >? 0 then
      SkScalar_minus_int (fY offset) (int32_t (outset - topClampDelta))
    else SkScalar_minus_int (fY offset) outset in
  let top := if topClampDelta >? 0 then fTop clamp else fTop iRect in
  let right :=
    if fRight iRect >? fRight clamp then fRight clamp else fRight iRect in
  let bottom :=
    if fBottom iRect >? fBottom clamp then fBottom clamp else fBottom iRect in
  ({| fLeft := left; fTop := top; fRight := right; fBottom := bottom |},
   {| fX := offsetX; fY := offsetY |}).

End TiledTextureUtils.

(** * Part II: a concrete generator, for the examples

    The theorems of Part III hold for every implementation of the
    interfaces of Part I.  The examples run the generator on one
    implementation: a small type system in the shape the spec gives
    (scalars, vectors, matrices, arrays, nullable and opaque types),
    a cost of coercion given as a table, and collaborators that build the
    plain node. *)

(** Modelled from the spec: the variants of [Type] ("Void, Scalar, Vector,
    Matrix, Array, Struct, Nullable, Other/Opaque"), for the types that the
    examples use. *)
Inductive SkType : Set :=
| T_invalid | T_void | T_bool | T_int | T_uint | T_half | T_float
| T_intLiteral | T_floatLiteral | T_null | T_skCaps | T_fragmentProcessor
| T_vector (component : SkType) (n : Z)
| T_matrix (component : SkType) (c r : Z)
| T_array (n : string) (component : SkType) (size : Z)
| T_nullable (n : string) (base : SkType).

Fixpoint SkType_eqb (a b : SkType) : bool :=
  match a, b with
  | T_invalid, T_invalid | T_void, T_void | T_bool, T_bool | T_int, T_int
  | T_uint, T_uint | T_half, T_half | T_float, T_float
  | T_intLiteral, T_intLiteral | T_floatLiteral, T_floatLiteral
  | T_null, T_null | T_skCaps, T_skCaps
  | T_fragmentProcessor, T_fragmentProcessor => true
  | T_vector ca na, T_vector cb nb => SkType_eqb ca cb && (na =? nb)
  | T_matrix ca ca' ra, T_matrix cb cb' rb =>
      SkType_eqb ca cb && (ca' =? cb') && (ra =? rb)
  | T_array _ ca sa, T_array _ cb sb => SkType_eqb ca cb && (sa =? sb)
  | T_nullable _ ba, T_nullable _ bb => SkType_eqb ba bb
  | _, _ => false
  end.

Fixpoint SkType_name (t : SkType) : string :=
  match t with
  | T_invalid => "<INVALID>" | T_void => "void" | T_bool => "bool"
  | T_int => "int" | T_uint => "uint" | T_half => "half" | T_float => "float"
  | T_intLiteral => "$intLiteral" | T_floatLiteral => "$floatLiteral"
  | T_null => "null" | T_skCaps => "$sk_Caps"
  | T_fragmentProcessor => "fragmentProcessor"
  | T_vector c n => SkType_name c +++ to_string n
  | T_matrix c n m => SkType_name c +++ to_string n +++ "x" +++ to_string m
  | T_array n _ _ => n
  | T_nullable n _ => n
  end.

Definition SkType_typeKind (t : SkType) : TypeKind :=
  match t with
  | T_bool | T_int | T_uint | T_half | T_float | T_intLiteral
  | T_floatLiteral => kScalar
  | T_vector _ _ => kVector
  | T_matrix _ _ _ => kMatrix
  | T_array _ _ _ => kArray
  | T_nullable _ _ => kNullable
  | _ => kOther
  end.

Definition SkType_isInteger (t : SkType) : bool :=
  match t with
  | T_int | T_uint | T_intLiteral => true
  | _ => false
  end.

Definition SkType_isFloat (t : SkType) : bool :=
  match t with
  | T_half | T_float | T_floatLiteral => true
  | _ => false
  end.

Definition SkType_componentType (t : SkType) : SkType :=
  match t with
  | T_vector c _ | T_matrix c _ _ | T_array _ c _ | T_nullable _ c => c
  | _ => t
  end.

Definition SkType_columns (t : SkType) : Z :=
  match t with
  | T_vector _ n => n
  | T_matrix _ c _ => c
  | T_array _ _ size => size
  | _ => 1
  end.

Definition SkType_rows (t : SkType) : Z :=
  match t with
  | T_matrix _ _ r => r
  | _ => 1
  end.

Definition SkType_toCompound (t : SkType) (c r : Z) : SkType :=
  if (c =? 1) && (r =? 1) then t
  else if r =? 1 then T_vector t c
  else T_matrix t c r.

Definition SkType_indexType (t : SkType) : SkType :=
  match t with
  | T_array _ c _ => c
  | T_vector c _ => c
  | T_matrix c _ r => T_vector c r
  | _ => T_invalid
  end.

(** Modelled from the spec: "coercionCost(from, to) returns a non-negative
    integer ordering implicit conversions (0 = identical type; low cost =
    widening numeric/vector conversions; "infinite" = illegal)".  The cost
    between two different scalars is the table [scalarCost]; vectors and
    matrices of one shape cost what their components cost. *)
Fixpoint SkType_coercionCost (scalarCost : SkType -> SkType -> Z)
    (from to : SkType) : Z :=
  if SkType_eqb from to then 0
  else
    match from, to with
    | T_vector cf nf, T_vector ct nt =>
        if nf =? nt then SkType_coercionCost scalarCost cf ct else INT_MAX
    | T_matrix cf nf rf, T_matrix ct nt rt =>
        if (nf =? nt) && (rf =? rt) then SkType_coercionCost scalarCost cf ct
        else INT_MAX
    | _, _ =>
        match SkType_typeKind from, SkType_typeKind to with
        | kScalar, kScalar => scalarCost from to
        | _, _ => INT_MAX
        end
    end.

Definition tableTypes (scalarCost : SkType -> SkType -> Z)
  : TypeSystem SkType :=
  {| Type_eqb := SkType_eqb;
     name := SkType_name;
     displayName := SkType_name;
     typeKind := SkType_typeKind;
     isNumber := fun t => SkType_isInteger t || SkType_isFloat t;
     isFloat := SkType_isFloat;
     isInteger := SkType_isInteger;
     componentType := SkType_componentType;
     nonnullable :=
       fun t => match t with T_nullable _ b => b | _ => t end;
     columns := SkType_columns;
     rows := SkType_rows;
     fields := fun _ => [];
     toCompound := SkType_toCompound;
     coercionCost := SkType_coercionCost scalarCost;
     ArrayType := T_array;
     NullableType := T_nullable;
     indexType := SkType_indexType;
     fInvalid_Type := T_invalid;
     fVoid_Type := T_void;
     fBool_Type := T_bool;
     fInt_Type := T_int;
     fUInt_Type := T_uint;
     fFloat_Type := T_float;
     fFloat2_Type := T_vector T_float 2;
     fFloat4_Type := T_vector T_float 4;
     fFloat4x4_Type := T_matrix T_float 4 4;
     fFloatLiteral_Type := T_floatLiteral;
     fIntLiteral_Type := T_intLiteral;
     fNull_Type := T_null;
     fSkCaps_Type := T_skCaps;
     fFragmentProcessor_Type := T_fragmentProcessor;
     IntLiteral_Type := T_int;
     FloatLiteral_Type := T_floatLiteral |}.

(** The rank of a numeric type in the widening order. *)
Definition SkType_rank (t : SkType) : option Z :=
  match t with
  | T_intLiteral => Some 1
  | T_int | T_uint => Some 2
  | T_floatLiteral => Some 3
  | T_half => Some 4
  | T_float => Some 5
  | _ => None
  end.

(** A number widens to a number of higher rank, at the cost of the
    difference of the ranks; nothing else coerces. *)
Definition wideningCost (from to : SkType) : Z :=
  match SkType_rank from, SkType_rank to with
  | Some rf, Some rt => if rf <? rt then rt - rf else INT_MAX
  | _, _ => INT_MAX
  end.

(** The type system of most examples. *)
Definition wideningTypes : TypeSystem SkType := tableTypes wideningCost.

(** No example holds a floating-point value: one value stands for all. *)
Definition noFloats : FloatOps unit :=
  {| Fzero := tt;
     Fadd := fun _ _ => tt; Fsub := fun _ _ => tt; Fmul := fun _ _ => tt;
     Fdiv := fun _ _ => tt; Fneg := fun _ => tt;
     Feqb := fun _ _ => true; Fltb := fun _ _ => false;
     Fleb := fun _ _ => true; Fsingle := fun _ => tt |}.

Definition exampleSwizzles : SwizzleConstants :=
  {| SKSL_SWIZZLE_0 := -2;
     SKSL_SWIZZLE_1 := -1;
     SKSL_SWIZZLE_0_negative := eq_refl;
     SKSL_SWIZZLE_1_negative := eq_refl |}.

Definition exampleLayout : Layout :=
  {| Layout_fFlags := 0; fLocation := -1; fIndex := -1; fBuiltin := -1;
     fInvocations := -1; fMaxVertices := -1; fKey := 0;
     fCType := CType_kDefault; fWhen := ""; fMarker := "" |}.

(** The flags in the order of [checkModifiers], one bit each. *)
Definition exampleConstants : Constants :=
  {| kConst_Flag := 1; kIn_Flag := 2; kOut_Flag := 4; kUniform_Flag := 8;
     kFlat_Flag := 16; kNoPerspective_Flag := 32; kReadOnly_Flag := 64;
     kWriteOnly_Flag := 128; kCoherent_Flag := 256; kVolatile_Flag := 512;
     kRestrict_Flag := 1024; kBuffer_Flag := 2048;
     kHasSideEffects_Flag := 4096; kPLS_Flag := 8192; kPLSIn_Flag := 16384;
     kPLSOut_Flag := 32768; kVarying_Flag := 65536; kInline_Flag := 131072;
     kTracked_Flag := 1; kSRGBUnpremul_Flag := 2;
     SK_WIDTH_BUILTIN := 10011; SK_HEIGHT_BUILTIN := 10012;
     SK_FRAGCOORD_BUILTIN := 15;
     RTADJUST_NAME := "sk_RTAdjust";
     SKSL_STANDALONE := false;
     Layout_default := exampleLayout;
     Modifiers_default := {| fLayout := exampleLayout; fFlags := 0 |} |}.

(** The node methods of the examples: an expression costs what its type
    costs, and a function takes the declared types of its parameters. *)
Definition exampleNodes (types : TypeSystem SkType)
  : @NodeMethods SkType unit :=
  {| Expression_coercionCost :=
       fun e t => @coercionCost _ types (@type_of _ _ types e) t;
     determineFinalTypes :=
       fun f _ => Some (map (@Param_fType SkType) (fParameters f), fReturnType f);
     getFVecComponent := fun _ _ => tt;
     compareConstant := fun _ _ => false |}.

(** The collaborators of the examples build the node and report nothing. *)
Definition exampleCollaborators : @Collaborators SkType unit unit :=
  {| coerce_call :=
       fun offset ctor arguments =>
         match ctor with
         | TypeReference _ t => ret (Some (Constructor offset t arguments))
         | _ => ret None
         end;
     convertConstructor :=
       fun offset t arguments => ret (Some (Constructor offset t arguments));
     callFunction :=
       fun offset f arguments =>
         ret (Some (FunctionCall offset (fReturnType f) f arguments));
     convertTypeField := fun _ _ _ => ret None |}.

Definition exampleSettings : Settings :=
  {| fCaps := None; Settings_fFlipY := false; fInlineThreshold := 50 |}.

(** A generator at the start of a program: the symbol table holds the
    names of the scalar types, nothing is reported and both nesting
    counters are zero. *)
Definition exampleEnv : @Env SkType unit unit :=
  {| fKind := kFragment_Kind;
     fSettings := exampleSettings;
     fErrors := [];
     fSymbolTable :=
       [ [];
         [ ("int", Symbol_Type T_int); ("uint", Symbol_Type T_uint);
           ("float", Symbol_Type T_float); ("half", Symbol_Type T_half);
           ("bool", Symbol_Type T_bool); ("void", Symbol_Type T_void) ] ];
     fExtraStatements := [];
     fCanInline := true;
     fTmpSwizzleCounter := 0;
     fInputs := {| fRTWidth := false; fRTHeight := false;
                   Inputs_fFlipY := false |};
     fCapsMap := [];
     fFileSections := [];
     fCurrentFunction := None;
     fRTAdjust := None;
     fSkPerVertex := None;
     fRTAdjustInterfaceBlock := None;
     fRTAdjustFieldIndex := 0;
     fRest := tt |}.

Definition exampleGenerator : @IRGenerator SkType unit unit :=
  {| env := exampleEnv; fLoopLevel := 0; fSwitchLevel := 0 |}.

(** No example dereferences null; this instance closes their terms. *)
Definition exampleUndefined : @UndefinedBehaviour SkType unit unit :=
  {| nullDereference := ret None |}.

(** The node methods over the widening costs. *)
Definition wideningNodes : @NodeMethods SkType unit := exampleNodes wideningTypes.

Definition noModifiers : Modifiers := {| fLayout := exampleLayout; fFlags := 0 |}.

Definition constModifiers : Modifiers := {| fLayout := exampleLayout; fFlags := 1 |}.

(** [const int x = 5;] at global scope. *)
Definition variable_x : @Var SkType unit :=
  mkVar 0 constModifiers "x" T_int kGlobal_Storage
    (Some (IntLiteral 14 5 T_int)).

(** [float4 v;] at global scope. *)
Definition variable_v : @Var SkType unit :=
  mkVar 0 noModifiers "v" (T_vector T_float 4) kGlobal_Storage None.

(** The generator after the declaration of [x] and [v]. *)
Definition declaredEnv : @Env SkType unit unit :=
  with_fSymbolTable
    ([("v", Symbol_Variable variable_v); ("x", Symbol_Variable variable_x)]
     :: tl (fSymbolTable exampleEnv)) exampleEnv.

Definition declaredGenerator : @IRGenerator SkType unit unit :=
  {| env := declaredEnv; fLoopLevel := 0; fSwitchLevel := 0 |}.

Definition reference_x : @Expression SkType unit :=
  VariableReference 30 variable_x kRead_RefKind.

Definition reference_v : @Expression SkType unit :=
  VariableReference 40 variable_v kRead_RefKind.

(** The literals [7] and [1]. *)
Definition literal_7 : @Expression SkType unit := IntLiteral 0 7 T_int.

Definition literal_1 : @Expression SkType unit := IntLiteral 2 1 T_int.

(** [int arr[x];] *)
Definition declare_arr_x : @ASTNode unit :=
  kVarDeclarations 20 noModifiers
    {| TypeNode_fOffset := 20; TypeData_fName := "int"; fIsNullable := false;
       TypeNode_sizes := [] |}
    [kVarDeclaration 24 "arr" [kIdentifier 28 "x"] None].

(** [int arr[5];] and [int arr[-1];] *)
Definition declare_arr (size : @ASTNode unit) : @ASTNode unit :=
  kVarDeclarations 20 noModifiers
    {| TypeNode_fOffset := 20; TypeData_fName := "int"; fIsNullable := false;
       TypeNode_sizes := [] |}
    [kVarDeclaration 24 "arr" [size] None].

(** [x + 1], and the temporary that holds it for the swizzle of the
    statement [(x + 1).x0x;]. *)
Definition x_plus_1 : @Expression SkType unit :=
  BinaryExpression 2 (VariableReference 0 variable_x kRead_RefKind) TK_PLUS
    (IntLiteral 4 1 T_int) T_int.

Definition swizzle_temporary : @Var SkType unit :=
  mkVar 2 noModifiers "_tmpSwizzle0" T_int kLocal_Storage (Some x_plus_1).

Definition swizzled_statement : @ASTNode unit :=
  kField 7 (kBinary 2 (kIdentifier 0 "x") TK_PLUS (kInt 4 1)) "x0x".

(** The overloads [f(float)] and [f(int)]. *)
Definition f_float : @FunctionDeclaration SkType :=
  {| FunctionDeclaration_fName := "f";
     fParameters := [{| Param_fName := "a"; Param_fModifiers := noModifiers;
                        Param_fType := T_float |}];
     fReturnType := T_void; FunctionDeclaration_fBuiltin := false;
     fDefinition := true |}.

Definition f_int : @FunctionDeclaration SkType :=
  {| FunctionDeclaration_fName := "f";
     fParameters := [{| Param_fName := "a"; Param_fModifiers := noModifiers;
                        Param_fType := T_int |}];
     fReturnType := T_void; FunctionDeclaration_fBuiltin := false;
     fDefinition := true |}.


(** The type system [types] with the fields [fs] given to the opaque type
    [owner], as the type of an interface block has them. *)
Definition withFields (types : TypeSystem SkType) (owner : SkType)
    (fs : list (string * SkType)) : TypeSystem SkType :=
  {| Type_eqb := @Type_eqb _ types;
     name := @name _ types;
     displayName := @displayName _ types;
     typeKind := @typeKind _ types;
     isNumber := @isNumber _ types;
     isFloat := @isFloat _ types;
     isInteger := @isInteger _ types;
     componentType := @componentType _ types;
     nonnullable := @nonnullable _ types;
     columns := @columns _ types;
     rows := @rows _ types;
     fields := fun t => if SkType_eqb t owner then fs else @fields _ types t;
     toCompound := @toCompound _ types;
     coercionCost := @coercionCost _ types;
     ArrayType := @ArrayType _ types;
     NullableType := @NullableType _ types;
     indexType := @indexType _ types;
     fInvalid_Type := @fInvalid_Type _ types;
     fVoid_Type := @fVoid_Type _ types;
     fBool_Type := @fBool_Type _ types;
     fInt_Type := @fInt_Type _ types;
     fUInt_Type := @fUInt_Type _ types;
     fFloat_Type := @fFloat_Type _ types;
     fFloat2_Type := @fFloat2_Type _ types;
     fFloat4_Type := @fFloat4_Type _ types;
     fFloat4x4_Type := @fFloat4x4_Type _ types;
     fFloatLiteral_Type := @fFloatLiteral_Type _ types;
     fIntLiteral_Type := @fIntLiteral_Type _ types;
     fNull_Type := @fNull_Type _ types;
     fSkCaps_Type := @fSkCaps_Type _ types;
     fFragmentProcessor_Type := @fFragmentProcessor_Type _ types;
     IntLiteral_Type := @IntLiteral_Type _ types;
     FloatLiteral_Type := @FloatLiteral_Type _ types |}.

(** The opaque type of the examples with the fields [float4 color],
    [int count] and a second field named [count]. *)
Definition blockTypes : TypeSystem SkType :=
  withFields wideningTypes T_fragmentProcessor
    [ ("color", T_vector T_float 4); ("count", T_int); ("count", T_bool) ].

Definition blockNodes : @NodeMethods SkType unit := exampleNodes blockTypes.

(** A variable [block] of that type. *)
Definition reference_block : @Expression SkType unit :=
  VariableReference 50
    (mkVar 0 noModifiers "block" T_fragmentProcessor kGlobal_Storage None)
    kRead_RefKind.

(** The generator inside the body of the function [f(int)], which returns
    [void]. *)
Definition functionEnv : @Env SkType unit unit :=
  {| fKind := fKind exampleEnv;
     fSettings := fSettings exampleEnv;
     fErrors := fErrors exampleEnv;
     fSymbolTable := fSymbolTable exampleEnv;
     fExtraStatements := fExtraStatements exampleEnv;
     fCanInline := fCanInline exampleEnv;
     fTmpSwizzleCounter := fTmpSwizzleCounter exampleEnv;
     fInputs := fInputs exampleEnv;
     fCapsMap := fCapsMap exampleEnv;
     fFileSections := fFileSections exampleEnv;
     fCurrentFunction := Some f_int;
     fRTAdjust := fRTAdjust exampleEnv;
     fSkPerVertex := fSkPerVertex exampleEnv;
     fRTAdjustInterfaceBlock := fRTAdjustInterfaceBlock exampleEnv;
     fRTAdjustFieldIndex := fRTAdjustFieldIndex exampleEnv;
     fRest := fRest exampleEnv |}.

(** A target with a [size_t] of 64 bits, integer scalars, and a clip that
    leaves the whole image. *)
Definition examplePlatform : TilingPlatform :=
  {| SIZE_BITS := 64;
     SkMatrix := unit;
     SkRect := unit;
     SkScalar := Z;
     SkSafeMath_Mul := Z.mul;
     determine_clipped_src_rect :=
       fun _ _ _ imageSize _ =>
         {| fLeft := 0; fTop := 0; fRight := fWidth imageSize;
            fBottom := fHeight imageSize |};
     SkIRect_outset :=
       fun r dx dy =>
         {| fLeft := fLeft r - dx; fTop := fTop r - dy;
            fRight := fRight r + dx; fBottom := fBottom r + dy |};
     SkScalar_minus_int := Z.sub |}.

(** * Part III: properties of the generator *)

Section Properties.

Context {Ty F Rest : Type}.
Context {types : TypeSystem Ty} {floats : FloatOps F}.
Context {swizzles : SwizzleConstants} {constants : Constants}.
Context {nodes : @NodeMethods Ty F}.
Context {collaborators : @Collaborators Ty F Rest}.
Context {undefined : @UndefinedBehaviour Ty F Rest}.

Local Notation Expression := (@Expression Ty F).
Local Notation Env := (@Env Ty F Rest).
Local Notation IRGenerator := (@IRGenerator Ty F Rest).
Local Notation Gen := (@Gen Ty F Rest).
Local Notation Conv := (@Conv Ty F Rest).
Local Notation ASTNode := (@ASTNode F).
Local Notation Statement := (@Statement Ty F).
Local Notation FunctionDeclaration := (@FunctionDeclaration Ty).
Local Notation Var := (@Var Ty F).

(** ** Constant folding *)

Lemma uint32_t_add (a b : Z) :
  uint32_t (uint32_t a + uint32_t b) = (a + b) mod 2 ^ 32.
Proof.
  unfold uint32_t. change 4294967296 with (2 ^ 32).
  now rewrite <- Z.add_mod by lia.
Qed.

Lemma uint32_t_sub (a b : Z) :
  uint32_t (uint32_t a - uint32_t b) = (a - b) mod 2 ^ 32.
Proof.
  unfold uint32_t. change 4294967296 with (2 ^ 32).
  now rewrite <- Zminus_mod.
Qed.

Lemma uint32_t_mul (a b : Z) :
  uint32_t (uint32_t a * uint32_t b) = (a * b) mod 2 ^ 32.
Proof.
  unfold uint32_t. change 4294967296 with (2 ^ 32).
  now rewrite <- Z.mul_mod by lia.
Qed.

(** C1. Folding [a + b], [a - b] or [a * b] on two integer literals
    yields an integer literal whose value is the result of the operation
    modulo 2^32 (unsigned 32-bit wrap-around) and reports no error: the
    state of the generator is unchanged.  In particular [2147483647 + 1]
    folds to the literal [2147483648]. *)
Theorem constantFold_int_wraparound
    (offset a : Z) (tl : Ty) (rightOffset b : Z) (tr : Ty) (e : Env) :
  constantFold (IntLiteral offset a tl) TK_PLUS (IntLiteral rightOffset b tr) e
  = (Some (IntLiteral_new offset ((a + b) mod 2 ^ 32)), e)
  /\ constantFold (IntLiteral offset a tl) TK_MINUS
       (IntLiteral rightOffset b tr) e
     = (Some (IntLiteral_new offset ((a - b) mod 2 ^ 32)), e)
  /\ constantFold (IntLiteral offset a tl) TK_STAR
       (IntLiteral rightOffset b tr) e
     = (Some (IntLiteral_new offset ((a * b) mod 2 ^ 32)), e)
  /\ constantFold (IntLiteral offset 2147483647 tl) TK_PLUS
       (IntLiteral rightOffset 1 tr) e
     = (Some (IntLiteral_new offset 2147483648), e).
Proof.
  unfold constantFold; cbn [isBoolLiteral isCompileTimeConstant andb orb negb].
  unfold foldIntLiterals, ret.
  rewrite uint32_t_add, uint32_t_sub, uint32_t_mul.
  repeat split; reflexivity.
Qed.

(** C2. Folding [a / 0] or [a % 0] on integer literals reports "division by
    zero" at the right operand and returns null; folding [INT64_MIN / -1]
    or [INT64_MIN % -1] reports "arithmetic overflow" and returns null.  No
    literal is produced in any of these cases. *)
Theorem constantFold_int_division_errors
    (offset a : Z) (tl : Ty) (rightOffset : Z) (tr : Ty) (e : Env) :
  constantFold (IntLiteral offset a tl) TK_SLASH (IntLiteral rightOffset 0 tr) e
  = (None, reported rightOffset "division by zero" e)
  /\ constantFold (IntLiteral offset a tl) TK_PERCENT
       (IntLiteral rightOffset 0 tr) e
     = (None, reported rightOffset "division by zero" e)
  /\ constantFold (IntLiteral offset INT64_MIN tl) TK_SLASH
       (IntLiteral rightOffset (-1) tr) e
     = (None, reported rightOffset "arithmetic overflow" e)
  /\ constantFold (IntLiteral offset INT64_MIN tl) TK_PERCENT
       (IntLiteral rightOffset (-1) tr) e
     = (None, reported rightOffset "arithmetic overflow" e).
Proof.
  unfold constantFold; cbn [isBoolLiteral isCompileTimeConstant andb orb negb].
  unfold foldIntLiterals.
  change (0 =? 0) with true; change (0 =? -1) with false.
  rewrite andb_false_r.
  repeat split; reflexivity.
Qed.

Lemma not_constant_not_literal (x : Expression) :
  isCompileTimeConstant x = false -> isBoolLiteral x = false.
Proof. destruct x; cbn; congruence. Qed.

(** C3. For a boolean literal [b] and an expression [x] that is not a
    compile-time constant, [constantFold] short-circuits, whichever side the
    literal is on and without reporting anything: [true && x] is [x] and
    [false && x] is the literal [false]; [true || x] is the literal [true]
    and [false || x] is [x]; [true ^^ x] is [!x] and [false ^^ x] is [x]. *)
Theorem constantFold_short_circuit
    (offset : Z) (b : bool) (t : Ty) (x : Expression) (e : Env)
    (Hx : isCompileTimeConstant x = false) :
  let lit := BoolLiteral offset b t in
  (constantFold lit TK_LOGICALAND x e
   = (Some (if b then x else BoolLiteral_new offset false), e)
   /\ constantFold x TK_LOGICALAND lit e
      = (Some (if b then x else BoolLiteral_new offset false), e))
  /\ (constantFold lit TK_LOGICALOR x e
      = (Some (if b then BoolLiteral_new offset true else x), e)
      /\ constantFold x TK_LOGICALOR lit e
         = (Some (if b then BoolLiteral_new offset true else x), e))
  /\ (constantFold lit TK_LOGICALXOR x e
      = (Some (if b then PrefixExpression TK_LOGICALNOT x else x), e)
      /\ constantFold x TK_LOGICALXOR lit e
         = (Some (if b then PrefixExpression TK_LOGICALNOT x else x), e)).
Proof.
  intro lit; subst lit.
  pose proof (not_constant_not_literal x Hx) as Hl.
  unfold constantFold; cbn [isBoolLiteral isCompileTimeConstant].
  rewrite Hx, Hl; cbn [andb negb].
  unfold short_circuit_boolean, ret.
  destruct b; repeat split; reflexivity.
Qed.


(** ** Implicit coercion *)

(** C4. Coercing an expression to the type it already has returns the
    expression itself: no constructor is wrapped around it, nothing is
    reported and the state of the generator is unchanged. *)
Theorem coerce_same_type (x : Expression) (T : Ty) (e : Env)
    (Hsame : Type_eqb (type_of x) T = true) :
  coerce (Some x) T e = (Some x, e).
Proof.
  unfold coerce. rewrite Hsame. reflexivity.
Qed.

(** ** The types of a binary expression *)

Lemma TypeKind_eqb_eq (a b : TypeKind) : TypeKind_eqb a b = true <-> a = b.
Proof. split; [destruct a, b; cbn; congruence | intros ->; destruct b; reflexivity]. Qed.

(** On operands typed by cost, [determine_binary_type] runs the last part of
    its body, whatever the fuel. *)
Lemma determine_binary_type_tail_reached
    (rec : TokenKind -> Ty -> Ty -> option BinaryTypes)
    (op : TokenKind) (left right : Ty)
    (Hcase : typedByCost op left right = true) :
  determine_binary_type_body rec op left right
  = let rightToLeftCost := coercionCost right left in
    let leftToRightCost := coercionCost left right in
    if rightToLeftCost <? leftToRightCost then
      Some {| outLeftType := left; outRightType := left;
              outResultType := if isRelational op then fBool_Type else left |}
    else if negb (leftToRightCost =? INT_MAX) then
      Some {| outLeftType := right; outRightType := right;
              outResultType := if isRelational op then fBool_Type else right |}
    else None.
Proof.
  unfold typedByCost, isScalar in Hcase.
  apply andb_true_iff in Hcase as [Hop Hshape].
  apply orb_true_iff in Hshape as [Hss | Hvm].
  - apply andb_true_iff in Hss as [Hl Hr].
    assert (Hvl : isVectorOrMatrix left = false).
    { unfold isVectorOrMatrix. apply TypeKind_eqb_eq in Hl. rewrite Hl. reflexivity. }
    assert (Hvr : isVectorOrMatrix right = false).
    { unfold isVectorOrMatrix. apply TypeKind_eqb_eq in Hr. rewrite Hr. reflexivity. }
    assert (Hmm : is_matrix_multiply left right = false).
    { unfold is_matrix_multiply. apply TypeKind_eqb_eq in Hl. rewrite Hl. reflexivity. }
    destruct op; try discriminate Hop;
      cbn [determine_binary_type_body IsAssignment]; rewrite ?Hmm;
      unfold determine_binary_type_tail; cbn [IsAssignment isRelational];
      rewrite Hvl, Hvr, Hl, Hr; cbn [andb orb negb]; reflexivity.
  - repeat (apply andb_true_iff in Hvm as [Hvm ?]).
    match goal with H : negb (TypeKind_eqb (typeKind right) kScalar) = true |- _ =>
      apply negb_true_iff in H; rename H into Hr end.
    match goal with H : negb _ = true |- _ =>
      apply negb_true_iff in H; rename H into Hmm end.
    assert (Hl : TypeKind_eqb (typeKind left) kScalar = false).
    { unfold isVectorOrMatrix in Hvm.
      destruct (typeKind left); cbn in Hvm |- *; congruence. }
    destruct op; try discriminate Hop;
      match goal with H : isArithmetic _ = true |- _ => try discriminate H end;
      cbn [andb] in Hmm;
      cbn [determine_binary_type_body IsAssignment]; rewrite ?Hmm;
      unfold determine_binary_type_tail; cbn [IsAssignment isRelational];
      rewrite Hvm, Hl, Hr; cbn [andb orb negb];
      rewrite ?andb_false_r; cbn [andb orb negb]; reflexivity.
Qed.





(** ** Swizzles *)

Lemma list_ascii_length (s : string) :
  List.length (list_ascii_of_string s) = String.length s.
Proof. induction s as [|c s IH]; cbn; congruence. Qed.

Lemma swizzleComponents_length (baseColumns : Z) (mask : list Ascii.ascii) :
  forall components literals,
    swizzleComponents baseColumns mask = inr (components, literals) ->
    List.length components = List.length mask.
Proof.
  induction mask as [|c mask IH]; cbn; intros components literals H.
  - now inversion H.
  - destruct (swizzleComponent baseColumns c) as [[component isLiteral]|];
      [|discriminate].
    destruct (swizzleComponents baseColumns mask) as [bad|[cs n]];
      [discriminate|].
    inversion H; subst; cbn. f_equal. eapply IH; reflexivity.
Qed.

Lemma swizzleComponent_literal (baseColumns : Z) (c : Ascii.ascii) :
  isOneOf c "01" = true ->
  exists component, swizzleComponent baseColumns c = Some (component, true).
Proof.
  unfold swizzleComponent, isOneOf; cbn [list_ascii_of_string existsb].
  intros H. destruct (Ascii.eqb c "0"%char); cbn [orb]; [eauto|].
  cbn [orb] in H. rewrite orb_false_r in H. rewrite H. cbn. eauto.
Qed.

Lemma swizzleComponents_literals (baseColumns : Z) (mask : list Ascii.ascii) :
  forallb (fun c => isOneOf c "01") mask = true ->
  exists components,
    swizzleComponents baseColumns mask
    = inr (components, Z.of_nat (List.length components)).
Proof.
  induction mask as [|c mask IH]; intros H.
  - exists []. reflexivity.
  - cbn [forallb] in H. apply andb_true_iff in H as [Hc Hrest].
    destruct (swizzleComponent_literal baseColumns c Hc) as [component Hcomp].
    destruct (IH Hrest) as [components Hcomps].
    exists (component :: components).
    cbn [swizzleComponents]. rewrite Hcomp, Hcomps.
    f_equal. f_equal. cbn [List.length]. lia.
Qed.

(** A mask of no component, of more than four, or of literals only is
    rejected with one error. *)
Lemma convertSwizzle_rejects (base : Expression) (fields : string) (e : Env) :
  String.length fields = 0%nat \/ (4 < String.length fields)%nat
  \/ forallb (fun c => isOneOf c "01") (list_ascii_of_string fields) = true ->
  exists msg,
    convertSwizzle base fields e = (None, reported (offset_of base) msg e).
Proof.
  intros Hmask. unfold convertSwizzle.
  destruct (negb (TypeKind_eqb (typeKind (type_of base)) kVector)
            && negb (isNumber (type_of base))); [eexists; reflexivity|].
  destruct (swizzleComponents (columns (type_of base))
              (list_ascii_of_string fields))
    as [bad|[components literals]] eqn:Hcomps; [eexists; reflexivity|].
  pose proof (swizzleComponents_length _ _ _ _ Hcomps) as Hlen.
  rewrite list_ascii_length in Hlen.
  destruct (Z.of_nat (List.length components) >? 4) eqn:Hbig;
    [eexists; reflexivity|].
  assert (Hlit : literals = Z.of_nat (List.length components)).
  { destruct Hmask as [Hzero | [Hlong | Hall]].
    - rewrite Hlen, Hzero in *. destruct components; [|discriminate].
      cbn in Hcomps.
      destruct (list_ascii_of_string fields); [now inversion Hcomps|].
      cbn in Hcomps.
      destruct (swizzleComponent _ _) as [[? ?]|]; [|discriminate].
      destruct (swizzleComponents _ _) as [?|[? ?]]; discriminate.
    - rewrite Z.gtb_ltb in Hbig. apply Z.ltb_ge in Hbig. lia.
    - destruct (swizzleComponents_literals (columns (type_of base)) _ Hall)
        as [cs Hcs].
      rewrite Hcs in Hcomps. now inversion Hcomps. }
  rewrite Hlit, Z.eqb_refl. eexists; reflexivity.
Qed.

(** On a vector, a mask of one to four components that are not all literals
    becomes a swizzle of those components, repeated or not. *)
Lemma convertSwizzle_reads (base : Expression) (fields : string)
    (components : list Z) (literals : Z) (e : Env) :
  typeKind (type_of base) = kVector ->
  isNumber (type_of base) = false ->
  swizzleComponents (columns (type_of base)) (list_ascii_of_string fields)
  = inr (components, literals) ->
  (List.length components <= 4)%nat ->
  literals <> Z.of_nat (List.length components) ->
  convertSwizzle base fields e = (Some (Swizzle base components), e).
Proof.
  intros Hkind Hnumber Hcomps Hlen Hlit. unfold convertSwizzle.
  rewrite Hkind, Hnumber, Hcomps. cbn [TypeKind_eqb negb andb].
  destruct (Z.gtb_spec (Z.of_nat (List.length components)) 4); [lia|].
  destruct (Z.eqb_spec literals (Z.of_nat (List.length components)));
    [contradiction|].
  reflexivity.
Qed.

Lemma swizzleComponents_xx (baseColumns : Z) :
  swizzleComponents baseColumns (list_ascii_of_string "xx") = inr ([0; 0], 0).
Proof. reflexivity. Qed.

(** On a number, the mask "xx" becomes the constructor of a vector of two
    copies of the number. *)
Lemma convertSwizzle_xx_scalar (base : Expression) (e : Env) :
  isNumber (type_of base) = true ->
  convertSwizzle base "xx" e
  = (Some (Constructor (offset_of base) (toCompound (type_of base) 2 1)
             [Constructor (offset_of base) (toCompound (type_of base) 2 1)
                [base]]), e).
Proof.
  intros Hnumber. unfold convertSwizzle.
  rewrite Hnumber, swizzleComponents_xx, andb_false_r.
  cbn [List.length Z.of_nat Z.gtb Z.eqb Z.compare Pos.of_succ_nat Pos.succ
       Pos.compare Pos.compare_cont].
  destruct base; reflexivity.
Qed.

Lemma land_bit (bits idx : Z) :
  0 <= idx ->
  (Z.land bits (Z.shiftl 1 idx) =? 0) = negb (Z.testbit bits idx).
Proof.
  intros Hidx. rewrite Z.shiftl_1_l.
  destruct (Z.testbit bits idx) eqn:Hbit; cbn [negb].
  - apply Z.eqb_neq. intros Hzero.
    assert (Hb : Z.testbit (Z.land bits (2 ^ idx)) idx = true).
    { rewrite Z.land_spec, Hbit, Z.pow2_bits_true by lia. reflexivity. }
    rewrite Hzero, Z.bits_0 in Hb. discriminate.
  - apply Z.eqb_eq. apply Z.bits_inj'. intros n Hn.
    rewrite Z.land_spec, Z.bits_0, Z.pow2_bits_eqb by lia.
    destruct (Z.eqb_spec idx n) as [->|]; [rewrite Hbit|]; now rewrite ?andb_false_r.
Qed.

Lemma lor_bit (bits idx n : Z) :
  0 <= idx -> 0 <= n ->
  Z.testbit (Z.lor bits (Z.shiftl 1 idx)) n = Z.testbit bits n || (idx =? n).
Proof.
  intros Hidx Hn.
  now rewrite Z.shiftl_1_l, Z.lor_spec, Z.pow2_bits_eqb by lia.
Qed.

(** The loop of [checkSwizzleWrite] accepts the components that are not
    negative, not among those seen and pairwise distinct; it reports nothing
    when it accepts and one error when it refuses. *)
Lemma checkSwizzleWrite_loop_spec (offset : Z) (components : list Z) :
  forall (bits : Z) (seen : list Z) (e : Env),
    (forall n, 0 <= n -> Z.testbit bits n = true <-> In n seen) ->
    (fst (checkSwizzleWrite_loop offset bits components e) = true
     <-> Forall (fun idx => 0 <= idx) components
         /\ NoDup components
         /\ (forall idx, In idx components -> ~ In idx seen))
    /\ (fst (checkSwizzleWrite_loop offset bits components e) = true ->
        snd (checkSwizzleWrite_loop offset bits components e) = e)
    /\ (fst (checkSwizzleWrite_loop offset bits components e) = false ->
        exists msg,
          snd (checkSwizzleWrite_loop offset bits components e)
          = reported offset msg e).
Proof.
  induction components as [|idx rest IH]; intros bits seen e Hbits.
  - cbn. split; [split|split]; auto; try discriminate.
    intros _. split; [constructor|split; [constructor|intros idx []]].
  - cbn [checkSwizzleWrite_loop].
    destruct (Z.ltb_spec idx 0) as [Hneg | Hpos].
    + cbn. split; [split|split].
      * discriminate.
      * intros (Hall & _). inversion Hall; lia.
      * discriminate.
      * intros _. eexists. reflexivity.
    + rewrite (land_bit bits idx Hpos), negb_involutive.
      destruct (Z.testbit bits idx) eqn:Hbit.
      * cbn. split; [split|split].
        -- discriminate.
        -- intros (_ & _ & Hfresh). exfalso.
           apply (Hfresh idx); [now left|]. apply Hbits; assumption.
        -- discriminate.
        -- intros _. eexists. reflexivity.
      * assert (Hbits' : forall n, 0 <= n ->
                  Z.testbit (Z.lor bits (Z.shiftl 1 idx)) n = true
                  <-> In n (idx :: seen)).
        { intros n Hn. rewrite (lor_bit bits idx n Hpos Hn), orb_true_iff.
          cbn [In]. rewrite Z.eqb_eq, (Hbits n Hn). tauto. }
        destruct (IH (Z.lor bits (Z.shiftl 1 idx)) (idx :: seen) e Hbits')
          as (Hiff & Hsame & Herr).
        assert (Hnotseen : ~ In idx seen).
        { intros Hin. apply Hbits in Hin; [congruence | assumption]. }
        split; [split|split].
        -- intros H. apply Hiff in H. destruct H as (Hall & Hnd & Hfresh).
           split; [|split].
           ++ constructor; assumption.
           ++ constructor; [|assumption].
              intros Hin. apply (Hfresh idx Hin). now left.
           ++ intros i [<- | Hin]; [assumption|].
              intros Hseen. apply (Hfresh i Hin). now right.
        -- intros (Hall & Hnd & Hfresh). apply Hiff.
           inversion Hall; inversion Hnd; subst.
           split; [|split]; auto.
           intros i Hin [<- | Hseen]; [contradiction|].
           apply (Hfresh i); [now right | assumption].
        -- exact Hsame.
        -- exact Herr.
Qed.

(** C6. [convertSwizzle] rejects a mask of no component, a mask of more
    than four and a mask made of the literals [0] and [1] only.  A mask with
    a repeated component is accepted where the value is read: on a vector,
    it becomes the swizzle of its components ("xx" the swizzle of [0; 0]),
    and on a number the constructor of a vector.  As the target of an
    assignment a swizzle is accepted by [checkSwizzleWrite] exactly when its
    components are real (not negative) and pairwise distinct; otherwise
    [setRefKind] fails with one error, as it does for "xx". *)
Theorem swizzle_validity :
  (forall (base : Expression) (fields : string) (e : Env),
      String.length fields = 0%nat \/ (4 < String.length fields)%nat
      \/ forallb (fun c => isOneOf c "01") (list_ascii_of_string fields) = true ->
      exists msg,
        convertSwizzle base fields e = (None, reported (offset_of base) msg e))
  /\ (forall (base : Expression) (fields : string) (components : list Z)
        (literals : Z) (e : Env),
        typeKind (type_of base) = kVector ->
        isNumber (type_of base) = false ->
        swizzleComponents (columns (type_of base)) (list_ascii_of_string fields)
        = inr (components, literals) ->
        (List.length components <= 4)%nat ->
        literals <> Z.of_nat (List.length components) ->
        convertSwizzle base fields e = (Some (Swizzle base components), e))
  /\ (forall (base : Expression) (e : Env),
        typeKind (type_of base) = kVector ->
        isNumber (type_of base) = false ->
        convertSwizzle base "xx" e = (Some (Swizzle base [0; 0]), e))
  /\ (forall (base : Expression) (e : Env),
        isNumber (type_of base) = true ->
        exists t args,
          convertSwizzle base "xx" e
          = (Some (Constructor (offset_of base) t args), e))
  /\ (forall (base : Expression) (components : list Z) (refKind : RefKind)
        (e : Env),
        Forall (fun idx => idx <= 3) components ->
        (fst (checkSwizzleWrite base components e) = true
         <-> Forall (fun idx => 0 <= idx) components /\ NoDup components)
        /\ (fst (checkSwizzleWrite base components e) = false ->
            exists msg,
              setRefKind (Swizzle base components) refKind e
              = ((false, Swizzle base components),
                 reported (offset_of base) msg e)))
  /\ (forall (base : Expression) (refKind : RefKind) (e : Env),
        setRefKind (Swizzle base [0; 0]) refKind e
        = ((false, Swizzle base [0; 0]),
           reported (offset_of base)
             "cannot write to the same swizzle field more than once" e)).
Proof.
  split; [exact convertSwizzle_rejects|].
  split; [exact convertSwizzle_reads|].
  split.
  { intros base e Hkind Hnumber.
    apply (convertSwizzle_reads base "xx" [0; 0] 0 e Hkind Hnumber);
      [apply swizzleComponents_xx | cbn; lia | discriminate]. }
  split.
  { intros base e Hnumber. do 2 eexists.
    apply (convertSwizzle_xx_scalar base e Hnumber). }
  split.
  { intros base components refKind e _.
    destruct (checkSwizzleWrite_loop_spec (offset_of base) components 0 [] e)
      as (Hiff & Hsame & Herr).
    { intros n Hn. rewrite Z.bits_0. cbn. split; [discriminate | tauto]. }
    unfold checkSwizzleWrite. split.
    - rewrite Hiff. split; [tauto|]. intros (Hall & Hnd). auto.
    - intros Hfalse. destruct (Herr Hfalse) as [msg Hmsg]. exists msg.
      cbn [setRefKind]. unfold checkSwizzleWrite, bind.
      destruct (checkSwizzleWrite_loop (offset_of base) 0 components e)
        as [ok e'] eqn:Hrun.
      cbn in Hfalse, Hmsg. subst. reflexivity. }
  intros base refKind e. reflexivity.
Qed.


(** ** Break and continue *)

(** C7. With nesting counters that are not negative, [convertBreak] yields
    a break statement iff the loop level or the switch level is not zero,
    and otherwise reports "break statement must be inside a loop or switch"
    and yields null; [convertContinue] yields a continue statement iff the
    loop level is not zero, and otherwise reports "continue statement must
    be inside a loop" and yields null. *)
Theorem break_continue_legality (offset : Z) (g : IRGenerator)
    (Hloop : 0 <= fLoopLevel g) (Hswitch : 0 <= fSwitchLevel g) :
  (fLoopLevel g <> 0 \/ fSwitchLevel g <> 0 ->
   convertBreak offset g = (Some (BreakStatement offset), g))
  /\ (fLoopLevel g = 0 /\ fSwitchLevel g = 0 ->
      convertBreak offset g
      = (None,
         refused offset "break statement must be inside a loop or switch" g))
  /\ (fLoopLevel g <> 0 ->
      convertContinue offset g = (Some (ContinueStatement offset), g))
  /\ (fLoopLevel g = 0 ->
      convertContinue offset g
      = (None, refused offset "continue statement must be inside a loop" g)).
Proof.
  unfold convertBreak, convertContinue, bind, gets, ret.
  destruct (Z.gtb_spec (fLoopLevel g) 0) as [Hl | Hl];
    destruct (Z.gtb_spec (fSwitchLevel g) 0) as [Hs | Hs];
    cbn [orb]; repeat split; intros; try lia; try reflexivity;
    try (destruct H; lia).
Qed.

(** ** Overload resolution *)

Lemma callCost_loop_spec (arguments : list Expression) :
  forall (finalTypes : list Ty) (total : Z),
    (In INT_MAX (argumentCosts arguments finalTypes) ->
     callCost_loop arguments finalTypes total = INT_MAX)
    /\ (~ In INT_MAX (argumentCosts arguments finalTypes) ->
        callCost_loop arguments finalTypes total
        = total + fold_right Z.add 0 (argumentCosts arguments finalTypes)).
Proof.
  induction arguments as [|a arguments IH]; intros finalTypes total.
  - cbn. split; [tauto | intros _; lia].
  - destruct finalTypes as [|t finalTypes]; [cbn; split; [tauto | intros _; lia]|].
    unfold argumentCosts. cbn [combine map fold_right fst snd callCost_loop In].
    fold (argumentCosts arguments finalTypes).
    destruct (IH finalTypes (total + Expression_coercionCost a t)) as [Hmax Hsum].
    destruct (Z.eqb_spec (Expression_coercionCost a t) INT_MAX) as [Heq | Hne];
      cbn [negb].
    + split; [reflexivity | intros Hnot; exfalso; apply Hnot; now left].
    + split.
      * intros [Habs | Hin]; [congruence | auto].
      * intros Hnot. rewrite Hsum by tauto. lia.
Qed.

(** [callCost] is [INT_MAX] when the numbers of parameters and of arguments
    differ, when the final finalTypes cannot be determined, or when an argument
    does not coerce; otherwise it is the sum of the costs of the
    arguments. *)
Lemma callCost_spec (f : FunctionDeclaration) (arguments : list Expression) :
  (List.length (fParameters f) <> List.length arguments ->
   callCost f arguments = INT_MAX)
  /\ (determineFinalTypes f arguments = None -> callCost f arguments = INT_MAX)
  /\ (forall (finalTypes : list Ty) (returnType : Ty),
        List.length (fParameters f) = List.length arguments ->
        determineFinalTypes f arguments = Some (finalTypes, returnType) ->
        (In INT_MAX (argumentCosts arguments finalTypes) ->
         callCost f arguments = INT_MAX)
        /\ (~ In INT_MAX (argumentCosts arguments finalTypes) ->
            callCost f arguments
            = fold_right Z.add 0 (argumentCosts arguments finalTypes))).
Proof.
  unfold callCost. split; [|split].
  - intros Hne. apply Nat.eqb_neq in Hne. now rewrite Hne.
  - intros Hnone. rewrite Hnone.
    now destruct (Nat.eqb _ _).
  - intros finalTypes returnType Hlen Hsome.
    apply Nat.eqb_eq in Hlen. rewrite Hlen, Hsome. cbn [negb].
    destruct (callCost_loop_spec arguments finalTypes 0) as [Hmax Hsum].
    split; [exact Hmax | intros Hnot; now rewrite Hsum].
Qed.

Lemma call_findBest_keeps (arguments : list Expression)
    (post : list FunctionDeclaration) :
  forall (bestCost : Z) (best : option FunctionDeclaration),
    (forall g, In g post -> bestCost <= callCost g arguments) ->
    call_findBest post arguments bestCost best = (bestCost, best).
Proof.
  induction post as [|g post IH]; intros bestCost best Hpost; [reflexivity|].
  cbn [call_findBest].
  destruct (Z.ltb_spec (callCost g arguments) bestCost) as [Hlt | Hge].
  - specialize (Hpost g (or_introl eq_refl)). lia.
  - apply IH. intros h Hh. apply Hpost. now right.
Qed.

(** The loop of [call] ends on the first of the cheapest candidates. *)
Lemma call_findBest_first_minimal (arguments : list Expression)
    (f : FunctionDeclaration) (post : list FunctionDeclaration)
    (pre : list FunctionDeclaration) :
  forall (bestCost : Z) (best : option FunctionDeclaration),
    callCost f arguments < bestCost ->
    (forall g, In g pre -> callCost f arguments < callCost g arguments) ->
    (forall g, In g post -> callCost f arguments <= callCost g arguments) ->
    call_findBest (pre ++ f :: post) arguments bestCost best
    = (callCost f arguments, Some f).
Proof.
  induction pre as [|g pre IH]; intros bestCost best Hbest Hpre Hpost.
  - cbn [app call_findBest].
    destruct (Z.ltb_spec (callCost f arguments) bestCost); [|lia].
    now apply call_findBest_keeps.
  - cbn [app call_findBest].
    assert (Hg : callCost f arguments < callCost g arguments)
      by (apply Hpre; now left).
    assert (Hpre' : forall h, In h pre ->
              callCost f arguments < callCost h arguments)
      by (intros h Hh; apply Hpre; now right).
    destruct (Z.ltb_spec (callCost g arguments) bestCost); now apply IH.
Qed.

(** Either no candidate is valid, or the candidates split around the first
    of the cheapest ones. *)
Lemma first_minimal_exists (arguments : list Expression)
    (functions : list FunctionDeclaration) :
  (forall g, In g functions -> INT_MAX <= callCost g arguments)
  \/ exists pre f post,
       functions = pre ++ f :: post
       /\ callCost f arguments < INT_MAX
       /\ (forall g, In g pre -> callCost f arguments < callCost g arguments)
       /\ (forall g, In g post -> callCost f arguments <= callCost g arguments).
Proof.
  induction functions as [|h functions IH].
  - left. intros g [].
  - destruct IH as [Hnone | (pre & f & post & Heq & Hvalid & Hpre & Hpost)].
    + destruct (Z.lt_ge_cases (callCost h arguments) INT_MAX) as [Hlt | Hge].
      * right. exists [], h, functions. repeat split; auto.
        -- intros g [].
        -- intros g Hg. specialize (Hnone g Hg). lia.
      * left. intros g [<- | Hg]; auto.
    + right.
      destruct (Z.le_gt_cases (callCost h arguments) (callCost f arguments))
        as [Hle | Hgt].
      * exists [], h, functions. repeat split; auto; try lia.
        -- intros g [].
        -- intros g Hg. subst functions.
           apply in_app_or in Hg as [Hg | [<- | Hg]].
           ++ specialize (Hpre g Hg). lia.
           ++ lia.
           ++ specialize (Hpost g Hg). lia.
      * exists (h :: pre), f, post. subst functions. repeat split; auto.
        intros g [<- | Hg]; auto.
Qed.

(** C8. [callCost] is the sum of the costs of coercing the arguments, and
    [INT_MAX] (the call is invalid) when the arity differs, when the final
    finalTypes cannot be determined or when an argument does not coerce.  A call
    to a name with several declarations goes to the first candidate of
    least cost, if a candidate is valid, and is otherwise reported as "no
    match".  So a candidate of cost zero is selected before any candidate of
    higher cost, and among candidates of the same least cost the first one
    wins. *)
Theorem call_overload_resolution
    (offset refOffset : Z) (f0 f1 : FunctionDeclaration)
    (others : list FunctionDeclaration) (arguments : list Expression)
    (e : Env) :
  let functions := f0 :: f1 :: others in
  (forall f, In f functions ->
     (List.length (fParameters f) <> List.length arguments ->
      callCost f arguments = INT_MAX)
     /\ (determineFinalTypes f arguments = None ->
         callCost f arguments = INT_MAX)
     /\ (forall (finalTypes : list Ty) (returnType : Ty),
           List.length (fParameters f) = List.length arguments ->
           determineFinalTypes f arguments = Some (finalTypes, returnType) ->
           (In INT_MAX (argumentCosts arguments finalTypes) ->
            callCost f arguments = INT_MAX)
           /\ (~ In INT_MAX (argumentCosts arguments finalTypes) ->
               callCost f arguments
               = fold_right Z.add 0 (argumentCosts arguments finalTypes))))
  /\ (((forall g, In g functions -> INT_MAX <= callCost g arguments)
       /\ selectOverload functions arguments = None
       /\ exists msg,
            call offset (FunctionReference refOffset functions) arguments e
            = (None, reported offset msg e))
      \/ exists pre best post,
           functions = pre ++ best :: post
           /\ callCost best arguments < INT_MAX
           /\ (forall g, In g pre ->
                 callCost best arguments < callCost g arguments)
           /\ (forall g, In g post ->
                 callCost best arguments <= callCost g arguments)
           /\ selectOverload functions arguments = Some best
           /\ call offset (FunctionReference refOffset functions) arguments e
              = callFunction offset best arguments e)
  /\ (forall exact widening,
        In exact functions -> In widening functions ->
        callCost exact arguments = 0 ->
        0 < callCost widening arguments ->
        (forall g, In g functions -> 0 <= callCost g arguments) ->
        exists best,
          selectOverload functions arguments = Some best
          /\ callCost best arguments = 0
          /\ best <> widening).
Proof.
  intros functions.
  assert (Hselect :
    (forall g, In g functions -> INT_MAX <= callCost g arguments)
    /\ selectOverload functions arguments = None
    \/ exists pre best post,
         functions = pre ++ best :: post
         /\ callCost best arguments < INT_MAX
         /\ (forall g, In g pre ->
               callCost best arguments < callCost g arguments)
         /\ (forall g, In g post ->
               callCost best arguments <= callCost g arguments)
         /\ selectOverload functions arguments = Some best).
  { destruct (first_minimal_exists arguments functions)
      as [Hnone | (pre & best & post & Heq & Hvalid & Hpre & Hpost)].
    - left. split; [assumption|]. unfold selectOverload.
      now rewrite call_findBest_keeps.
    - right. exists pre, best, post. repeat split; auto.
      unfold selectOverload. rewrite Heq.
      now rewrite call_findBest_first_minimal. }
  split; [intros f _; apply callCost_spec|]. split.
  - destruct Hselect as [(Hnone & Hsel) | (pre & best & post & Heq & Hrest)].
    + left. repeat split; auto. eexists.
      unfold call. fold functions. rewrite Hsel. reflexivity.
    + right. exists pre, best, post.
      destruct Hrest as (Hvalid & Hpre & Hpost & Hsel). repeat split; auto.
      unfold call. fold functions. now rewrite Hsel.
  - intros exact widening Hexact Hwidening Hzero Hpositive Hnonneg.
    destruct Hselect as [(Hnone & _) | (pre & best & post & Heq & Hrest)].
    + specialize (Hnone exact Hexact). unfold INT_MAX in Hnone. lia.
    + destruct Hrest as (Hvalid & Hpre & Hpost & Hsel).
      exists best. split; [assumption|].
      assert (Hbest : In best functions)
        by (rewrite Heq; apply in_or_app; right; now left).
      assert (Hle : callCost best arguments <= callCost exact arguments).
      { rewrite Heq in Hexact.
        apply in_app_or in Hexact as [Hin | [<- | Hin]].
        - specialize (Hpre exact Hin). lia.
        - lia.
        - now apply Hpost. }
      specialize (Hnonneg best Hbest).
      split; [lia|]. intros ->. lia.
Qed.


(** ** Array sizes *)

Lemma convertIdentifier_variable (offset : Z) (x : string) (var : Var) (e : Env) :
  SymbolTable_lookup x (fSymbolTable e) = Some (Symbol_Variable var) ->
  exists e',
    convertIdentifier offset x e
    = (Some (VariableReference offset var kRead_RefKind), e').
Proof.
  intros Hlookup. unfold convertIdentifier, bind, gets. rewrite Hlookup.
  destruct (noteBuiltin _ e) as [[] e1].
  match goal with
  | |- context [let (_, _) := ?m e1 in _] => destruct (m e1) as [[] e2]
  end.
  eexists. reflexivity.
Qed.

(** The step of the loop over the array sizes on a size that converts and
    coerces to an expression other than an integer literal. *)
Lemma convertArraySizes_not_literal
    (rec : ASTNode -> Gen (option Expression)) (type : Ty)
    (rawSize : ASTNode) (rest : list ASTNode)
    (converted : option Expression) (size : Expression) (e e0 e1 : Env) :
  ASTNode_present rawSize = true ->
  rec rawSize e = (converted, e0) ->
  coerce converted fInt_Type e0 = (Some size, e1) ->
  isIntLiteral size = false ->
  convertArraySizes rec type (rawSize :: rest) e
  = (None, reported (offset_of size) "array size must be specified" e1).
Proof.
  intros Hpresent Hrec Hcoerce Hliteral.
  cbn [convertArraySizes]. rewrite Hpresent.
  unfold bind, bindNull. rewrite Hrec. unfold bind. rewrite Hcoerce.
  destruct size; try discriminate Hliteral; reflexivity.
Qed.

(** C9, amended.  An array size in a variable declaration must convert to an
    integer literal with a positive value: [int arr[5]] succeeds with array
    size 5; a literal that is not positive, and [-1] as well, fails with
    "array size must be positive" and yields no IR node; a size that
    converts and coerces to [int] but is not an integer literal -- a
    reference to a variable of type [int], constant or not -- fails with
    "array size must be specified" and yields no IR node. *)
Theorem array_size_positive_literal (type : Ty) (rest : list ASTNode) (e : Env)
    (Hliteral : Type_eqb IntLiteral_Type fInt_Type = true) :
  (forall offset count,
      0 < count ->
      convertArraySizes convertExpression type [kInt offset count] e
      = (Some (ArrayType (name type +++ "[" +++ to_string count +++ "]") type
                 (int32_t count),
               [Some (IntLiteral_new offset count)]), e))
  /\ (forall offset count,
        count <= 0 ->
        convertArraySizes convertExpression type (kInt offset count :: rest) e
        = (None, reported offset "array size must be positive" e))
  /\ (forall offset literalOffset,
        convertArraySizes convertExpression type
          (kPrefix offset Prefix_MINUS (kInt literalOffset 1) :: rest) e
        = (None, reported literalOffset "array size must be positive" e))
  /\ (forall offset x var,
        SymbolTable_lookup x (fSymbolTable e) = Some (Symbol_Variable var) ->
        Type_eqb (Var_type var) fInt_Type = true ->
        exists e',
          convertArraySizes convertExpression type
            (kIdentifier offset x :: rest) e
          = (None, reported offset "array size must be specified" e'))
  /\ (forall (rec : ASTNode -> Gen (option Expression)) (rawSize : ASTNode)
        (converted : option Expression) (size : Expression) (e0 e1 : Env),
        ASTNode_present rawSize = true ->
        rec rawSize e = (converted, e0) ->
        coerce converted fInt_Type e0 = (Some size, e1) ->
        isIntLiteral size = false ->
        convertArraySizes rec type (rawSize :: rest) e
        = (None, reported (offset_of size) "array size must be specified" e1)).
Proof.
  split; [|split; [|split; [|split]]].
  - intros offset count Hpositive.
    cbn [convertArraySizes ASTNode_present convertExpression].
    unfold coerce, IntLiteral_new, bindNull, bind, ret.
    cbn [type_of]. rewrite Hliteral.
    destruct (Z.leb_spec count 0); [lia | reflexivity].
  - intros offset count Hnegative.
    cbn [convertArraySizes ASTNode_present convertExpression].
    unfold coerce, IntLiteral_new, bindNull, bind, ret.
    cbn [type_of]. rewrite Hliteral.
    destruct (Z.leb_spec count 0); [reflexivity | lia].
  - intros offset literalOffset.
    cbn [convertArraySizes ASTNode_present convertExpression].
    unfold convertPrefixExpression, coerce, bindNull, bind.
    cbn [convertExpression]. unfold ret, IntLiteral_new.
    cbn [type_of]. rewrite Hliteral. reflexivity.
  - intros offset x var Hlookup Hint.
    destruct (convertIdentifier_variable offset x var e Hlookup) as [e' He'].
    exists e'.
    apply (convertArraySizes_not_literal convertExpression type
             (kIdentifier offset x) rest
             (Some (VariableReference offset var kRead_RefKind))
             (VariableReference offset var kRead_RefKind) e e' e');
      [reflexivity | exact He' | | reflexivity].
    unfold coerce. cbn [type_of]. now rewrite Hint.
  - intros rec rawSize converted size e0 e1.
    apply convertArraySizes_not_literal.
Qed.


(** ** Induction over statements *)

(** Induction over the statements of a syntax tree: a property of every
    node follows from its proof for a compound statement, given the
    property of the statements inside it, and for every other node. *)
Section StatementInduction.

Variable P : ASTNode -> Prop.

Hypothesis P_block :
  forall offset children, Forall P children -> P (kBlock offset children).
Hypothesis P_if :
  forall offset isStatic test ifTrue ifFalse,
    P ifTrue ->
    match ifFalse with
    | Some n => P n
    | None => True
    end ->
    P (kIf offset isStatic test ifTrue ifFalse).
Hypothesis P_for :
  forall offset initializer test next body,
    P initializer -> P body -> P (kFor offset initializer test next body).
Hypothesis P_while :
  forall offset test body, P body -> P (kWhile offset test body).
Hypothesis P_do :
  forall offset body test, P body -> P (kDo offset body test).
Hypothesis P_switch :
  forall offset isStatic value cases,
    Forall (fun c =>
              match c with
              | kSwitchCase _ _ statements => Forall P statements
              | _ => True
              end) cases ->
    P (kSwitch offset isStatic value cases).
Hypothesis P_simple : forall n, isCompoundStatement n = false -> P n.

Lemma statement_induction : forall n : ASTNode, P n.
Proof.
  fix IH 1. intros n.
  destruct n; try (apply P_simple; reflexivity).
  - apply P_block.
    induction statements as [|child rest IHrest]; constructor;
      [apply IH | exact IHrest].
  - apply P_if; [apply IH|].
    destruct ifFalse as [m|]; [apply IH | exact I].
  - apply P_for; apply IH.
  - apply P_while; apply IH.
  - apply P_do; apply IH.
  - apply P_switch.
    induction cases as [|c rest IHrest]; constructor; [|exact IHrest].
    destruct c; try exact I.
    induction statements as [|child more IHmore]; constructor;
      [apply IH | exact IHmore].
Qed.

End StatementInduction.

Lemma convertStatement_unfold (statement : ASTNode) :
  convertStatement statement
  = convertStatement_body convertStatement statement.
Proof. destruct statement; reflexivity. Qed.


(** ** Constant folding, the remaining operators *)

Lemma foldsOrReports_ret (result : option Expression) (offset : Z) (e : Env) :
  foldsOrReports (ret result) offset e.
Proof. left. exists result. reflexivity. Qed.

Lemma foldsOrReports_error (offset : Z) (msg : string) (e : Env) :
  msg = "division by zero" \/ msg = "arithmetic overflow"
  \/ msg = "shift value out of range" ->
  foldsOrReports (error offset msg ;; ret None) offset e.
Proof. intros Hmsg. right. exists msg. split; [reflexivity | exact Hmsg]. Qed.

Ltac folds_step :=
  match goal with
  | |- foldsOrReports (ret _) _ _ => apply foldsOrReports_ret
  | |- foldsOrReports (error _ _ ;; ret None) _ _ =>
      apply foldsOrReports_error; tauto
  | |- foldsOrReports (if ?b then _ else _) _ _ => destruct b
  | |- foldsOrReports (match ?x with _ => _ end) _ _ => destruct x
  end.

Lemma foldIntLiterals_outcome (offset leftVal : Z) (op : TokenKind)
    (rightOffset rightVal : Z) (e : Env) :
  foldsOrReports (foldIntLiterals offset leftVal op rightOffset rightVal)
    rightOffset e.
Proof. unfold foldIntLiterals. repeat folds_step. Qed.

Lemma foldFloatLiterals_outcome (offset : Z) (leftVal : F) (op : TokenKind)
    (rightOffset : Z) (rightVal : F) (e : Env) :
  foldsOrReports (foldFloatLiterals offset leftVal op rightOffset rightVal)
    rightOffset e.
Proof. unfold foldFloatLiterals. repeat folds_step. Qed.

Lemma foldCompound_outcome (left : Expression) (op : TokenKind)
    (right : Expression) (e : Env) :
  foldsOrReports (foldCompound left op right) (offset_of right) e.
Proof. unfold foldCompound. repeat folds_step. Qed.

Lemma constantFold_outcome (left : Expression) (op : TokenKind)
    (right : Expression) (e : Env) :
  foldsOrReports (constantFold left op right) (offset_of right) e.
Proof.
  unfold constantFold.
  destruct (isBoolLiteral left && negb (isCompileTimeConstant right));
    [apply foldsOrReports_ret|].
  destruct (isBoolLiteral right && negb (isCompileTimeConstant left));
    [apply foldsOrReports_ret|].
  destruct (negb (isCompileTimeConstant left)
            || negb (isCompileTimeConstant right));
    [apply foldsOrReports_ret|].
  destruct left; try apply foldCompound_outcome;
    destruct right; try apply foldCompound_outcome.
  - apply foldsOrReports_ret.
  - apply foldFloatLiterals_outcome.
  - apply foldIntLiterals_outcome.
Qed.

(** X1. [constantFold] reports an error only when it yields null: either it
    leaves the state of the generator as it was, or it yields null after
    exactly one error, reported at the right operand, which is "division by
    zero", "arithmetic overflow" or "shift value out of range". *)
Theorem constantFold_reports_only_on_failure
    (left : Expression) (op : TokenKind) (right : Expression) (e : Env) :
  (exists result, constantFold left op right e = (result, e))
  \/ (exists msg,
        constantFold left op right e
        = (None, reported (offset_of right) msg e)
        /\ (msg = "division by zero" \/ msg = "arithmetic overflow"
            \/ msg = "shift value out of range")).
Proof. exact (constantFold_outcome left op right e). Qed.

Lemma uint32_t_small (n : Z) : 0 <= n < 2 ^ 32 -> uint32_t n = n.
Proof. intros Hn. unfold uint32_t. change 4294967296 with (2 ^ 32). now apply Z.mod_small. Qed.

Lemma uint32_t_shiftl (a n : Z) :
  0 <= n <= 31 ->
  uint32_t (Z.shiftl (uint32_t a) (uint32_t n)) = (a * 2 ^ n) mod 2 ^ 32.
Proof.
  intros Hn. rewrite (uint32_t_small n) by lia.
  rewrite Z.shiftl_mul_pow2 by lia.
  unfold uint32_t. change 4294967296 with (2 ^ 32).
  now rewrite Z.mul_mod_idemp_l by lia.
Qed.

Lemma uint32_t_shiftr (a n : Z) :
  0 <= n <= 31 ->
  uint32_t (Z.shiftr (uint32_t a) (uint32_t n)) = (a mod 2 ^ 32) / 2 ^ n.
Proof.
  intros Hn. rewrite (uint32_t_small n) by lia.
  rewrite Z.shiftr_div_pow2 by lia.
  unfold uint32_t at 2. change 4294967296 with (2 ^ 32).
  apply uint32_t_small.
  assert (Ha : 0 <= a mod 2 ^ 32 < 2 ^ 32) by (apply Z.mod_pos_bound; lia).
  assert (Hp : 0 < 2 ^ n) by (apply Z.pow_pos_nonneg; lia).
  split.
  - apply Z.div_pos; lia.
  - apply Z.le_lt_trans with (a mod 2 ^ 32); [|lia].
    apply Z.div_le_upper_bound; nia.
Qed.

(** X2. Folding a shift of two integer literals.  For a shift count [n]
    from 0 to 31, [a << n] folds to the literal [(a * 2^n) mod 2^32] and
    [a >> n] to the literal [(a mod 2^32) / 2^n]: both shift the unsigned
    32-bit pattern of [a], so the right shift of a negative literal is a
    logical one.  For any other count the fold reports "shift value out of
    range" at the right operand and yields null. *)
Theorem constantFold_int_shift
    (offset a : Z) (tl : Ty) (rightOffset n : Z) (tr : Ty) (e : Env) :
  (0 <= n <= 31 ->
   constantFold (IntLiteral offset a tl) TK_SHL (IntLiteral rightOffset n tr) e
   = (Some (IntLiteral_new offset ((a * 2 ^ n) mod 2 ^ 32)), e)
   /\ constantFold (IntLiteral offset a tl) TK_SHR
        (IntLiteral rightOffset n tr) e
      = (Some (IntLiteral_new offset ((a mod 2 ^ 32) / 2 ^ n)), e))
  /\ (n < 0 \/ 31 < n ->
      constantFold (IntLiteral offset a tl) TK_SHL
        (IntLiteral rightOffset n tr) e
      = (None, reported rightOffset "shift value out of range" e)
      /\ constantFold (IntLiteral offset a tl) TK_SHR
           (IntLiteral rightOffset n tr) e
         = (None, reported rightOffset "shift value out of range" e)).
Proof.
  unfold constantFold; cbn [isBoolLiteral isCompileTimeConstant andb orb negb].
  unfold foldIntLiterals. split.
  - intros Hn.
    destruct (Z.geb_spec n 0); [|lia]. destruct (Z.leb_spec n 31); [|lia].
    cbn [andb]. unfold ret.
    now rewrite uint32_t_shiftl, uint32_t_shiftr by lia.
  - intros Hn.
    destruct (Z.geb_spec n 0); destruct (Z.leb_spec n 31); try lia;
      cbn [andb]; split; reflexivity.
Qed.

(** X3. Folding [a / b] and [a % b] on integer literals, when [b] is not
    zero and the quotient does not overflow: the quotient is truncated
    towards zero, so the two folded literals [q] and [r] satisfy
    [a = q * b + r] with [|r| < |b|], and [r] is zero or has the sign of
    [a]; nothing is reported. *)
Theorem constantFold_int_quotient_remainder
    (offset a : Z) (tl : Ty) (rightOffset b : Z) (tr : Ty) (e : Env)
    (Hnonzero : b <> 0) (Hinrange : a <> INT64_MIN \/ b <> -1) :
  exists q r,
    constantFold (IntLiteral offset a tl) TK_SLASH (IntLiteral rightOffset b tr) e
    = (Some (IntLiteral_new offset q), e)
    /\ constantFold (IntLiteral offset a tl) TK_PERCENT
         (IntLiteral rightOffset b tr) e
       = (Some (IntLiteral_new offset r), e)
    /\ a = q * b + r /\ Z.abs r < Z.abs b /\ 0 <= r * a.
Proof.
  exists (Z.quot a b), (Z.rem a b).
  unfold constantFold; cbn [isBoolLiteral isCompileTimeConstant andb orb negb].
  unfold foldIntLiterals.
  assert (Hguard : (a =? INT64_MIN) && (b =? -1) = false).
  { destruct Hinrange as [Ha | Hb].
    - apply Z.eqb_neq in Ha. now rewrite Ha.
    - apply Z.eqb_neq in Hb. rewrite Hb. apply andb_false_r. }
  rewrite Hguard. apply Z.eqb_neq in Hnonzero as Hzero. rewrite Hzero.
  repeat split; try reflexivity.
  - rewrite Z.mul_comm. apply Z.quot_rem'.
  - now apply Z.rem_bound_abs.
  - apply Z.rem_sign_mul. assumption.
Qed.

Lemma vecDivide_zero (left right : Expression) (idxs : list Z) :
  Exists (fun i => Feqb (getFVecComponent right i) Fzero = true) idxs ->
  vecDivide left right idxs = None.
Proof.
  induction 1 as [i rest Hzero | i rest Hrest IH]; cbn [vecDivide].
  - now rewrite Hzero.
  - rewrite IH. now destruct (Feqb _ _).
Qed.

Lemma vecDivide_nonzero (left right : Expression) (idxs : list Z) :
  Forall (fun i => Feqb (getFVecComponent right i) Fzero = false) idxs ->
  vecDivide left right idxs
  = Some (map (fun i =>
                 FloatLiteral_new (-1)
                   (Fsingle (Fdiv (getFVecComponent left i)
                                  (getFVecComponent right i)))) idxs).
Proof.
  induction 1 as [|i rest Hnonzero Hrest IH]; cbn [vecDivide map];
    [reflexivity|].
  now rewrite Hnonzero, IH.
Qed.

(** X4. Folding the division of two constant vectors of floats of one type
    is componentwise: if a component of the divisor is zero, the fold reports
    "division by zero" at the divisor and yields null; otherwise it yields
    the constructor of the quotients of the components, each rounded to
    [float], and reports nothing. *)
Theorem constantFold_vector_division
    (leftOffset : Z) (leftArguments : list Expression) (rightOffset : Z)
    (rightArguments : list Expression) (t : Ty) (e : Env)
    (Hleft : isCompileTimeConstant (Constructor leftOffset t leftArguments)
             = true)
    (Hright : isCompileTimeConstant (Constructor rightOffset t rightArguments)
              = true)
    (Hvector : typeKind t = kVector)
    (Hfloat : isFloat (componentType t) = true)
    (Hsame : Type_eqb t t = true) :
  let left := Constructor leftOffset t leftArguments in
  let right := Constructor rightOffset t rightArguments in
  (Exists (fun i => Feqb (getFVecComponent right i) Fzero = true)
     (indices (columns t)) ->
   constantFold left TK_SLASH right e
   = (None, reported rightOffset "division by zero" e))
  /\ (Forall (fun i => Feqb (getFVecComponent right i) Fzero = false)
        (indices (columns t)) ->
      constantFold left TK_SLASH right e
      = (Some (Constructor (-1) t
                 (map (fun i =>
                         FloatLiteral_new (-1)
                           (Fsingle (Fdiv (getFVecComponent left i)
                                          (getFVecComponent right i))))
                      (indices (columns t)))), e)).
Proof.
  intros left right.
  assert (Hfold : constantFold left TK_SLASH right e
                  = foldCompound left TK_SLASH right e).
  { unfold constantFold. subst left right.
    rewrite Hleft, Hright. reflexivity. }
  rewrite Hfold. unfold foldCompound. subst left right. cbn [type_of offset_of].
  rewrite Hvector, Hfloat, Hsame. cbn [TypeKind_eqb andb].
  split; intros Hcomponents.
  - now rewrite (vecDivide_zero _ _ _ Hcomponents).
  - now rewrite (vecDivide_nonzero _ _ _ Hcomponents).
Qed.

(** ** The types of a binary expression, the remaining rules *)

Lemma isScalar_not_compound (t : Ty) :
  isScalar t = true -> isVectorOrMatrix t = false.
Proof.
  unfold isScalar, isVectorOrMatrix. intros H.
  apply TypeKind_eqb_eq in H. now rewrite H.
Qed.

Lemma compound_not_scalar (t : Ty) :
  isVectorOrMatrix t = true -> isScalar t = false.
Proof.
  unfold isScalar, isVectorOrMatrix. destruct (typeKind t); cbn; congruence.
Qed.

(** X5. The relational operators [<], [>], [<=] and [>=] apply to scalars
    only: when [determine_binary_type] accepts one of them, both operands
    are scalars, both are coerced to the type of one of them, and the result
    is [bool].  A vector or a matrix is never compared by them. *)
Theorem determine_binary_type_relational
    (op : TokenKind) (left right : Ty) (result : BinaryTypes)
    (Hop : isRelational op = true)
    (Haccepted : determine_binary_type op left right = Some result) :
  isScalar left = true /\ isScalar right = true
  /\ outLeftType result = outRightType result
  /\ (outLeftType result = left \/ outLeftType result = right)
  /\ outResultType result = fBool_Type.
Proof.
  unfold determine_binary_type, determine_binary_type_fuel in Haccepted.
  destruct op; try discriminate Hop;
    cbn [determine_binary_type_body] in Haccepted;
    unfold determine_binary_type_tail in Haccepted;
    rewrite !andb_false_r in Haccepted; cbn [andb orb] in Haccepted;
    rewrite orb_false_r in Haccepted;
    fold (isScalar left) in Haccepted; fold (isScalar right) in Haccepted;
    (destruct (isScalar left); [|discriminate]);
    (destruct (isScalar right); [|discriminate]);
    cbn [andb] in Haccepted;
    (destruct (coercionCost right left <? _);
     [| destruct (negb _); [|discriminate]]);
    inversion Haccepted; cbn; tauto.
Qed.

(** The assignment operators other than the logical ones. *)
Lemma IsAssignment_cases (op : TokenKind) :
  IsAssignment op = true ->
  op = TK_LOGICALOREQ \/ op = TK_LOGICALXOREQ \/ op = TK_LOGICALANDEQ
  \/ In op [TK_EQ; TK_PLUSEQ; TK_MINUSEQ; TK_STAREQ; TK_SLASHEQ; TK_PERCENTEQ;
            TK_SHLEQ; TK_SHREQ; TK_BITWISEOREQ; TK_BITWISEXOREQ;
            TK_BITWISEANDEQ].
Proof. destruct op; cbn; intros H; try discriminate H; tauto. Qed.

(** X6. An assignment never converts its left operand.  For [=] and for a
    compound assignment other than the logical ones, on two scalars, the
    expression is legal exactly when the right operand coerces to the type
    of the left one, and then both operands and the result have the type of
    the left operand. *)
Theorem determine_binary_type_assignment
    (op : TokenKind) (left right : Ty)
    (Hop : IsAssignment op = true)
    (Hnotlogical : op <> TK_LOGICALOREQ /\ op <> TK_LOGICALXOREQ
                   /\ op <> TK_LOGICALANDEQ)
    (Hleft : isScalar left = true) (Hright : isScalar right = true)
    (Hcost : coercionCost right left <= INT_MAX) :
  determine_binary_type op left right
  = if canCoerceTo right left then
      Some {| outLeftType := left; outRightType := left;
              outResultType := left |}
    else None.
Proof.
  pose proof (isScalar_not_compound left Hleft) as Hvl.
  pose proof (isScalar_not_compound right Hright) as Hvr.
  assert (Hmm : is_matrix_multiply left right = false).
  { unfold is_matrix_multiply. unfold isScalar in Hleft.
    apply TypeKind_eqb_eq in Hleft. now rewrite Hleft. }
  assert (Hcoerce : canCoerceTo right left
                    = (coercionCost right left <? INT_MAX)).
  { unfold canCoerceTo.
    destruct (Z.eqb_spec (coercionCost right left) INT_MAX);
      destruct (Z.ltb_spec (coercionCost right left) INT_MAX);
      cbn [negb]; try reflexivity; lia. }
  unfold isScalar in Hleft, Hright.
  unfold determine_binary_type, determine_binary_type_fuel.
  destruct (IsAssignment_cases op Hop) as [H | [H | [H | H]]];
    try (exfalso; tauto).
  cbn [In] in H.
  repeat (destruct H as [<- | H]); try contradiction;
    cbn [determine_binary_type_body IsAssignment]; rewrite ?Hmm;
    try reflexivity;
    unfold determine_binary_type_tail; cbn [IsAssignment];
    rewrite Hvl, Hvr, Hleft, Hright; cbn [andb orb negb];
    rewrite Hcoerce;
    destruct (coercionCost right left <? INT_MAX); reflexivity.
Qed.

(** On two scalars, [determine_binary_type] does not call itself. *)
Lemma determine_binary_type_body_scalars
    (rec1 rec2 : TokenKind -> Ty -> Ty -> option BinaryTypes)
    (op : TokenKind) (left right : Ty) :
  isScalar left = true -> isScalar right = true ->
  determine_binary_type_body rec1 op left right
  = determine_binary_type_body rec2 op left right.
Proof.
  intros Hleft Hright.
  pose proof (isScalar_not_compound left Hleft) as Hvl.
  pose proof (isScalar_not_compound right Hright) as Hvr.
  assert (Hmm : is_matrix_multiply left right = false).
  { unfold is_matrix_multiply. unfold isScalar in Hleft.
    apply TypeKind_eqb_eq in Hleft. now rewrite Hleft. }
  destruct op; cbn [determine_binary_type_body]; rewrite ?Hmm;
    try reflexivity;
    unfold determine_binary_type_tail;
    rewrite Hvl, Hvr; cbn [andb]; rewrite ?andb_false_r; reflexivity.
Qed.

(** X7. An arithmetic operator on a vector or a matrix and a scalar is typed
    by its scalars: [determine_binary_type] types the operator on the
    component type of the left operand and the right operand, gives the left
    operand and the result the shape of the left operand, and leaves the
    right operand a scalar.  It is illegal exactly when the operator is
    illegal on the components. *)
Theorem determine_binary_type_vector_scalar
    (op : TokenKind) (left right : Ty)
    (Hop : In op [TK_PLUS; TK_MINUS; TK_STAR; TK_SLASH; TK_PERCENT;
                  TK_PLUSEQ; TK_MINUSEQ; TK_STAREQ; TK_SLASHEQ; TK_PERCENTEQ;
                  TK_SHLEQ; TK_SHREQ])
    (Hleft : isVectorOrMatrix left = true)
    (Hcomponent : isScalar (componentType left) = true)
    (Hright : isScalar right = true) :
  determine_binary_type op left right
  = match determine_binary_type op (componentType left) right with
    | Some r =>
        Some {| outLeftType :=
                  toCompound (outLeftType r) (columns left) (rows left);
                outRightType := outRightType r;
                outResultType :=
                  toCompound (outResultType r) (columns left) (rows left) |}
    | None => None
    end.
Proof.
  assert (Hmm : is_matrix_multiply left right = false).
  { unfold is_matrix_multiply. unfold isScalar in Hright.
    apply TypeKind_eqb_eq in Hright. rewrite Hright.
    cbn [TypeKind_eqb orb]. rewrite andb_false_r.
    now destruct (TypeKind_eqb (typeKind left) kMatrix). }
  unfold determine_binary_type.
  change (determine_binary_type_fuel 2 op (componentType left) right)
    with (determine_binary_type_body (determine_binary_type_fuel 1) op
            (componentType left) right).
  rewrite (determine_binary_type_body_scalars (determine_binary_type_fuel 1)
             (determine_binary_type_fuel 0) op _ _ Hcomponent Hright).
  change (determine_binary_type_body (determine_binary_type_fuel 0) op
            (componentType left) right)
    with (determine_binary_type_fuel 1 op (componentType left) right).
  change (determine_binary_type_fuel 2 op left right)
    with (determine_binary_type_body (determine_binary_type_fuel 1) op
            left right).
  unfold isScalar in Hright.
  cbn [In] in Hop.
  repeat (destruct Hop as [<- | Hop]); try contradiction;
    cbn [determine_binary_type_body]; rewrite ?Hmm;
    unfold determine_binary_type_tail at 1;
    rewrite Hleft, Hright; cbn [andb negb]; reflexivity.
Qed.

(** ** Assignment targets *)

Lemma checkSwizzleWrite_outcome (base : Expression) (components : list Z)
    (e : Env) :
  (fst (checkSwizzleWrite base components e) = true ->
   snd (checkSwizzleWrite base components e) = e)
  /\ (fst (checkSwizzleWrite base components e) = false ->
      exists msg,
        snd (checkSwizzleWrite base components e)
        = reported (offset_of base) msg e).
Proof.
  unfold checkSwizzleWrite.
  destruct (checkSwizzleWrite_loop_spec (offset_of base) components 0 [] e)
    as (_ & Hsame & Herr); [|split; assumption].
  intros n Hn. rewrite Z.bits_0. cbn. split; [discriminate | tauto].
Qed.

(** X8. [setRefKind] reports an error exactly when it refuses the target:
    when it returns true the state of the generator is as it was, and when
    it returns false exactly one error has been reported. *)
Theorem setRefKind_reports_once
    (expr : Expression) (refKind : RefKind) (e : Env) :
  (fst (fst (setRefKind expr refKind e)) = true ->
   snd (setRefKind expr refKind e) = e)
  /\ (fst (fst (setRefKind expr refKind e)) = false ->
      exists offset msg, snd (setRefKind expr refKind e) = reported offset msg e).
Proof.
  revert e.
  induction expr; intros e; cbn [setRefKind];
    try (split; [discriminate | intros _; do 2 eexists; reflexivity]).
  - (* ExternalValueReference *)
    destruct (ExternalValue_canWrite fValue); cbn;
      (split; [try discriminate; reflexivity
              | try discriminate; intros _; do 2 eexists; reflexivity]).
  - (* FieldAccess *)
    unfold bind. specialize (IHexpr e).
    destruct (setRefKind expr refKind e) as [[ok expr'] e']. exact IHexpr.
  - (* IndexExpression *)
    unfold bind. specialize (IHexpr1 e).
    destruct (setRefKind expr1 refKind e) as [[ok expr'] e']. exact IHexpr1.
  - (* Swizzle *)
    unfold bind.
    destruct (checkSwizzleWrite_outcome expr fComponents e) as [Hok Hrefused].
    destruct (checkSwizzleWrite expr fComponents e) as [ok e0].
    cbn [fst snd] in Hok, Hrefused. destruct ok.
    + rewrite (Hok eq_refl). specialize (IHexpr e).
      destruct (setRefKind expr refKind e) as [[ok expr'] e']. exact IHexpr.
    + cbn. split; [discriminate|]. intros _.
      destruct (Hrefused eq_refl) as [msg Hmsg]. eauto.
  - (* TernaryExpression *)
    unfold bind. specialize (IHexpr2 e).
    destruct (setRefKind expr2 refKind e) as [[ok1 ifTrue'] e1].
    cbn [fst snd] in IHexpr2 |- *. destruct ok1.
    + destruct IHexpr2 as [Hsame _]. rewrite (Hsame eq_refl).
      specialize (IHexpr3 e).
      destruct (setRefKind expr3 refKind e) as [[ok2 ifFalse'] e2].
      exact IHexpr3.
    + cbn. split; [discriminate|]. intros _. now apply IHexpr2.
  - (* VariableReference *)
    destruct (hasFlag _ _); cbn;
      (split; [try discriminate; reflexivity
              | try discriminate; intros _; do 2 eexists; reflexivity]).
Qed.

(** X9. [setRefKind] changes the reference kinds and nothing else: the
    expression it leaves has the type and the offset of the one it was
    given, and when it returns true every variable reference that the
    assignment writes through has the requested kind. *)
Theorem setRefKind_sets_kinds
    (expr : Expression) (refKind : RefKind) (e : Env) :
  type_of (snd (fst (setRefKind expr refKind e))) = type_of expr
  /\ offset_of (snd (fst (setRefKind expr refKind e))) = offset_of expr
  /\ (fst (fst (setRefKind expr refKind e)) = true ->
      Forall (eq refKind)
        (targetRefKinds (snd (fst (setRefKind expr refKind e))))).
Proof.
  revert e.
  induction expr; intros e; cbn [setRefKind];
    try (cbn; repeat split; discriminate).
  - (* ExternalValueReference *)
    destruct (ExternalValue_canWrite fValue); unfold bind, ret; cbn; repeat split;
      try discriminate; constructor.
  - (* FieldAccess *)
    unfold bind, ret. specialize (IHexpr e).
    destruct (setRefKind expr refKind e) as [[ok expr'] e'].
    cbn [fst snd type_of offset_of targetRefKinds] in *.
    destruct IHexpr as (Htype & Hoffset & Hkinds).
    rewrite Htype. auto.
  - (* IndexExpression *)
    unfold bind, ret. specialize (IHexpr1 e).
    destruct (setRefKind expr1 refKind e) as [[ok expr'] e'].
    cbn [fst snd type_of offset_of targetRefKinds] in *.
    destruct IHexpr1 as (Htype & Hoffset & Hkinds).
    rewrite Htype. auto.
  - (* Swizzle *)
    unfold bind, ret.
    destruct (checkSwizzleWrite expr fComponents e) as [ok e0]. destruct ok.
    + specialize (IHexpr e0).
      destruct (setRefKind expr refKind e0) as [[ok expr'] e'].
      cbn [fst snd type_of offset_of targetRefKinds] in *.
      destruct IHexpr as (Htype & Hoffset & Hkinds).
      rewrite Htype. auto.
    + cbn. repeat split. discriminate.
  - (* TernaryExpression *)
    unfold bind, ret. specialize (IHexpr2 e).
    destruct (setRefKind expr2 refKind e) as [[ok1 ifTrue'] e1].
    cbn [fst snd] in IHexpr2 |- *.
    destruct IHexpr2 as (Htype1 & Hoffset1 & Hkinds1). destruct ok1.
    + specialize (IHexpr3 e1).
      destruct (setRefKind expr3 refKind e1) as [[ok2 ifFalse'] e2].
      cbn [fst snd type_of offset_of targetRefKinds] in *.
      destruct IHexpr3 as (Htype2 & Hoffset2 & Hkinds2).
      repeat split; auto.
      intros Hok. apply Forall_app. auto.
    + cbn [fst snd type_of offset_of]. repeat split; auto. discriminate.
  - (* VariableReference *)
    destruct (hasFlag _ _); cbn; repeat split; try discriminate.
    intros _. constructor; [reflexivity | constructor].
Qed.

(** ** Fields and swizzled scalars *)

Lemma fieldIndex_found (field : string) (fs : list (string * Ty)) :
  forall start i,
    fieldIndex field fs start = Some i ->
    start <= i
    /\ (exists t, nth_error fs (Z.to_nat (i - start)) = Some (field, t))
    /\ (forall j n t, (j < Z.to_nat (i - start))%nat ->
          nth_error fs j = Some (n, t) -> n <> field).
Proof.
  induction fs as [|[n t] fs IH]; intros start i Hfound; [discriminate|].
  cbn [fieldIndex] in Hfound.
  destruct (String.eqb_spec n field) as [-> | Hne].
  - inversion Hfound; subst. rewrite Z.sub_diag. cbn.
    split; [lia|]. split; [eauto|]. intros j n' t' Hj. lia.
  - destruct (IH _ _ Hfound) as (Hle & [t' Hnth] & Hfirst).
    replace (Z.to_nat (i - start)) with (S (Z.to_nat (i - (start + 1))))
      by lia.
    split; [lia|]. split; [exists t'; exact Hnth|].
    intros [|j] n' t'' Hj Hnth'.
    + cbn in Hnth'. inversion Hnth'; subst. exact Hne.
    + cbn in Hnth'. apply (Hfirst j n' t''); [lia | exact Hnth'].
Qed.

Lemma fieldIndex_missing (field : string) (fs : list (string * Ty)) :
  forall start,
    fieldIndex field fs start = None <-> ~ In field (map fst fs).
Proof.
  induction fs as [|[n t] fs IH]; intros start; cbn [fieldIndex map fst In].
  - tauto.
  - destruct (String.eqb_spec n field) as [-> | Hne].
    + split; [discriminate | intros H; exfalso; apply H; now left].
    + rewrite IH. tauto.
Qed.

(** X10. [convertField], on a base that is not an external value, looks the
    name up among the fields of the type of the base.  When a field has the
    name, the result is the access to the first such field, its type is the
    declared type of that field and nothing is reported; when no field has
    the name, one error is reported at the base and the result is null. *)
Theorem convertField_first_field (base : Expression) (field : string) (e : Env)
    (Hbase : kind base <> Expression_kExternalValue) :
  (In field (map fst (fields (type_of base))) ->
   exists i t,
     convertField base field e
     = (Some (FieldAccess base i kDefault_OwnerKind), e)
     /\ 0 <= i
     /\ nth_error (fields (type_of base)) (Z.to_nat i) = Some (field, t)
     /\ (forall j n t', (j < Z.to_nat i)%nat ->
           nth_error (fields (type_of base)) j = Some (n, t') -> n <> field)
     /\ type_of (FieldAccess base i kDefault_OwnerKind) = t)
  /\ (~ In field (map fst (fields (type_of base))) ->
      convertField base field e
      = (None,
         reported (offset_of base)
           ("type '" +++ displayName (type_of base) +++
            "' does not have a field " +++ "named '" +++ field +++ "") e)).
Proof.
  assert (Hgeneral :
    convertField base field e
    = match fieldIndex field (fields (type_of base)) 0 with
      | Some i => (Some (FieldAccess base i kDefault_OwnerKind), e)
      | None =>
          (None,
           reported (offset_of base)
             ("type '" +++ displayName (type_of base) +++
              "' does not have a field " +++ "named '" +++ field +++ "") e)
      end).
  { unfold convertField.
    destruct base; try (exfalso; apply Hbase; reflexivity);
      destruct (fieldIndex field _ 0); reflexivity. }
  rewrite Hgeneral. split.
  - intros Hin.
    destruct (fieldIndex field (fields (type_of base)) 0) as [i|] eqn:Hindex.
    + destruct (fieldIndex_found _ _ _ _ Hindex) as (Hle & [t Hnth] & Hfirst).
      rewrite Z.sub_0_r in Hnth, Hfirst.
      exists i, t. repeat split; auto.
      cbn [type_of]. now rewrite Hnth.
    + apply fieldIndex_missing in Hindex. contradiction.
  - intros Hmissing. apply (fieldIndex_missing field _ 0) in Hmissing.
    now rewrite Hmissing.
Qed.

Lemma swizzleRun_length (expr : Expression) (offset count : Z) :
  0 <= count ->
  Z.of_nat (List.length (swizzleRun expr offset count))
  = if 0 <? count then 1 else 0.
Proof.
  intros Hcount. unfold swizzleRun.
  destruct (Z.eqb_spec count 0) as [-> | Hne]; [reflexivity|].
  destruct (Z.ltb_spec 0 count); [|lia].
  now destruct (count >? 1).
Qed.

Lemma swizzleArguments_length (expr : Expression) (offset : Z)
    (components : list Z) :
  Forall (fun c => c = 0 \/ c = SKSL_SWIZZLE_0 \/ c = SKSL_SWIZZLE_1)
    components ->
  forall count,
    0 <= count ->
    Z.of_nat (List.length (swizzleArguments expr offset count components))
    = count_chunks (0 <? count) components
      + (if 0 <? count then 1 else 0)
      + Z.of_nat (List.length (filter (fun c => negb (c =? 0)) components)).
Proof.
  pose proof SKSL_SWIZZLE_0_negative as Hzero.
  pose proof SKSL_SWIZZLE_1_negative as Hone.
  induction 1 as [|c rest Hc Hrest IH]; intros count Hcount;
    cbn [swizzleArguments count_chunks filter].
  - rewrite swizzleRun_length by assumption. cbn. lia.
  - destruct (Z.eqb_spec c 0) as [-> | Hne]; cbn [negb].
    + rewrite IH by lia.
      destruct (Z.ltb_spec 0 (count + 1)); [|lia].
      destruct (0 <? count); lia.
    + rewrite !length_app, !Nat2Z.inj_add, swizzleRun_length by assumption.
      rewrite (IH 0) by lia. cbn [List.length]. change (0 <? 0) with false.
      assert (Hliteral :
        Z.of_nat
          (List.length
             (if c =? SKSL_SWIZZLE_0
              then [IntLiteral_new offset 0 : Expression]
              else if c =? SKSL_SWIZZLE_1 then [IntLiteral_new offset 1]
              else [])) = 1).
      { destruct Hc as [-> | [-> | ->]]; [contradiction | |].
        - now rewrite Z.eqb_refl.
        - rewrite Z.eqb_refl. now destruct (SKSL_SWIZZLE_1 =? SKSL_SWIZZLE_0). }
      rewrite Hliteral. lia.
Qed.

Lemma count_chunks_bounds (components : list Z) :
  forall inChunk,
    0 <= count_chunks inChunk components
    <= Z.of_nat (List.length (filter (fun c => c =? 0) components)).
Proof.
  induction components as [|c rest IH]; intros inChunk;
    cbn [count_chunks filter]; [cbn; lia|].
  destruct (c =? 0).
  - specialize (IH true). cbn [List.length]. destruct inChunk; lia.
  - apply IH.
Qed.

(** X11. The constructor that a swizzled scalar becomes has one argument for
    each run of components [x] of the mask and one for each literal [0] or
    [1]: the scalar is used [count_contiguous_swizzle_chunks] times, which is
    at most the number of components [x]. *)
Theorem swizzleArguments_per_chunk (expr : Expression) (offset : Z)
    (components : list Z)
    (Hcomponents :
       Forall (fun c => c = 0 \/ c = SKSL_SWIZZLE_0 \/ c = SKSL_SWIZZLE_1)
         components) :
  Z.of_nat (List.length (swizzleArguments expr offset 0 components))
  = count_contiguous_swizzle_chunks components
    + Z.of_nat (List.length (filter (fun c => negb (c =? 0)) components))
  /\ 0 <= count_contiguous_swizzle_chunks components
     <= Z.of_nat (List.length (filter (fun c => c =? 0) components)).
Proof.
  split.
  - rewrite (swizzleArguments_length expr offset components Hcomponents 0)
      by lia.
    unfold count_contiguous_swizzle_chunks. change (0 <? 0) with false. lia.
  - apply count_chunks_bounds.
Qed.

(** ** Modifiers *)

Lemma hasFlag_permitted (flags permitted flag : Z) :
  Z.land flags (Z.lnot permitted) = 0 ->
  hasFlag flags flag = true -> hasFlag permitted flag = true.
Proof.
  unfold hasFlag. intros Hsubset Hflag.
  apply negb_true_iff in Hflag. apply Z.eqb_neq in Hflag.
  apply negb_true_iff. apply Z.eqb_neq. intros Hzero. apply Hflag.
  apply Z.bits_inj'. intros n Hn.
  assert (H1 := f_equal (fun z => Z.testbit z n) Hsubset).
  assert (H2 := f_equal (fun z => Z.testbit z n) Hzero).
  cbn beta in H1, H2.
  rewrite Z.land_spec, Z.lnot_spec, Z.bits_0 in H1 by assumption.
  rewrite Z.land_spec, Z.bits_0 in H2.
  rewrite Z.land_spec, Z.bits_0.
  destruct (Z.testbit flags n), (Z.testbit permitted n), (Z.testbit flag n);
    cbn in *; congruence.
Qed.

Lemma land_lnot_subset (flags permitted flag : Z) :
  Z.land flags (Z.lnot permitted) = 0 ->
  Z.land (Z.land flags (Z.lnot flag)) (Z.lnot permitted) = 0.
Proof.
  intros Hsubset.
  rewrite <- Z.land_assoc, (Z.land_comm (Z.lnot flag)), Z.land_assoc, Hsubset.
  apply Z.land_0_l.
Qed.

Lemma checkModifiers_loop_permitted (offset : Z) (permitted : Z)
    (checks : list (Z * string)) (e : Env) :
  forall flags,
    Z.land flags (Z.lnot permitted) = 0 ->
    checkModifiers_loop offset flags permitted checks e = (tt, e).
Proof.
  induction checks as [|[flag n] checks IH]; intros flags Hsubset;
    cbn [checkModifiers_loop]; [reflexivity|].
  destruct (flags =? 0); [reflexivity|].
  destruct (hasFlag flags flag) eqn:Hflag.
  - rewrite (hasFlag_permitted flags permitted flag Hsubset Hflag).
    unfold bind, errorIf. cbn [negb ret].
    apply IH. now apply land_lnot_subset.
  - now apply IH.
Qed.

(** X12. [checkModifiers] accepts every set of permitted modifiers in
    silence: when each flag of the modifiers is among the permitted ones
    ([flags & ~permitted] is zero), nothing is reported and the state of the
    generator is as it was. *)
Theorem checkModifiers_permitted
    (offset : Z) (modifiers : Modifiers) (permitted : Z) (e : Env)
    (Hsubset : Z.land (fFlags modifiers) (Z.lnot permitted) = 0) :
  checkModifiers offset modifiers permitted e = (tt, e).
Proof.
  unfold checkModifiers. now apply checkModifiers_loop_permitted.
Qed.

Lemma with_fErrors_same (e : Env) : with_fErrors (fErrors e ++ []) e = e.
Proof. destruct e. unfold with_fErrors. cbn. now rewrite app_nil_r. Qed.

Lemma with_fErrors_twice (l1 l2 : list (Z * string)) (e : Env) :
  with_fErrors (fErrors (with_fErrors (fErrors e ++ l1) e) ++ l2)
    (with_fErrors (fErrors e ++ l1) e)
  = with_fErrors (fErrors e ++ l1 ++ l2) e.
Proof. unfold with_fErrors. cbn. now rewrite app_assoc. Qed.

Lemma hasFlag_cleared (flags flag other : Z) :
  Z.land flag other = 0 ->
  hasFlag (Z.land flags (Z.lnot flag)) other = hasFlag flags other.
Proof.
  intros Hdisjoint. unfold hasFlag. f_equal. f_equal.
  apply Z.bits_inj'. intros n Hn.
  assert (H := f_equal (fun z => Z.testbit z n) Hdisjoint). cbn beta in H.
  rewrite Z.land_spec, Z.bits_0 in H.
  rewrite !Z.land_spec, Z.lnot_spec by assumption.
  destruct (Z.testbit flags n), (Z.testbit flag n), (Z.testbit other n);
    cbn in *; congruence.
Qed.

Lemma filter_none {A : Type} (f : A -> bool) (l : list A) :
  (forall a, In a l -> f a = false) -> filter f l = [].
Proof.
  induction l as [|a l IH]; intros Hnone; cbn [filter]; [reflexivity|].
  rewrite (Hnone a) by now left. apply IH. intros b Hb. apply Hnone. now right.
Qed.

Lemma hasFlag_zero (flag : Z) : hasFlag 0 flag = false.
Proof. unfold hasFlag. now rewrite Z.land_0_l. Qed.

Lemma checkModifiers_loop_errors (offset permitted flags0 : Z)
    (checks : list (Z * string)) :
  flagsDisjoint checks ->
  forall (flags : Z) (e : Env),
    (forall c, In c checks -> hasFlag flags (fst c) = hasFlag flags0 (fst c)) ->
    checkModifiers_loop offset flags permitted checks e
    = (tt,
       with_fErrors
         (fErrors e
          ++ map (notPermitted offset)
               (forbiddenModifiers flags0 permitted checks)) e).
Proof.
  unfold flagsDisjoint, forbiddenModifiers.
  induction 1 as [|[flag n] checks Hhead Htail IH]; intros flags e Hagree;
    cbn [checkModifiers_loop filter map].
  - now rewrite with_fErrors_same.
  - destruct (Z.eqb_spec flags 0) as [-> | Hnonzero].
    + assert (Hnone :
        filter (fun c => hasFlag flags0 (fst c) && negb (hasFlag permitted (fst c)))
          ((flag, n) :: checks) = []).
      { apply filter_none. intros c Hc.
        rewrite <- (Hagree c Hc), hasFlag_zero. reflexivity. }
      cbn [filter] in Hnone. rewrite Hnone. cbn [map].
      now rewrite with_fErrors_same.
    + assert (Hflag : hasFlag flags0 flag = hasFlag flags flag)
        by (symmetry; apply (Hagree (flag, n)); now left).
      cbn [fst]. rewrite Hflag.
      destruct (hasFlag flags flag) eqn:Hset; cbn [andb].
      * assert (Hrest : forall c, In c checks ->
                  hasFlag (Z.land flags (Z.lnot flag)) (fst c)
                  = hasFlag flags0 (fst c)).
        { intros c Hc. rewrite <- (Hagree c) by now right.
          apply hasFlag_cleared.
          rewrite Forall_forall in Hhead. apply (Hhead c Hc). }
        unfold bind, errorIf.
        destruct (hasFlag permitted flag); cbn [negb].
        -- unfold ret. now apply IH.
        -- unfold error, modify.
           rewrite (IH _ _ Hrest). cbn [map]. f_equal.
           apply (with_fErrors_twice [notPermitted offset (flag, n)]).
      * apply IH. intros c Hc. apply Hagree. now right.
Qed.

(** X13. When no two modifier flags share a bit, [checkModifiers] reports
    exactly the modifiers that are set and not permitted, each once, as
    "'<name>' is not permitted here" at the given offset and in the order of
    its checks; it changes nothing else. *)
Theorem checkModifiers_reports_forbidden
    (offset : Z) (modifiers : Modifiers) (permitted : Z) (e : Env)
    (Hdisjoint : flagsDisjoint modifierNames) :
  checkModifiers offset modifiers permitted e
  = (tt,
     with_fErrors
       (fErrors e
        ++ map (notPermitted offset)
             (forbiddenModifiers (fFlags modifiers) permitted modifierNames))
       e).
Proof.
  unfold checkModifiers.
  apply (checkModifiers_loop_errors offset permitted (fFlags modifiers)
           modifierNames Hdisjoint).
  reflexivity.
Qed.

(** ** Statements *)

Lemma needsScope_scoped (offset : Z) (statements : list Statement) :
  needsScope (Block offset statements true) = false.
Proof. reflexivity. Qed.

(** X14. [ensure_scoped_blocks] leaves a statement whose walk down the
    nested blocks ends on an explicit scope or on a single statement that is
    not a block; so applying it twice is applying it once.  It touches
    nothing but the scope flag of the outermost block, which it only ever
    sets: the offset and the statements of a block are kept, and a statement
    that is not a block is returned as it is. *)
Theorem ensure_scoped_blocks_idempotent (stmt : Statement) :
  needsScope (ensure_scoped_blocks stmt) = false
  /\ ensure_scoped_blocks (ensure_scoped_blocks stmt)
     = ensure_scoped_blocks stmt
  /\ match stmt with
     | Block offset statements isScope =>
         exists isScope',
           ensure_scoped_blocks stmt = Block offset statements isScope'
           /\ (isScope = true -> isScope' = true)
     | _ => ensure_scoped_blocks stmt = stmt
     end.
Proof.
  assert (Hneeds : needsScope (ensure_scoped_blocks stmt) = false).
  { destruct stmt; try reflexivity. unfold ensure_scoped_blocks.
    destruct (needsScope (Block fOffset fStatements fIsScope)) eqn:Hneeds;
      [reflexivity | exact Hneeds]. }
  split; [exact Hneeds|]. split.
  - destruct (ensure_scoped_blocks stmt) eqn:Hresult; try reflexivity.
    unfold ensure_scoped_blocks at 1. now rewrite Hneeds.
  - destruct stmt; try reflexivity. unfold ensure_scoped_blocks.
    destruct (needsScope (Block fOffset fStatements fIsScope)) eqn:Hn.
    + exists true. split; reflexivity.
    + exists fIsScope. split; [reflexivity | tauto].
Qed.

Lemma int32_t_congruent (v w : Z) :
  int32_t v = int32_t w <-> (v - w) mod 2 ^ 32 = 0.
Proof.
  unfold int32_t. change 4294967296 with (2 ^ 32).
  split; intros H.
  - assert (Hmod : (v + 2147483648) mod 2 ^ 32 = (w + 2147483648) mod 2 ^ 32)
      by lia.
    replace (v - w) with ((v + 2147483648) - (w + 2147483648)) by lia.
    rewrite Zminus_mod, Hmod, Z.sub_diag. reflexivity.
  - assert (Hmod : (v + 2147483648) mod 2 ^ 32 = (w + 2147483648) mod 2 ^ 32).
    { replace (v + 2147483648) with ((v - w) + (w + 2147483648)) by lia.
      rewrite Z.add_mod, H by lia. cbn [Z.add].
      now rewrite Z.mod_mod by lia. }
    lia.
Qed.

(** X15. The values of the cases of a switch are compared as 32-bit
    integers.  A case whose value is the integer literal [v], of the type of
    the switch value, is always converted, to that literal; "duplicate case
    value" is reported at it exactly when a case before it has a value
    that differs from [v] by a multiple of 2^32, and nothing else is
    reported. *)
Theorem convertCaseValue_duplicates
    (valueType : Ty) (earlier : list Z) (offset v : Z) (e : Env)
    (Htype : Type_eqb IntLiteral_Type valueType = true) :
  let caseValues := map int32_t earlier in
  fst (convertCaseValue valueType caseValues (kInt offset v) e)
  = Some (Some (IntLiteral_new offset v), int32_t v :: caseValues)
  /\ ((exists w, In w earlier /\ (v - w) mod 2 ^ 32 = 0) ->
      snd (convertCaseValue valueType caseValues (kInt offset v) e)
      = reported offset "duplicate case value" e)
  /\ ((forall w, In w earlier -> (v - w) mod 2 ^ 32 <> 0) ->
      snd (convertCaseValue valueType caseValues (kInt offset v) e) = e).
Proof.
  intros caseValues.
  assert (Hrun :
    convertCaseValue valueType caseValues (kInt offset v) e
    = (Some (Some (IntLiteral_new offset v), int32_t v :: caseValues),
       if existsb (Z.eqb (int32_t v)) caseValues
       then reported offset "duplicate case value" e else e)).
  { unfold convertCaseValue. cbn [ASTNode_present convertExpression].
    unfold coerce, IntLiteral_new, bindNull, bind, ret. cbn [type_of].
    rewrite Htype. cbn [getConstantInt offset_of]. unfold errorIf.
    destruct (existsb (Z.eqb (int32_t v)) caseValues); reflexivity. }
  rewrite Hrun. cbn [fst snd]. split; [reflexivity|]. split.
  - intros (w & Hin & Hcongruent).
    assert (Hexists : existsb (Z.eqb (int32_t v)) caseValues = true).
    { apply existsb_exists. exists (int32_t w). split.
      - subst caseValues. now apply in_map.
      - apply Z.eqb_eq. now apply int32_t_congruent. }
    now rewrite Hexists.
  - intros Hfresh.
    assert (Hexists : existsb (Z.eqb (int32_t v)) caseValues = false).
    { apply not_true_is_false. intros Hexists.
      apply existsb_exists in Hexists as (x & Hin & Heq).
      subst caseValues. apply in_map_iff in Hin as (w & <- & Hw).
      apply Z.eqb_eq in Heq. apply int32_t_congruent in Heq.
      exact (Hfresh w Hw Heq). }
    now rewrite Hexists.
Qed.

(** X16. In a block or in a switch case, the conversion stops at the first
    statement that fails: the result is null, the state is the one that the
    failing statement left, and no statement after it is converted. *)
Theorem convertStatements_stops_at_failure
    (rec : ASTNode -> Conv (option Statement))
    (before : list ASTNode) (failing : ASTNode) (after : list ASTNode)
    (converted : list Statement) (g g1 g2 : IRGenerator)
    (Hbefore : convertStatements rec before g = (Some converted, g1))
    (Hfailing : rec failing g1 = (None, g2)) :
  convertStatements rec (before ++ failing :: after) g = (None, g2).
Proof.
  revert converted g Hbefore.
  induction before as [|child before IH]; intros converted g Hbefore.
  - cbn in Hbefore. inversion Hbefore; subst.
    cbn [app convertStatements]. unfold bindNull, bind. now rewrite Hfailing.
  - cbn [app convertStatements] in Hbefore |- *.
    unfold bindNull, bind in Hbefore |- *.
    destruct (rec child g) as [[statement|] g0]; [|discriminate].
    destruct (convertStatements rec before g0) as [[statements|] g0'] eqn:Hrest;
      [|discriminate].
    unfold ret in Hbefore. inversion Hbefore; subst.
    now rewrite (IH statements g0 Hrest).
Qed.

(** X17. What the conversion of a statement sets aside in
    [fExtraStatements] (the temporary of a swizzle, an inlined body) goes
    into its result and never reaches the next statement.
    [convertStatement] converts the statement with [fExtraStatements]
    empty; when that yields a statement and has set statements aside, the
    result is the block, not a scope, of the statements set aside, in
    their order, followed by the statement; when nothing was set aside the
    result is the statement; and null stays null.  In each case
    [fExtraStatements] is afterwards what it was before the call, and the
    rest of the state is what the conversion left.  The program is not a
    geometry program, where the conversion of an expression statement can
    dereference null. *)
Theorem convertStatement_extra_statements
    (statement : ASTNode) (g : IRGenerator)
    (Hcollaborators : collaboratorsFrame keepsKind)
    (Hkind : fKind (env g) <> kGeometry_Kind) :
  let single :=
    convertSingleStatement convertStatement statement
      {| env := with_fExtraStatements [] (env g);
         fLoopLevel := fLoopLevel g; fSwitchLevel := fSwitchLevel g |} in
  let setAside := fExtraStatements (env (snd single)) in
  convertStatement statement g
  = (match fst single with
     | None => None
     | Some result =>
         Some match setAside with
              | [] => result
              | _ :: _ => Block (-1) (setAside ++ [result]) false
              end
     end,
     {| env := with_fExtraStatements (fExtraStatements (env g))
                 (env (snd single));
        fLoopLevel := fLoopLevel (snd single);
        fSwitchLevel := fSwitchLevel (snd single) |})
  /\ fExtraStatements (env (snd (convertStatement statement g)))
     = fExtraStatements (env g).
Proof.
  cbv zeta. rewrite convertStatement_unfold. unfold convertStatement_body.
  unfold bind, liftGen, gets, modify, ret. cbn [env fLoopLevel fSwitchLevel].
  destruct (convertSingleStatement convertStatement statement _)
    as [result g1].
  cbn [fst snd].
  destruct result as [result|]; [destruct (fExtraStatements (env g1))|];
    split; reflexivity.
Qed.

(** The dereference itself: in a geometry program in which [sk_RTAdjust] is
    declared, an expression statement whose expression fails to convert
    reaches the dereference of its null result. *)
Lemma expression_statement_dereferences_null
    (rec : ASTNode -> Conv (option Statement)) (offset : Z)
    (identifier : string) (g : IRGenerator) (e1 : Env) (adjust : Var) :
  convertExpression (kIdentifier offset identifier) (env g) = (None, e1) ->
  fRTAdjust e1 = Some adjust ->
  fKind e1 = kGeometry_Kind ->
  convertSingleStatement rec (kIdentifier offset identifier) g
  = nullDereference
      {| env := e1; fLoopLevel := fLoopLevel g;
         fSwitchLevel := fSwitchLevel g |}.
Proof.
  intros Hfails Hadjust Hkind. cbn [convertSingleStatement].
  unfold convertExpressionStatement, bindNull, bind, liftGen, gets.
  rewrite Hfails. unfold ret. cbn [env fLoopLevel fSwitchLevel].
  now rewrite Hadjust, Hkind.
Qed.

(** ** Literals through the converters *)

Lemma with_fCanInline_restored (b : bool) (e : Env) :
  with_fCanInline (fCanInline e) (with_fCanInline b e) = e.
Proof. destruct e. reflexivity. Qed.

(** Around a conversion that changes nothing, [AutoDisableInline] changes
    nothing. *)
Lemma AutoDisableInline_ret {A : Type} (canInline : bool) (a : A) (e : Env) :
  AutoDisableInline canInline (ret a) e = (a, e).
Proof.
  unfold AutoDisableInline, bind, gets, modify, ret.
  now rewrite with_fCanInline_restored.
Qed.

Lemma liftGen_ret {A : Type} (a : A) (g : IRGenerator) :
  liftGen (ret a) g = (a, g).
Proof. destruct g. reflexivity. Qed.

(** X18. Negating a literal twice gives the literal back: [-(-v)] on an
    integer literal [v] converts to the literal [v], and [!!b] on a boolean
    literal [b] to the literal [b]; no prefix expression is built and
    nothing is reported. *)
Theorem convertPrefixExpression_double_negation
    (outer inner offset v : Z) (b : bool) (e : Env)
    (Hrange : INT64_MIN < v <= INT64_MAX)
    (Hbool : Type_eqb fBool_Type fBool_Type = true) :
  convertExpression
    (kPrefix outer Prefix_MINUS (kPrefix inner Prefix_MINUS (kInt offset v))) e
  = (Some (IntLiteral_new offset v), e)
  /\ convertExpression
       (kPrefix outer Prefix_LOGICALNOT
          (kPrefix inner Prefix_LOGICALNOT (kBool offset b))) e
     = (Some (BoolLiteral_new offset b), e).
Proof.
  split.
  - repeat (cbn [convertExpression]; unfold convertPrefixExpression).
    cbn [convertExpression]. unfold bindNull, bind, ret, IntLiteral_new.
    now rewrite Z.opp_involutive.
  - repeat (cbn [convertExpression]; unfold convertPrefixExpression).
    cbn [convertExpression]. unfold bindNull, bind, ret, BoolLiteral_new.
    cbn [type_of]. rewrite Hbool. cbn [negb type_of]. rewrite Hbool.
    cbn [negb]. now rewrite negb_involutive.
Qed.

(** The types of an operator typed by cost on two operands of one scalar
    type. *)
Lemma determine_binary_type_same_scalar (op : TokenKind) (t : Ty) :
  isCostOperator op = true -> typeKind t = kScalar ->
  coercionCost t t <> INT_MAX ->
  determine_binary_type op t t
  = Some {| outLeftType := t; outRightType := t;
            outResultType := if isRelational op then fBool_Type else t |}.
Proof.
  intros Hop Hscalar Hcost.
  assert (Hcase : typedByCost op t t = true).
  { unfold typedByCost, isScalar. rewrite Hop, Hscalar. reflexivity. }
  unfold determine_binary_type, determine_binary_type_fuel.
  rewrite (determine_binary_type_tail_reached _ op t t Hcase). cbv zeta.
  rewrite Z.ltb_irrefl. apply Z.eqb_neq in Hcost. now rewrite Hcost.
Qed.

(** X19. A binary expression on two integer literals, with an arithmetic,
    shift, bitwise or relational operator, converts to what [constantFold]
    makes of the literals.  When the fold yields null, the conversion still
    yields the binary expression: [a / 0] reports "division by zero" and
    converts to a division node, not to null. *)
Theorem convertBinaryExpression_folds_literals
    (op : TokenKind) (offset leftOffset a rightOffset b : Z) (e : Env)
    (Hop : isCostOperator op = true)
    (Hscalar : typeKind IntLiteral_Type = kScalar)
    (Hsame : Type_eqb IntLiteral_Type IntLiteral_Type = true)
    (Hcost : coercionCost IntLiteral_Type IntLiteral_Type <> INT_MAX) :
  let left := IntLiteral_new leftOffset a in
  let right := IntLiteral_new rightOffset b in
  convertExpression
    (kBinary offset (kInt leftOffset a) op (kInt rightOffset b)) e
  = (Some match fst (constantFold left op right e) with
          | Some folded => folded
          | None =>
              BinaryExpression offset left op right
                (if isRelational op then fBool_Type else IntLiteral_Type)
          end,
     snd (constantFold left op right e))
  /\ convertExpression
       (kBinary offset (kInt leftOffset a) TK_SLASH (kInt rightOffset 0)) e
     = (Some (BinaryExpression offset left TK_SLASH
                (IntLiteral_new rightOffset 0) IntLiteral_Type),
        reported rightOffset "division by zero" e).
Proof.
  intros left right.
  assert (Hgeneral : forall op' b',
    isCostOperator op' = true ->
    IsAssignment op' = false ->
    convertExpression
      (kBinary offset (kInt leftOffset a) op' (kInt rightOffset b')) e
    = (Some match fst (constantFold left op' (IntLiteral_new rightOffset b') e)
            with
            | Some folded => folded
            | None =>
                BinaryExpression offset left op' (IntLiteral_new rightOffset b')
                  (if isRelational op' then fBool_Type else IntLiteral_Type)
            end,
       snd (constantFold left op' (IntLiteral_new rightOffset b') e))).
  { intros op' b' Hop' Hassign.
    cbn [convertExpression]. unfold convertBinaryExpression.
    cbn [convertExpression]. unfold bindNull at 1. unfold bind at 1.
    unfold ret at 1. unfold bindNull at 1. unfold bind at 1.
    rewrite AutoDisableInline_ret.
    unfold IntLiteral_new. cbn [isIntLiteral type_of andb].
    assert (Hraw : (if isInteger IntLiteral_Type then IntLiteral_Type
                    else IntLiteral_Type) = IntLiteral_Type)
      by now destruct (isInteger IntLiteral_Type).
    rewrite Hraw.
    rewrite (determine_binary_type_same_scalar op' _ Hop' Hscalar Hcost).
    rewrite Hassign. cbn [outLeftType outRightType outResultType].
    unfold coerce, bind, ret. cbn [fst snd negb type_of]. rewrite Hsame.
    fold (@IntLiteral_new Ty F _ leftOffset a).
    fold (@IntLiteral_new Ty F _ rightOffset b'). fold left.
    destruct (constantFold left op' (IntLiteral_new rightOffset b') e)
      as [[folded|] e']; reflexivity. }
  split.
  - apply Hgeneral; [exact Hop | now destruct op].
  - rewrite (Hgeneral TK_SLASH 0 eq_refl eq_refl).
    unfold left, IntLiteral_new, constantFold.
    cbn [isBoolLiteral isCompileTimeConstant andb orb negb].
    unfold foldIntLiterals. change (0 =? -1) with false.
    rewrite andb_false_r. reflexivity.
Qed.

Lemma liftGen_pure {A : Type} (m : Gen A) (a : A) (g : IRGenerator) :
  m (env g) = (a, env g) -> liftGen m g = (a, g).
Proof. destruct g. unfold liftGen. cbn [env]. now intros ->. Qed.

Lemma convert_bool_test (offset : Z) (b : bool) (e : Env) :
  Type_eqb fBool_Type fBool_Type = true ->
  (converted <- convertExpression (kBool offset b) ;;
   coerce converted fBool_Type) e
  = (Some (BoolLiteral_new offset b), e).
Proof.
  intros Hbool. cbn [convertExpression]. unfold bind, ret, coerce.
  unfold BoolLiteral_new at 1 2. cbn [type_of]. now rewrite Hbool.
Qed.

(** X20. An [if] whose test is a boolean literal is folded to one branch,
    but only after both branches are converted: the literal [true] gives
    the converted true branch, the literal [false] gives the converted
    false branch, or [Nop] when there is none, and a branch that fails to
    convert makes the whole statement null, even when the literal drops
    that branch. *)
Theorem convertIf_static_test
    (rec : ASTNode -> Conv (option Statement)) (offset : Z) (isStatic : bool)
    (testOffset : Z) (ifTrueNode : ASTNode) (g g1 : IRGenerator)
    (Hbool : Type_eqb fBool_Type fBool_Type = true) :
  (rec ifTrueNode g = (None, g1) ->
   forall b ifFalseNode,
     convertIf rec offset isStatic (kBool testOffset b) ifTrueNode
       ifFalseNode g
     = (None, g1))
  /\ (forall ifTrue,
        rec ifTrueNode g = (Some ifTrue, g1) ->
        convertIf rec offset isStatic (kBool testOffset true) ifTrueNode None g
        = (Some (ensure_scoped_blocks ifTrue), g1)
        /\ convertIf rec offset isStatic (kBool testOffset false) ifTrueNode
             None g
           = (Some Nop, g1)
        /\ (forall ifFalseNode ifFalse g2,
              rec ifFalseNode g1 = (Some ifFalse, g2) ->
              convertIf rec offset isStatic (kBool testOffset true) ifTrueNode
                (Some ifFalseNode) g
              = (Some (ensure_scoped_blocks ifTrue), g2)
              /\ convertIf rec offset isStatic (kBool testOffset false)
                   ifTrueNode (Some ifFalseNode) g
                 = (Some (ensure_scoped_blocks ifFalse), g2))
        /\ (forall ifFalseNode g2 b,
              rec ifFalseNode g1 = (None, g2) ->
              convertIf rec offset isStatic (kBool testOffset b) ifTrueNode
                (Some ifFalseNode) g
              = (None, g2))).
Proof.
  assert (Htest : forall b,
    liftGen (converted <- convertExpression (kBool testOffset b) ;;
             coerce converted fBool_Type) g
    = (Some (BoolLiteral_new testOffset b), g)).
  { intros b. apply liftGen_pure. now apply convert_bool_test. }
  split.
  - intros HifTrue b ifFalseNode. unfold convertIf.
    unfold bindNull at 1. unfold bind at 1. rewrite Htest.
    unfold bindNull at 1. unfold bind at 1. now rewrite HifTrue.
  - intros ifTrue HifTrue.
    assert (Hstep : forall b ifFalseNode,
      convertIf rec offset isStatic (kBool testOffset b) ifTrueNode
        ifFalseNode g
      = (ifFalse <-?
           match ifFalseNode with
           | Some node =>
               ifFalse <-? rec node ;;
               ret (Some (Some (ensure_scoped_blocks ifFalse)))
           | None => ret (Some None)
           end ;;
         if b then ret (Some (ensure_scoped_blocks ifTrue))
         else match ifFalse with
              | Some ifFalse => ret (Some ifFalse)
              | None => ret (Some Nop)
              end) g1).
    { intros b ifFalseNode. unfold convertIf.
      unfold bindNull at 1. unfold bind at 1. rewrite Htest.
      unfold bindNull at 1. unfold bind at 1. rewrite HifTrue.
      reflexivity. }
    split; [|split; [|split]].
    + rewrite Hstep. reflexivity.
    + rewrite Hstep. reflexivity.
    + intros ifFalseNode ifFalse g2 HifFalse.
      rewrite !Hstep. unfold bindNull, bind. rewrite HifFalse.
      split; reflexivity.
    + intros ifFalseNode g2 b HifFalse.
      rewrite Hstep. unfold bindNull, bind. now rewrite HifFalse.
Qed.

Lemma with_fExtraStatements_restored (l : list Statement) (e : Env) :
  with_fExtraStatements (fExtraStatements e) (with_fExtraStatements l e) = e.
Proof. destruct e. reflexivity. Qed.

(** The conversion of a [break] or of a [continue] in a loop: the
    statement itself, in the state in which it was met. *)
Lemma convertStatement_in_loop (offset : Z) (g : IRGenerator) :
  0 < fLoopLevel g ->
  convertStatement (kBreak offset) g = (Some (BreakStatement offset), g)
  /\ convertStatement (kContinue offset) g
     = (Some (ContinueStatement offset), g).
Proof.
  intros Hlevel. destruct g as [e loopLevel switchLevel].
  cbn [fLoopLevel] in Hlevel.
  assert (Hgt : (loopLevel >? 0) = true) by (apply Z.gtb_lt; lia).
  split; rewrite convertStatement_unfold; unfold convertStatement_body;
    cbn [convertSingleStatement]; unfold convertBreak, convertContinue;
    unfold bind, liftGen, gets, modify, ret;
    cbn [env fLoopLevel fSwitchLevel];
    rewrite Hgt; cbn [orb env fLoopLevel fSwitchLevel];
    rewrite with_fExtraStatements_restored; reflexivity.
Qed.

(** X21. A [break] or a [continue] that is the body of a [while] or of a
    [do] loop is always accepted, whatever encloses the loop: when the test
    of the loop converts, the loop converts to a loop around the break or
    continue statement, and the only state that changes is what the
    conversion of the test changes. *)
Theorem break_continue_inside_loop
    (offset bodyOffset : Z) (testNode : ASTNode) (test : Expression)
    (g : IRGenerator) (e1 : Env)
    (Hlevel : 0 <= fLoopLevel g)
    (Htest : AutoDisableInline false
               (converted <- convertExpression testNode ;;
                coerce converted fBool_Type) (env g)
             = (Some test, e1)) :
  let g1 := {| env := e1; fLoopLevel := fLoopLevel g;
               fSwitchLevel := fSwitchLevel g |} in
  convertWhile convertStatement offset testNode (kBreak bodyOffset) g
  = (Some (WhileStatement offset test (BreakStatement bodyOffset)), g1)
  /\ convertWhile convertStatement offset testNode (kContinue bodyOffset) g
     = (Some (WhileStatement offset test (ContinueStatement bodyOffset)), g1)
  /\ convertDo convertStatement offset (kBreak bodyOffset) testNode g
     = (Some (DoStatement offset (BreakStatement bodyOffset) test), g1)
  /\ convertDo convertStatement offset (kContinue bodyOffset) testNode g
     = (Some (DoStatement offset (ContinueStatement bodyOffset) test), g1).
Proof.
  intros g1. subst g1. destruct g as [e loopLevel switchLevel].
  cbn [fLoopLevel fSwitchLevel env] in *.
  assert (Hinside : forall e' : Env,
    0 < fLoopLevel ({| env := e'; fLoopLevel := loopLevel + 1;
                       fSwitchLevel := switchLevel |} : IRGenerator))
    by (intros e'; cbn; lia).
  assert (Hback : loopLevel + 1 - 1 = loopLevel) by lia.
  repeat split.
  - unfold convertWhile, AutoLoopLevel.
    unfold bind at 1. unfold modify at 1. unfold bind at 1.
    unfold bindNull at 1. unfold bind at 1. unfold liftGen at 1.
    cbn [env fLoopLevel fSwitchLevel]. rewrite Htest.
    unfold bindNull at 1. unfold bind at 1.
    rewrite (proj1 (convertStatement_in_loop bodyOffset _ (Hinside e1))).
    unfold bind, modify, ret. cbn [env fLoopLevel fSwitchLevel].
    now rewrite Hback.
  - unfold convertWhile, AutoLoopLevel.
    unfold bind at 1. unfold modify at 1. unfold bind at 1.
    unfold bindNull at 1. unfold bind at 1. unfold liftGen at 1.
    cbn [env fLoopLevel fSwitchLevel]. rewrite Htest.
    unfold bindNull at 1. unfold bind at 1.
    rewrite (proj2 (convertStatement_in_loop bodyOffset _ (Hinside e1))).
    unfold bind, modify, ret. cbn [env fLoopLevel fSwitchLevel].
    now rewrite Hback.
  - unfold convertDo, AutoLoopLevel.
    unfold bind at 1. unfold modify at 1. unfold bind at 1.
    unfold bindNull at 1. unfold bind at 1.
    cbn [env fLoopLevel fSwitchLevel].
    rewrite (proj1 (convertStatement_in_loop bodyOffset _ (Hinside e))).
    unfold bindNull at 1. unfold bind at 1. unfold liftGen at 1.
    cbn [env fLoopLevel fSwitchLevel]. rewrite Htest.
    unfold bind, modify, ret. cbn [env fLoopLevel fSwitchLevel].
    now rewrite Hback.
  - unfold convertDo, AutoLoopLevel.
    unfold bind at 1. unfold modify at 1. unfold bind at 1.
    unfold bindNull at 1. unfold bind at 1.
    cbn [env fLoopLevel fSwitchLevel].
    rewrite (proj2 (convertStatement_in_loop bodyOffset _ (Hinside e))).
    unfold bindNull at 1. unfold bind at 1. unfold liftGen at 1.
    cbn [env fLoopLevel fSwitchLevel]. rewrite Htest.
    unfold bind, modify, ret. cbn [env fLoopLevel fSwitchLevel].
    now rewrite Hback.
Qed.

(** ** Coercions and returns that fail *)

(** X22. A coercion that cannot be done fails with exactly one error at the
    expression, and null.  A value of the invalid type -- the name of a
    function or of a type among them -- is reported by [checkValid];
    any other value whose coercion has no cost is reported as "expected
    '<type>', but found '<type>'". *)
Theorem coerce_fails_with_one_error (x : Expression) (T : Ty) (e : Env)
    (Hdifferent : Type_eqb (type_of x) T = false) :
  (Type_eqb (type_of x) fInvalid_Type = true ->
   coerce (Some x) T e
   = (None,
      reported (offset_of x)
        match x with
        | FunctionReference _ _ => "expected '(' to begin function call"
        | TypeReference _ _ => "expected '(' to begin constructor invocation"
        | _ => "invalid expression"
        end e))
  /\ (Type_eqb (type_of x) fInvalid_Type = false ->
      kind x <> Expression_kFunctionReference ->
      kind x <> Expression_kTypeReference ->
      Expression_coercionCost x T = INT_MAX ->
      coerce (Some x) T e
      = (None,
         reported (offset_of x)
           ("expected '" +++ displayName T +++ "', but found '" +++
            displayName (type_of x) +++ "'") e)).
Proof.
  split.
  - intros Hinvalid. unfold coerce. rewrite Hdifferent.
    unfold bind, checkValid.
    destruct x; cbn [type_of offset_of] in *; rewrite ?Hinvalid;
      unfold error, modify; cbn [type_of offset_of]; rewrite ?Hinvalid;
      reflexivity.
  - intros Hvalid Hfunction Htype Hcost. unfold coerce. rewrite Hdifferent.
    unfold bind, checkValid.
    destruct x; try (exfalso; apply Hfunction; reflexivity);
      try (exfalso; apply Htype; reflexivity);
      cbn [type_of offset_of] in *;
      rewrite Hvalid; unfold ret; rewrite Hcost, Z.eqb_refl;
      reflexivity.
Qed.

(** X23. [convertReturn] in a function of return type [void] never accepts
    a value: a value that converts is reported as "may not return a value
    from a void function", and the result is null.  Without a value, a
    return statement is always produced; in a function that returns a
    value, "expected function to return '<type>'" is reported with it. *)
Theorem convertReturn_void_rules
    (offset : Z) (function : FunctionDeclaration) (e : Env)
    (Hcurrent : fCurrentFunction e = Some function) :
  (Type_eqb (fReturnType function) fVoid_Type = true ->
   (forall valueNode, fst (convertReturn offset (Some valueNode) e) = None)
   /\ (forall valueNode result e1,
         convertExpression valueNode e = (Some result, e1) ->
         convertReturn offset (Some valueNode) e
         = (None,
            reported (offset_of result)
              "may not return a value from a void function" e1))
   /\ convertReturn offset None e = (Some (ReturnStatement offset None), e))
  /\ (Type_eqb (fReturnType function) fVoid_Type = false ->
      convertReturn offset None e
      = (Some (ReturnStatement offset None),
         reported offset
           ("expected function to return '" +++
            displayName (fReturnType function) +++ "'") e)).
Proof.
  split.
  - intros Hvoid. split; [|split].
    + intros valueNode. unfold convertReturn, bind, gets. rewrite Hcurrent.
      unfold bindNull, bind.
      destruct (convertExpression valueNode e) as [[result|] e1];
        [|reflexivity].
      now rewrite Hvoid.
    + intros valueNode result e1 Hvalue.
      unfold convertReturn, bind, gets. rewrite Hcurrent.
      unfold bindNull, bind. rewrite Hvalue. now rewrite Hvoid.
    + unfold convertReturn, bind, gets. rewrite Hcurrent.
      unfold errorIf. now rewrite Hvoid.
  - intros Hvalue. unfold convertReturn, bind, gets. rewrite Hcurrent.
    unfold errorIf. now rewrite Hvalue.
Qed.

(** ** What a conversion leaves alone *)

(** Induction over the expressions of a syntax tree. *)
Section ExpressionInduction.

Variable P : ASTNode -> Prop.

Hypothesis P_binary :
  forall offset left op right,
    P left -> P right -> P (kBinary offset left op right).
Hypothesis P_call :
  forall offset base arguments,
    P base -> Forall P arguments -> P (kCall offset base arguments).
Hypothesis P_field : forall offset base field, P base -> P (kField offset base field).
Hypothesis P_index :
  forall offset base index,
    P base ->
    match index with
    | Some n => P n
    | None => True
    end ->
    P (kIndex offset base index).
Hypothesis P_postfix : forall offset base op, P base -> P (kPostfix offset base op).
Hypothesis P_prefix : forall offset op base, P base -> P (kPrefix offset op base).
Hypothesis P_scope :
  forall offset base member, P base -> P (kScope offset base member).
Hypothesis P_ternary :
  forall offset test ifTrue ifFalse,
    P test -> P ifTrue -> P ifFalse -> P (kTernary offset test ifTrue ifFalse).
Hypothesis P_leaf :
  forall n,
    match n with
    | kBinary _ _ _ _ | kCall _ _ _ | kField _ _ _ | kIndex _ _ _
    | kPostfix _ _ _ | kPrefix _ _ _ | kScope _ _ _ | kTernary _ _ _ _ => False
    | _ => True
    end ->
    P n.

Lemma expression_induction : forall n : ASTNode, P n.
Proof.
  fix IH 1. intros n.
  destruct n; try (apply P_leaf; exact I).
  - apply P_binary; apply IH.
  - apply P_call; [apply IH|].
    induction arguments as [|argument rest IHrest]; constructor;
      [apply IH | exact IHrest].
  - apply P_field; apply IH.
  - apply P_index; [apply IH|].
    destruct index as [m|]; [apply IH | exact I].
  - apply P_postfix; apply IH.
  - apply P_prefix; apply IH.
  - apply P_scope; apply IH.
  - apply P_ternary; apply IH.
Qed.

End ExpressionInduction.

(** The conversion of a statement keeps every relation between the state
    before and the state after that is reflexive and transitive, that each
    elementary change of state keeps, and that the functions outside the
    model keep. *)
Section Framing.

Variable R : Env -> Env -> Prop.

Hypothesis R_refl : forall e, R e e.
Hypothesis R_trans : forall e1 e2 e3, R e1 e2 -> R e2 e3 -> R e1 e3.
Hypothesis R_error : forall e offset msg, R e (reported offset msg e).
Hypothesis R_inputs : forall e inputs, R e (with_fInputs inputs e).
Hypothesis R_canInline : forall e b, R e (with_fCanInline b e).
Hypothesis R_counter : forall e v, R e (with_fTmpSwizzleCounter v e).
Hypothesis R_extra : forall e statements, R e (with_fExtraStatements statements e).
Hypothesis R_rtAdjust : forall e v, R e (with_fRTAdjust v e).
Hypothesis R_declare :
  forall e scope parent entry,
    fSymbolTable e = scope :: parent ->
    R e (with_fSymbolTable ((entry :: scope) :: parent) e).
Hypothesis R_scope :
  forall e e',
    R (with_fSymbolTable ([] :: fSymbolTable e) e) e' ->
    R e (with_fSymbolTable (tl (fSymbolTable e')) e').
Hypothesis R_kind : forall e e', R e e' -> fKind e' = fKind e.
Hypothesis R_collaborators : collaboratorsFrame R.

Local Notation frames m := (@frames Ty F Rest R _ m).
Local Notation framesConv m := (@framesConv Ty F Rest R _ m).

Lemma frames_ret {A : Type} (a : A) : frames (ret a).
Proof. intros e. apply R_refl. Qed.

Lemma frames_gets {A : Type} (f : Env -> A) : frames (gets f).
Proof. intros e. apply R_refl. Qed.

Lemma frames_bind {A B : Type} (m : Gen A) (k : A -> Gen B) :
  frames m -> (forall a, frames (k a)) -> frames (bind m k).
Proof.
  intros Hm Hk e. unfold bind. specialize (Hm e).
  destruct (m e) as [a e']. cbn [snd] in Hm.
  apply R_trans with e'; [exact Hm | apply Hk].
Qed.

Lemma frames_bindNull {A B : Type} (m : Gen (option A))
    (k : A -> Gen (option B)) :
  frames m -> (forall a, frames (k a)) -> frames (bindNull m k).
Proof.
  intros Hm Hk. apply frames_bind; [assumption|].
  intros [a|]; [apply Hk | apply frames_ret].
Qed.

Lemma frames_error (offset : Z) (msg : string) : frames (error offset msg).
Proof. intros e. apply R_error. Qed.

Lemma frames_errorIf (condition : bool) (offset : Z) (msg : string) :
  frames (errorIf condition offset msg).
Proof. destruct condition; [apply frames_error | apply frames_ret]. Qed.

Lemma frames_modify (f : Env -> Env) :
  (forall e, R e (f e)) -> frames (modify f).
Proof. intros Hf e. apply Hf. Qed.

Lemma frames_AutoDisableInline {A : Type} (canInline : bool) (body : Gen A) :
  frames body -> frames (AutoDisableInline canInline body).
Proof.
  intros Hbody. unfold AutoDisableInline.
  apply frames_bind; [apply frames_gets | intros old].
  apply frames_bind; [apply frames_modify; intros; apply R_canInline | intros _].
  apply frames_bind; [assumption | intros result].
  apply frames_bind;
    [apply frames_modify; intros; apply R_canInline | intros _; apply frames_ret].
Qed.

(** One step of a proof that a method keeps [R]. *)
Ltac frames_step :=
  match goal with
  | |- frames _ => solve [auto 1]
  | |- frames (ret _) => apply frames_ret
  | |- frames (gets _) => apply frames_gets
  | |- frames (error _ _) => apply frames_error
  | |- frames (errorIf _ _ _) => apply frames_errorIf
  | |- frames (cannotOperate _ _ _) => unfold cannotOperate
  | |- frames (modify set_fRTWidth) =>
      apply frames_modify; intros; apply R_inputs
  | |- frames (modify set_fRTHeight) =>
      apply frames_modify; intros; apply R_inputs
  | |- frames (modify set_fFlipY) =>
      apply frames_modify; intros; apply R_inputs
  | |- frames (modify _) =>
      apply frames_modify; intros;
      first [apply R_canInline | apply R_counter | apply R_extra
            | apply R_rtAdjust | apply R_inputs | apply R_error]
  | |- frames (AutoDisableInline _ _) => apply frames_AutoDisableInline
  | |- frames (bindNull _ _) => apply frames_bindNull; [|intros ?]
  | |- frames (bind _ _) => apply frames_bind; [|intros ?]
  | |- frames (coerce_call _ _ _) => apply (proj1 R_collaborators)
  | |- frames (convertConstructor _ _ _) =>
      apply (proj1 (proj2 R_collaborators))
  | |- frames (callFunction _ _ _) =>
      apply (proj1 (proj2 (proj2 R_collaborators)))
  | |- frames (convertTypeField _ _ _) =>
      apply (proj2 (proj2 (proj2 R_collaborators)))
  | |- frames (if ?b then _ else _) => destruct b
  | |- frames (match ?x with _ => _ end) => destruct x
  end.

Lemma frames_noteBuiltin (builtin : Z) : frames (noteBuiltin builtin).
Proof. unfold noteBuiltin. repeat frames_step. Qed.

Lemma frames_convertIdentifier (offset : Z) (identifier : string) :
  frames (convertIdentifier offset identifier).
Proof.
  pose proof frames_noteBuiltin.
  unfold convertIdentifier. repeat frames_step.
Qed.

Lemma frames_checkValid (expr : Expression) : frames (checkValid expr).
Proof. unfold checkValid. repeat frames_step. Qed.

Lemma frames_coerce (expr : option Expression) (type : Ty) :
  frames (coerce expr type).
Proof.
  pose proof frames_convertIdentifier. pose proof frames_checkValid.
  unfold coerce. repeat frames_step.
Qed.

Lemma frames_constantFold (left : Expression) (op : TokenKind)
    (right : Expression) :
  frames (constantFold left op right).
Proof.
  intros e.
  destruct (constantFold_outcome left op right e)
    as [[result ->] | (msg & -> & _)]; [apply R_refl | apply R_error].
Qed.

Lemma frames_checkSwizzleWrite_loop (offset : Z) (components : list Z) :
  forall bits, frames (checkSwizzleWrite_loop offset bits components).
Proof.
  induction components as [|idx rest IH]; intros bits;
    cbn [checkSwizzleWrite_loop]; cbv zeta; repeat frames_step.
Qed.

Lemma frames_setRefKind (expr : Expression) (refKind : RefKind) :
  frames (setRefKind expr refKind).
Proof.
  pose proof frames_checkSwizzleWrite_loop.
  induction expr; cbn [setRefKind]; unfold checkSwizzleWrite;
    repeat frames_step.
Qed.

Lemma frames_convertSwizzle (base : Expression) (fields : string) :
  frames (convertSwizzle base fields).
Proof. unfold convertSwizzle. cbv zeta. repeat frames_step. Qed.

Lemma frames_getCap (offset : Z) (n : string) : frames (getCap offset n).
Proof. unfold getCap. repeat frames_step. Qed.

Lemma frames_convertField (base : Expression) (field : string) :
  frames (convertField base field).
Proof. unfold convertField. cbv zeta. repeat frames_step. Qed.

Lemma frames_coerceArguments (arguments : list Expression) :
  forall parameterTypes, frames (coerceArguments arguments parameterTypes).
Proof.
  pose proof frames_coerce.
  induction arguments as [|a rest IH]; intros [|t parameterTypes];
    cbn [coerceArguments]; repeat frames_step.
Qed.

Lemma frames_call (offset : Z) (functionValue : Expression)
    (arguments : list Expression) :
  frames (call offset functionValue arguments).
Proof.
  pose proof frames_coerceArguments.
  unfold call. cbv zeta. repeat frames_step.
Qed.

Section FramesExpressionConverters.

Variable rec : ASTNode -> Gen (option Expression).

Lemma frames_convertBinaryExpression (offset : Z) (leftNode : ASTNode)
    (op : TokenKind) (rightNode : ASTNode) :
  frames (rec leftNode) -> frames (rec rightNode) ->
  frames (convertBinaryExpression rec offset leftNode op rightNode).
Proof.
  intros Hleft Hright.
  pose proof frames_setRefKind. pose proof frames_coerce.
  pose proof frames_constantFold.
  unfold convertBinaryExpression. cbv zeta. repeat frames_step.
Qed.

Lemma frames_convertTernaryExpression (offset : Z)
    (testNode ifTrueNode ifFalseNode : ASTNode) :
  frames (rec testNode) -> frames (rec ifTrueNode) ->
  frames (rec ifFalseNode) ->
  frames (convertTernaryExpression rec offset testNode ifTrueNode ifFalseNode).
Proof.
  intros Htest HifTrue HifFalse. pose proof frames_coerce.
  unfold convertTernaryExpression. cbv zeta. repeat frames_step.
Qed.

Lemma frames_convertPrefixExpression (offset : Z) (op : PrefixOperator)
    (baseNode : ASTNode) :
  frames (rec baseNode) ->
  frames (convertPrefixExpression rec offset op baseNode).
Proof.
  intros Hbase. pose proof frames_setRefKind.
  unfold convertPrefixExpression. cbv zeta. repeat frames_step.
Qed.

Lemma frames_convertPostfixExpression (offset : Z) (baseNode : ASTNode)
    (op : TokenKind) :
  frames (rec baseNode) ->
  frames (convertPostfixExpression rec offset baseNode op).
Proof.
  intros Hbase. pose proof frames_setRefKind.
  unfold convertPostfixExpression. cbv zeta. repeat frames_step.
Qed.

Lemma frames_convertIndex (base : Expression) (index : ASTNode) :
  frames (rec index) -> frames (convertIndex rec base index).
Proof.
  intros Hindex. pose proof frames_coerce.
  unfold convertIndex. cbv zeta. repeat frames_step.
Qed.

Lemma frames_convertIndexExpression (offset : Z) (baseNode : ASTNode)
    (index : option ASTNode) :
  frames (rec baseNode) ->
  match index with
  | Some n => frames (rec n)
  | None => True
  end ->
  frames (convertIndexExpression rec offset baseNode index).
Proof.
  intros Hbase Hindex. unfold convertIndexExpression.
  apply frames_bindNull; [assumption | intros base].
  destruct index as [n|];
    [now apply frames_convertIndex | repeat frames_step].
Qed.

Lemma frames_convertArguments (argumentNodes : list ASTNode) :
  Forall (fun n => frames (rec n)) argumentNodes ->
  frames (convertArguments rec argumentNodes).
Proof.
  induction 1 as [|n rest Hn Hrest IH]; cbn [convertArguments];
    repeat frames_step.
Qed.

Lemma frames_convertCallExpression (offset : Z) (baseNode : ASTNode)
    (argumentNodes : list ASTNode) :
  frames (rec baseNode) ->
  Forall (fun n => frames (rec n)) argumentNodes ->
  frames (convertCallExpression rec offset baseNode argumentNodes).
Proof.
  intros Hbase Harguments.
  pose proof (frames_convertArguments argumentNodes Harguments).
  pose proof frames_call.
  unfold convertCallExpression. repeat frames_step.
Qed.

Lemma frames_convertFieldExpression (offset : Z) (baseNode : ASTNode)
    (field : string) :
  frames (rec baseNode) ->
  frames (convertFieldExpression rec offset baseNode field).
Proof.
  intros Hbase.
  pose proof frames_getCap. pose proof frames_convertField.
  pose proof frames_convertSwizzle.
  unfold convertFieldExpression. cbv zeta.
  apply frames_bindNull; [assumption | intros base].
  destruct (Type_eqb (type_of base) fSkCaps_Type); [auto 1|].
  destruct base; try (auto 1; fail);
    destruct (typeKind _); auto 1.
Qed.

Lemma frames_convertScopeExpression (offset : Z) (baseNode : ASTNode)
    (member : string) :
  frames (rec baseNode) ->
  frames (convertScopeExpression rec offset baseNode member).
Proof.
  intros Hbase. unfold convertScopeExpression. repeat frames_step.
Qed.

End FramesExpressionConverters.

Lemma frames_convertExpression (expr : ASTNode) :
  frames (convertExpression expr).
Proof.
  induction expr using expression_induction; cbn [convertExpression].
  - now apply frames_convertBinaryExpression.
  - now apply frames_convertCallExpression.
  - now apply frames_convertFieldExpression.
  - now apply frames_convertIndexExpression.
  - now apply frames_convertPostfixExpression.
  - now apply frames_convertPrefixExpression.
  - now apply frames_convertScopeExpression.
  - now apply frames_convertTernaryExpression.
  - pose proof frames_convertIdentifier.
    destruct expr; try contradiction; cbn [convertExpression];
      repeat frames_step.
Qed.

Lemma frames_SymbolTable_add (n : string) (offset : Z) (symbol : Symbol) :
  frames (SymbolTable_add n offset symbol).
Proof.
  intros e. unfold SymbolTable_add, bind, gets, ret, modify, error.
  destruct (fSymbolTable e) as [|scope parent] eqn:Htable; [apply R_refl|].
  destruct (lookupScope n scope); cbn [snd];
    [apply R_error | now apply R_declare].
Qed.

Lemma frames_convertType (type : TypeNode) (allowVoid : bool) :
  frames (convertType type allowVoid).
Proof. unfold convertType. cbv zeta. repeat frames_step. Qed.

Lemma frames_checkModifiers_loop (offset : Z) (permitted : Z)
    (checks : list (Z * string)) :
  forall flags, frames (checkModifiers_loop offset flags permitted checks).
Proof.
  induction checks as [|[flag n] rest IH]; intros flags;
    cbn [checkModifiers_loop]; repeat frames_step.
Qed.

Lemma frames_checkVarDeclarationModifiers (offset : Z) (modifiers : Modifiers)
    (baseType : Ty) (storage : Storage) :
  frames (checkVarDeclarationModifiers offset modifiers baseType storage).
Proof.
  pose proof frames_checkModifiers_loop.
  unfold checkVarDeclarationModifiers, checkModifiers. cbv zeta.
  repeat frames_step.
Qed.

Lemma frames_convertArraySizes (rawSizes : list ASTNode) :
  forall type, frames (convertArraySizes convertExpression type rawSizes).
Proof.
  pose proof frames_convertExpression. pose proof frames_coerce.
  induction rawSizes as [|rawSize rest IH]; intros type;
    cbn [convertArraySizes]; cbv zeta; repeat frames_step.
Qed.

(** The declaration of a local variable; the declaration of a global one can
    also replace the modifiers of a variable of an enclosing scope. *)
Lemma frames_convertVarDeclaration (modifiers : Modifiers) (baseType : Ty)
    (varOffset : Z) (varName : string) (rawSizes : list ASTNode)
    (rawValue : option ASTNode) :
  frames (convertVarDeclaration convertExpression modifiers baseType
            kLocal_Storage varOffset varName rawSizes rawValue).
Proof.
  pose proof frames_convertExpression. pose proof frames_coerce.
  pose proof frames_convertArraySizes. pose proof frames_SymbolTable_add.
  unfold convertVarDeclaration. cbv zeta.
  change (Storage_eqb kLocal_Storage kGlobal_Storage) with false.
  cbn [andb]. repeat frames_step.
Qed.

Lemma frames_convertVarDeclarations_loop (modifiers : Modifiers)
    (baseType : Ty) (declarations : list ASTNode) :
  frames (convertVarDeclarations_loop convertExpression modifiers baseType
            kLocal_Storage declarations).
Proof.
  pose proof frames_convertVarDeclaration.
  induction declarations as [|declaration rest IH];
    cbn [convertVarDeclarations_loop]; repeat frames_step.
Qed.

Lemma frames_convertVarDeclarationStatement (offset : Z)
    (modifiers : Modifiers) (rawType : TypeNode)
    (declarations : list ASTNode) :
  frames (convertVarDeclarationStatement offset modifiers rawType declarations).
Proof.
  pose proof frames_convertType.
  pose proof frames_checkVarDeclarationModifiers.
  pose proof frames_convertVarDeclarations_loop.
  unfold convertVarDeclarationStatement, convertVarDeclarations.
  repeat frames_step.
Qed.

Lemma frames_convertExpressionStatement (s : ASTNode) :
  frames (convertExpressionStatement s).
Proof.
  pose proof frames_convertExpression.
  unfold convertExpressionStatement. repeat frames_step.
Qed.

Lemma frames_convertReturn (offset : Z) (value : option ASTNode) :
  frames (convertReturn offset value).
Proof.
  pose proof frames_convertExpression. pose proof frames_coerce.
  unfold convertReturn. repeat frames_step.
Qed.

Lemma frames_getNormalizeSkPositionCode : frames getNormalizeSkPositionCode.
Proof. unfold getNormalizeSkPositionCode. cbv zeta. repeat frames_step. Qed.

Lemma frames_convertCaseValue (valueType : Ty) (caseValues : list Z)
    (valueNode : ASTNode) :
  frames (convertCaseValue valueType caseValues valueNode).
Proof.
  pose proof frames_convertExpression. pose proof frames_coerce.
  unfold convertCaseValue. repeat frames_step.
Qed.

Lemma frames_convert_test (testNode : ASTNode) :
  frames (converted <- convertExpression testNode ;;
          coerce converted fBool_Type).
Proof.
  pose proof frames_convertExpression. pose proof frames_coerce.
  repeat frames_step.
Qed.

(** The methods that use the nesting counters, in a program that is not a
    geometry program. *)

Lemma framesConv_ret {A : Type} (a : A) : framesConv (ret a).
Proof. intros g _. split; [apply R_refl | reflexivity]. Qed.

Lemma framesConv_gets {A : Type} (f : IRGenerator -> A) : framesConv (gets f).
Proof. intros g _. split; [apply R_refl | reflexivity]. Qed.

Lemma framesConv_bind {A B : Type} (m : Conv A) (k : A -> Conv B) :
  framesConv m -> (forall a, framesConv (k a)) -> framesConv (bind m k).
Proof.
  intros Hm Hk g Hkind. unfold bind.
  destruct (Hm g Hkind) as [HR Hlevels].
  destruct (m g) as [a g']. cbn [snd] in HR, Hlevels.
  assert (Hkind' : fKind (env g') <> kGeometry_Kind)
    by now rewrite (R_kind _ _ HR).
  destruct (Hk a g' Hkind') as [HR' Hlevels'].
  split; [now apply R_trans with (env g') | congruence].
Qed.

Lemma framesConv_bindNull {A B : Type} (m : Conv (option A))
    (k : A -> Conv (option B)) :
  framesConv m -> (forall a, framesConv (k a)) -> framesConv (bindNull m k).
Proof.
  intros Hm Hk. apply framesConv_bind; [assumption|].
  intros [a|]; [apply Hk | apply framesConv_ret].
Qed.

(** A method that cannot name the counters keeps them. *)
Lemma framesConv_liftGen {A : Type} (m : Gen A) :
  frames m -> framesConv (liftGen m).
Proof.
  intros Hm g _. unfold liftGen. specialize (Hm (env g)).
  destruct (m (env g)) as [a e']. split; [exact Hm | reflexivity].
Qed.

(** The guard of a scope: what [body] keeps from the state with the new
    scope on, the guarded [body] keeps from the state before the guard. *)
Lemma framesConv_AutoSymbolTable {A : Type} (body : Conv A) :
  framesConv body -> framesConv (AutoSymbolTable body).
Proof.
  intros Hbody g Hkind.
  unfold AutoSymbolTable, liftGen, pushSymbolTable, popSymbolTable, bind,
    modify, ret.
  match goal with
  | |- context [body ?g1] =>
      destruct (Hbody g1 Hkind) as [HR Hlevels];
      destruct (body g1) as [result g2]
  end.
  cbn [env snd] in *. split; [now apply R_scope | exact Hlevels].
Qed.

(** The destructor of [AutoLoopLevel] undoes its constructor. *)
Lemma framesConv_AutoLoopLevel {A : Type} (body : Conv A) :
  framesConv body -> framesConv (AutoLoopLevel body).
Proof.
  intros Hbody g Hkind. unfold AutoLoopLevel, bind, modify, ret.
  match goal with
  | |- context [body ?g1] =>
      destruct (Hbody g1 Hkind) as [HR Hlevels];
      destruct (body g1) as [result g2]
  end.
  unfold levels in *. cbn [env snd fLoopLevel fSwitchLevel] in *.
  split; [exact HR | inversion Hlevels; f_equal; lia].
Qed.

(** The destructor of [AutoSwitchLevel] undoes its constructor. *)
Lemma framesConv_AutoSwitchLevel {A : Type} (body : Conv A) :
  framesConv body -> framesConv (AutoSwitchLevel body).
Proof.
  intros Hbody g Hkind. unfold AutoSwitchLevel, bind, modify, ret.
  match goal with
  | |- context [body ?g1] =>
      destruct (Hbody g1 Hkind) as [HR Hlevels];
      destruct (body g1) as [result g2]
  end.
  unfold levels in *. cbn [env snd fLoopLevel fSwitchLevel] in *.
  split; [exact HR | inversion Hlevels; f_equal; lia].
Qed.

(** The test that guards the dereference of the result of an expression
    statement: outside of a geometry program, [inGeometry] is not run. *)
Lemma framesConv_unless_geometry {A : Type} (rtAdjust : option Var)
    (inGeometry otherwise : Conv A) :
  framesConv otherwise ->
  framesConv (programKind <- liftGen (gets fKind) ;;
              match rtAdjust, programKind with
              | Some _, kGeometry_Kind => inGeometry
              | _, _ => otherwise
              end).
Proof.
  intros Hotherwise g Hkind. unfold bind, liftGen, gets.
  destruct (Hotherwise
              {| env := env g; fLoopLevel := fLoopLevel g;
                 fSwitchLevel := fSwitchLevel g |} Hkind) as [HR Hlevels].
  cbn [env] in HR.
  destruct rtAdjust as [adjust|];
    [destruct (fKind (env g)); try contradiction|];
    (split; [exact HR | exact Hlevels]).
Qed.

Ltac framesConv_step :=
  match goal with
  | |- framesConv _ => solve [auto 1]
  | |- framesConv (ret _) => apply framesConv_ret
  | |- framesConv (gets _) => apply framesConv_gets
  | |- framesConv (convertDiscard _) => apply framesConv_ret
  | |- framesConv (liftGen _) =>
      apply framesConv_liftGen; solve [auto 1 | repeat frames_step]
  | |- framesConv (bindNull _ _) => apply framesConv_bindNull; [|intros ?]
  | |- framesConv (bind _ _) => apply framesConv_bind; [|intros ?]
  | |- framesConv (AutoSymbolTable _) => apply framesConv_AutoSymbolTable
  | |- framesConv (AutoLoopLevel _) => apply framesConv_AutoLoopLevel
  | |- framesConv (AutoSwitchLevel _) => apply framesConv_AutoSwitchLevel
  | |- framesConv (if ?b then _ else _) => destruct b
  | |- framesConv (match ?x with _ => _ end) => destruct x
  end.

Lemma framesConv_convertBreak (offset : Z) : framesConv (convertBreak offset).
Proof. unfold convertBreak. repeat framesConv_step. Qed.

Lemma framesConv_convertContinue (offset : Z) :
  framesConv (convertContinue offset).
Proof. unfold convertContinue. repeat framesConv_step. Qed.

Section FramesStatementConverters.

Variable rec : ASTNode -> Conv (option Statement).

Lemma framesConv_convertStatements (children : list ASTNode) :
  Forall (fun child => framesConv (rec child)) children ->
  framesConv (convertStatements rec children).
Proof.
  induction 1 as [|child rest Hchild Hrest IH]; cbn [convertStatements];
    repeat framesConv_step.
Qed.

Lemma framesConv_convertBlock (offset : Z) (children : list ASTNode) :
  Forall (fun child => framesConv (rec child)) children ->
  framesConv (convertBlock rec offset children).
Proof.
  intros Hchildren. unfold convertBlock.
  pose proof (framesConv_convertStatements children Hchildren).
  repeat framesConv_step.
Qed.

Lemma framesConv_convertIf (offset : Z) (isStatic : bool)
    (test ifTrue : ASTNode) (ifFalse : option ASTNode) :
  framesConv (rec ifTrue) ->
  match ifFalse with
  | Some n => framesConv (rec n)
  | None => True
  end ->
  framesConv (convertIf rec offset isStatic test ifTrue ifFalse).
Proof.
  intros HifTrue HifFalse. pose proof frames_convert_test.
  unfold convertIf. cbv zeta.
  destruct ifFalse as [n|]; repeat framesConv_step.
Qed.

Lemma framesConv_convertFor (offset : Z)
    (initializer test next body : ASTNode) :
  framesConv (rec initializer) -> framesConv (rec body) ->
  framesConv (convertFor rec offset initializer test next body).
Proof.
  intros Hinitializer Hbody.
  pose proof frames_convert_test. pose proof frames_convertExpression.
  unfold convertFor. repeat framesConv_step.
Qed.

(** A block and a [for] loop are a guarded scope around a body that keeps
    [R]. *)
Lemma convertBlock_guarded (offset : Z) (children : list ASTNode) :
  Forall (fun child => framesConv (rec child)) children ->
  exists inner,
    convertBlock rec offset children = AutoSymbolTable inner
    /\ framesConv inner.
Proof.
  intros Hchildren.
  pose proof (framesConv_convertStatements children Hchildren).
  eexists. split; [reflexivity|]. repeat framesConv_step.
Qed.

Lemma convertFor_guarded (offset : Z)
    (initializer test next body : ASTNode) :
  framesConv (rec initializer) -> framesConv (rec body) ->
  exists inner,
    convertFor rec offset initializer test next body
    = AutoLoopLevel (AutoSymbolTable inner)
    /\ framesConv inner.
Proof.
  intros Hinitializer Hbody.
  pose proof frames_convert_test. pose proof frames_convertExpression.
  eexists. split; [reflexivity|]. repeat framesConv_step.
Qed.

Lemma framesConv_convertWhile (offset : Z) (test body : ASTNode) :
  framesConv (rec body) -> framesConv (convertWhile rec offset test body).
Proof.
  intros Hbody. pose proof frames_convert_test.
  unfold convertWhile. repeat framesConv_step.
Qed.

Lemma framesConv_convertDo (offset : Z) (body test : ASTNode) :
  framesConv (rec body) -> framesConv (convertDo rec offset body test).
Proof.
  intros Hbody. pose proof frames_convert_test.
  unfold convertDo. repeat framesConv_step.
Qed.

Lemma framesConv_convertCases (valueType : Ty) (cases : list ASTNode) :
  Forall (fun c =>
            match c with
            | kSwitchCase _ _ statements =>
                Forall (fun child => framesConv (rec child)) statements
            | _ => True
            end) cases ->
  forall caseValues,
    framesConv (convertCases rec valueType caseValues cases).
Proof.
  pose proof frames_convertCaseValue.
  induction 1 as [|c rest Hc Hrest IH]; intros caseValues;
    cbn [convertCases]; [apply framesConv_ret|].
  destruct c; try apply framesConv_ret.
  pose proof (framesConv_convertStatements _ Hc).
  repeat framesConv_step.
Qed.

Lemma framesConv_convertSwitch (offset : Z) (isStatic : bool)
    (value : ASTNode) (cases : list ASTNode) :
  Forall (fun c =>
            match c with
            | kSwitchCase _ _ statements =>
                Forall (fun child => framesConv (rec child)) statements
            | _ => True
            end) cases ->
  framesConv (convertSwitch rec offset isStatic value cases).
Proof.
  intros Hcases.
  pose proof (framesConv_convertCases) as Hframes.
  pose proof frames_convertExpression. pose proof frames_coerce.
  unfold convertSwitch.
  apply framesConv_AutoSwitchLevel.
  apply framesConv_bindNull; [repeat framesConv_step | intros v].
  apply framesConv_bindNull; [repeat framesConv_step | intros v'].
  apply framesConv_AutoSymbolTable.
  apply framesConv_bindNull;
    [now apply Hframes | intros cs; apply framesConv_ret].
Qed.

(** A statement that is not compound.  For an expression statement the
    result is dereferenced in a geometry program only. *)
Lemma framesConv_simple_statement (statement : ASTNode) :
  isCompoundStatement statement = false ->
  framesConv (convertSingleStatement rec statement).
Proof.
  intros Hsimple.
  pose proof frames_convertVarDeclarationStatement.
  pose proof frames_convertReturn.
  pose proof frames_convertExpressionStatement.
  pose proof frames_getNormalizeSkPositionCode.
  pose proof framesConv_convertBreak.
  pose proof framesConv_convertContinue.
  destruct statement; try discriminate; cbn [convertSingleStatement];
    first
      [ apply framesConv_bind; [repeat framesConv_step | intros result];
        apply framesConv_bind; [repeat framesConv_step | intros rtAdjust];
        apply framesConv_unless_geometry; apply framesConv_ret
      | repeat framesConv_step ].
Qed.

Lemma framesConv_convertStatement_body (statement : ASTNode) :
  framesConv (convertSingleStatement rec statement) ->
  framesConv (convertStatement_body rec statement).
Proof.
  intros Hsingle. unfold convertStatement_body. repeat framesConv_step.
Qed.

End FramesStatementConverters.

Lemma framesConv_convertStatement (statement : ASTNode) :
  framesConv (convertStatement statement).
Proof.
  induction statement using statement_induction;
    rewrite convertStatement_unfold; apply framesConv_convertStatement_body.
  - now apply framesConv_convertBlock.
  - now apply framesConv_convertIf.
  - now apply framesConv_convertFor.
  - now apply framesConv_convertWhile.
  - now apply framesConv_convertDo.
  - now apply framesConv_convertSwitch.
  - now apply framesConv_simple_statement.
Qed.

End Framing.

Lemma extendsErrors_same (e e' : Env) :
  fErrors e' = fErrors e -> extendsErrors e e'.
Proof. intros Hsame. exists []. now rewrite app_nil_r. Qed.

Lemma extendsErrors_trans (e1 e2 e3 : Env) :
  extendsErrors e1 e2 -> extendsErrors e2 e3 -> extendsErrors e1 e3.
Proof.
  intros [more1 H1] [more2 H2]. exists (more1 ++ more2).
  now rewrite H2, H1, app_assoc.
Qed.

Lemma extendsErrors_reported (e : Env) (offset : Z) (msg : string) :
  extendsErrors e (reported offset msg e).
Proof. exists [(offset, msg)]. reflexivity. Qed.

(** X25. The conversion of an expression declares nothing: where the
    functions outside the model leave the symbol table alone, the symbol
    table after [convertExpression] is the one before it. *)
Theorem convertExpression_keeps_symbol_table (expr : ASTNode) (e : Env) :
  collaboratorsFrame keepsSymbolTable ->
  fSymbolTable (snd (convertExpression expr e)) = fSymbolTable e.
Proof.
  intros Hcollaborators.
  apply (frames_convertExpression keepsSymbolTable); try assumption;
    try (intros; reflexivity).
  intros e1 e2 e3 H12 H23. unfold keepsSymbolTable in *. congruence.
Qed.

Lemma extendsScope_refl (e : Env) : extendsScope e e.
Proof.
  unfold extendsScope. destruct (fSymbolTable e) as [|scope parent];
    [reflexivity | now exists []].
Qed.

Lemma extendsScope_same (e e' : Env) :
  fSymbolTable e' = fSymbolTable e -> extendsScope e e'.
Proof.
  intros Hsame. unfold extendsScope. rewrite Hsame. apply extendsScope_refl.
Qed.

Lemma extendsScope_trans (e1 e2 e3 : Env) :
  extendsScope e1 e2 -> extendsScope e2 e3 -> extendsScope e1 e3.
Proof.
  unfold extendsScope. intros H12 H23.
  destruct (fSymbolTable e1) as [|scope parent].
  - now rewrite H12 in H23.
  - destruct H12 as [added1 H12]. rewrite H12 in H23.
    destruct H23 as [added2 H23]. exists (added2 ++ added1).
    now rewrite H23, app_assoc.
Qed.

Lemma extendsScope_guard (e e' : Env) :
  extendsScope (with_fSymbolTable ([] :: fSymbolTable e) e) e' ->
  fSymbolTable (with_fSymbolTable (tl (fSymbolTable e')) e') = fSymbolTable e.
Proof.
  unfold extendsScope. cbn. intros [added Hadded]. now rewrite Hadded.
Qed.

(** The relations of the theorems below depend on the reported errors and
    on the symbol table only.  For such a relation [Q], the conversion of a
    statement in a program that is not a geometry program keeps [Q], the
    program kind and the nesting counters, where the functions outside the
    model keep [Q] and the program kind. *)
Section StatementFrames.

Variable Q : Env -> Env -> Prop.

Hypothesis Q_same :
  forall e e',
    fErrors e' = fErrors e -> fSymbolTable e' = fSymbolTable e -> Q e e'.
Hypothesis Q_trans : forall e1 e2 e3, Q e1 e2 -> Q e2 e3 -> Q e1 e3.
Hypothesis Q_error : forall e offset msg, Q e (reported offset msg e).
Hypothesis Q_declare :
  forall e scope parent entry,
    fSymbolTable e = scope :: parent ->
    Q e (with_fSymbolTable ((entry :: scope) :: parent) e).
Hypothesis Q_scope :
  forall e e',
    Q (with_fSymbolTable ([] :: fSymbolTable e) e) e' ->
    Q e (with_fSymbolTable (tl (fSymbolTable e')) e').
Hypothesis Q_collaborators : collaboratorsFrame Q.
Hypothesis kind_collaborators : collaboratorsFrame keepsKind.

Lemma sameKind_same (e e' : Env) :
  fKind e' = fKind e -> fErrors e' = fErrors e ->
  fSymbolTable e' = fSymbolTable e -> sameKind Q e e'.
Proof. intros Hkind Herrors Htable. split; [exact Hkind | now apply Q_same]. Qed.

Lemma sameKind_trans (e1 e2 e3 : Env) :
  sameKind Q e1 e2 -> sameKind Q e2 e3 -> sameKind Q e1 e3.
Proof.
  intros [Hk12 H12] [Hk23 H23].
  split; [congruence | now apply Q_trans with e2].
Qed.

Lemma sameKind_collaborators : collaboratorsFrame (sameKind Q).
Proof.
  destruct Q_collaborators as (Q1 & Q2 & Q3 & Q4).
  destruct kind_collaborators as (K1 & K2 & K3 & K4).
  repeat split; intros;
    first [apply K1 | apply K2 | apply K3 | apply K4
          | apply Q1 | apply Q2 | apply Q3 | apply Q4].
Qed.

Lemma framesConv_sameKind (statement : ASTNode) :
  framesConv (sameKind Q) (convertStatement statement).
Proof.
  apply (framesConv_convertStatement (sameKind Q));
    try (intros; apply sameKind_same; reflexivity).
  - apply sameKind_trans.
  - intros e offset msg. split; [reflexivity | apply Q_error].
  - intros e scope parent entry Htable.
    split; [reflexivity | now apply Q_declare].
  - intros e e' [Hkind Hbody]. split; [exact Hkind | now apply Q_scope].
  - intros e e' [Hkind _]. exact Hkind.
  - apply sameKind_collaborators.
Qed.

(** A block and a [for] loop are a guarded scope around a body that keeps
    [Q]. *)
Lemma block_inner (offset : Z) (children : list ASTNode) :
  exists inner,
    convertBlock convertStatement offset children = AutoSymbolTable inner
    /\ framesConv (sameKind Q) inner.
Proof.
  apply (convertBlock_guarded (sameKind Q));
    try (intros; apply sameKind_same; reflexivity).
  - apply sameKind_trans.
  - intros e e' [Hkind _]. exact Hkind.
  - apply Forall_forall. intros child _. apply framesConv_sameKind.
Qed.

Lemma for_inner (offset : Z) (initializer test next body : ASTNode) :
  exists inner,
    convertFor convertStatement offset initializer test next body
    = AutoLoopLevel (AutoSymbolTable inner)
    /\ framesConv (sameKind Q) inner.
Proof.
  apply (convertFor_guarded (sameKind Q));
    try (intros; apply sameKind_same; reflexivity);
    try apply framesConv_sameKind.
  - apply sameKind_trans.
  - intros e offset' msg. split; [reflexivity | apply Q_error].
  - intros e e' [Hkind _]. exact Hkind.
  - apply sameKind_collaborators.
Qed.

End StatementFrames.




(** X24. No conversion loses an error: where the functions outside the
    model only add to the reported errors, the errors after the conversion
    of an expression are those before it, in their order, followed by the
    ones the conversion reports; and so are the errors after the conversion
    of a statement, in a program that is not a geometry program (where the
    conversion of an expression statement can dereference null) and whose
    kind the functions outside the model leave as it is. *)
Theorem conversion_appends_errors :
  collaboratorsFrame extendsErrors ->
  (forall (expr : ASTNode) (e : Env),
     exists more,
       fErrors (snd (convertExpression expr e)) = fErrors e ++ more)
  /\ (collaboratorsFrame keepsKind ->
      forall (statement : ASTNode) (g : IRGenerator),
        fKind (env g) <> kGeometry_Kind ->
        exists more,
          fErrors (env (snd (convertStatement statement g)))
          = fErrors (env g) ++ more).
Proof.
  intros Hcollaborators. split.
  - intros expr e.
    apply (frames_convertExpression extendsErrors); try assumption;
      try (intros; apply extendsErrors_same; reflexivity).
    + apply extendsErrors_trans.
    + apply extendsErrors_reported.
  - intros Hkinds statement g Hkind.
    assert (Hframe : framesConv (sameKind extendsErrors)
                       (convertStatement statement)).
    { apply framesConv_sameKind; try assumption;
        try (intros; apply extendsErrors_same; reflexivity).
      - intros e e' Herrors _. now apply extendsErrors_same.
      - apply extendsErrors_trans.
      - apply extendsErrors_reported.
      - intros e e' [more Hmore]. exists more. exact Hmore. }
    destruct (Hframe g Hkind) as [[_ Herrors] _]. exact Herrors.
Qed.

Lemma framesConv_extendsScope (statement : ASTNode) :
  collaboratorsFrame extendsScope ->
  collaboratorsFrame keepsKind ->
  framesConv (sameKind extendsScope) (convertStatement statement).
Proof.
  intros Hcollaborators Hkinds.
  apply framesConv_sameKind; try assumption.
  - intros e e' _ Htable. now apply extendsScope_same.
  - apply extendsScope_trans.
  - intros; apply extendsScope_same; reflexivity.
  - intros e scope parent entry Htable. unfold extendsScope. rewrite Htable.
    now exists [entry].
  - intros e e' Hbody. apply extendsScope_same.
    now apply extendsScope_guard.
Qed.

(** X26. A statement declares in the innermost scope only: where the
    functions outside the model do so, the symbol table after
    [convertStatement] is the one before it with symbols added in front of
    its innermost scope; the scopes that enclose it are left as they
    were.  The program is not a geometry program (where the conversion of
    an expression statement can dereference null), and the functions
    outside the model leave the program kind as it is. *)
Theorem convertStatement_extends_innermost_scope
    (statement : ASTNode) (g : IRGenerator)
    (scope : list (string * Symbol)) (parent : SymbolTable) :
  collaboratorsFrame extendsScope ->
  collaboratorsFrame keepsKind ->
  fKind (env g) <> kGeometry_Kind ->
  fSymbolTable (env g) = scope :: parent ->
  exists added,
    fSymbolTable (env (snd (convertStatement statement g)))
    = (added ++ scope) :: parent.
Proof.
  intros Hcollaborators Hkinds Hkind Htable.
  destruct (framesConv_extendsScope statement Hcollaborators Hkinds g Hkind)
    as [[_ H] _].
  unfold extendsScope in H. now rewrite Htable in H.
Qed.

Lemma AutoSymbolTable_restores {A : Type} (body : Conv A) (g : IRGenerator) :
  framesConv (sameKind extendsScope) body ->
  fKind (env g) <> kGeometry_Kind ->
  fSymbolTable (env (snd (AutoSymbolTable body g))) = fSymbolTable (env g).
Proof.
  intros Hbody Hkind.
  unfold AutoSymbolTable, liftGen, pushSymbolTable, popSymbolTable, bind,
    modify, ret.
  match goal with
  | |- context [body ?g1] =>
      destruct (Hbody g1 Hkind) as [[_ Hscope] _];
      destruct (body g1) as [result g2]
  end.
  cbn [env snd] in *. now apply extendsScope_guard.
Qed.

Lemma convertStatement_body_symbols
    (rec : ASTNode -> Conv (option Statement)) (statement : ASTNode)
    (g : IRGenerator) :
  fKind (env g) <> kGeometry_Kind ->
  (forall g',
     fKind (env g') <> kGeometry_Kind ->
     fSymbolTable (env (snd (convertSingleStatement rec statement g')))
     = fSymbolTable (env g')) ->
  fSymbolTable (env (snd (convertStatement_body rec statement g)))
  = fSymbolTable (env g).
Proof.
  intros Hkind Hsingle.
  unfold convertStatement_body, liftGen, bind, gets, modify, ret.
  match goal with
  | |- context [convertSingleStatement rec statement ?g1] =>
      specialize (Hsingle g1 Hkind);
      destruct (convertSingleStatement rec statement g1) as [result g2]
  end.
  cbn [env snd fst] in *.
  destruct result as [result|]; [destruct (fExtraStatements (env g2))|];
    exact Hsingle.
Qed.

(** X27. Scopes are lexical: where the functions outside the model declare
    in the innermost scope only, the symbol table after the conversion of a
    block, or of a [for] loop, is the one before it, whatever the statements
    inside declare and whether the conversion yields a statement or null.
    The program is not a geometry program (where the conversion of an
    expression statement can dereference null, and does not return), and
    the functions outside the model leave the program kind as it is. *)
Theorem block_restores_symbol_table (statement : ASTNode) (g : IRGenerator) :
  collaboratorsFrame extendsScope ->
  collaboratorsFrame keepsKind ->
  fKind (env g) <> kGeometry_Kind ->
  match statement with
  | kBlock _ _ | kFor _ _ _ _ _ => True
  | _ => False
  end ->
  fSymbolTable (env (snd (convertStatement statement g)))
  = fSymbolTable (env g).
Proof.
  intros Hcollaborators Hkinds Hkind Hblock.
  assert (Hinner :
            (forall offset children,
               exists inner,
                 convertBlock convertStatement offset children
                 = AutoSymbolTable inner
                 /\ framesConv (sameKind extendsScope) inner)
            /\ (forall offset initializer test next body,
                  exists inner,
                    convertFor convertStatement offset initializer test next
                      body
                    = AutoLoopLevel (AutoSymbolTable inner)
                    /\ framesConv (sameKind extendsScope) inner)).
  { split; intros;
      [apply block_inner | apply for_inner]; try assumption;
      try (intros; apply extendsScope_same; reflexivity);
      try apply extendsScope_trans.
    all: try (intros e e' _ Htable; now apply extendsScope_same).
    all: try (intros e scope parent entry Htable; unfold extendsScope;
              rewrite Htable; now exists [entry]).
    all: intros e e' Hbody; apply extendsScope_same;
      now apply extendsScope_guard. }
  destruct Hinner as [Hblocks Hfors].
  rewrite convertStatement_unfold.
  apply convertStatement_body_symbols; [exact Hkind|].
  intros g' Hkind'.
  destruct statement; try contradiction; cbn [convertSingleStatement].
  - match goal with
    | |- context [convertBlock _ ?o ?c] =>
        destruct (Hblocks o c) as (inner & -> & Hbody)
    end.
    now apply AutoSymbolTable_restores.
  - match goal with
    | |- context [convertFor _ ?o ?i ?t ?n ?b] =>
        destruct (Hfors o i t n b) as (inner & -> & Hbody)
    end.
    unfold AutoLoopLevel, bind, modify, ret.
    match goal with
    | |- context [AutoSymbolTable inner ?g1] =>
        pose proof (AutoSymbolTable_restores inner g1 Hbody Hkind') as Hguard;
        destruct (AutoSymbolTable inner g1) as [result g2]
    end.
    exact Hguard.
Qed.

End Properties.


(** * Part III, continued: properties of the tiling helpers *)

Section TilingProperties.

Context {platform : TilingPlatform}.

Lemma int32_t_small (v : Z) : - 2147483648 <= v <= INT_MAX -> int32_t v = v.
Proof.
  unfold int32_t, INT_MAX. intros Hv.
  rewrite Z.mod_small by lia. lia.
Qed.

Lemma size_t_small (v : Z) :
  32 <= SIZE_BITS -> 0 <= v < 2 ^ 32 -> size_t v = v.
Proof.
  intros Hbits Hv. unfold size_t. apply Z.mod_small.
  assert (2 ^ 32 <= 2 ^ SIZE_BITS) by (apply Z.pow_le_mono_r; lia). lia.
Qed.

Lemma determine_tile_size_cases (src : SkIRect) (maxTileSize : Z) :
  (determine_tile_size src maxTileSize = maxTileSize
   \/ determine_tile_size src maxTileSize = kBmpSmallTileSize)
  /\ determine_tile_size src maxTileSize <= maxTileSize
  /\ (maxTileSize <= 1024 -> determine_tile_size src maxTileSize = maxTileSize).
Proof.
  unfold determine_tile_size.
  change kBmpSmallTileSize with 1024.
  destruct (Z.leb_spec maxTileSize 1024) as [Hsmall | Hlarge].
  - repeat split; auto; lia.
  - match goal with
    | |- context [if ?b then _ else _] => destruct b
    end; repeat split; auto; lia.
Qed.

(** X28. When [ShouldTileImage] returns true for an image whose sides are
    not negative, the tile size it has written is positive and at most the
    largest tile size it was given: it is that size or 1024, and 1024 is
    chosen only for an image of at least 4 * 1024 * 1024 pixels that fits in
    the largest tile, so the largest tile is not smaller. *)
Theorem ShouldTileImage_tile_size
    (conservativeClipBounds : SkIRect) (imageSize : SkISize)
    (ctm srcToDst : SkMatrix) (src : option SkRect)
    (maxTileSize cacheSize tileSize0 : Z) (clippedSubset0 : SkIRect)
    (Hbits : 32 <= SIZE_BITS)
    (Hwidth : 0 <= fWidth imageSize <= INT_MAX)
    (Hheight : 0 <= fHeight imageSize <= INT_MAX)
    (Hmax : 0 < maxTileSize)
    (Htiled : fst (ShouldTileImage conservativeClipBounds imageSize ctm
                     srcToDst src maxTileSize cacheSize tileSize0
                     clippedSubset0) = true) :
  let tileSize :=
    fst (snd (ShouldTileImage conservativeClipBounds imageSize ctm srcToDst
                src maxTileSize cacheSize tileSize0 clippedSubset0)) in
  (tileSize = maxTileSize \/ tileSize = kBmpSmallTileSize)
  /\ 0 < tileSize <= maxTileSize.
Proof.
  unfold ShouldTileImage in *.
  destruct ((fWidth imageSize >? maxTileSize)
            || (fHeight imageSize >? maxTileSize)) eqn:Hlarger.
  - cbn [fst snd].
    destruct (determine_tile_size_cases
                (determine_clipped_src_rect conservativeClipBounds ctm
                   srcToDst imageSize src) maxTileSize)
      as ([Heq | Heq] & Hle & _); rewrite Heq in *;
      change kBmpSmallTileSize with 1024 in *; split; auto; lia.
  - apply orb_false_iff in Hlarger as [Hw Hh].
    rewrite Z.gtb_ltb in Hw, Hh. apply Z.ltb_ge in Hw, Hh.
    assert (Hlimit : size_t (int32_t (int32_t (4 * kBmpSmallTileSize)
                                      * kBmpSmallTileSize)) = 4194304).
    { change (int32_t (int32_t (4 * kBmpSmallTileSize) * kBmpSmallTileSize))
        with 4194304.
      apply size_t_small; [assumption | lia]. }
    rewrite Hlimit in *.
    destruct (Z.ltb_spec
                (size_t (int32_t (fWidth imageSize * fHeight imageSize)))
                4194304) as [Hfew | Hmany]; [discriminate Htiled|].
    assert (Hroom : 1024 <= maxTileSize).
    { destruct (Z.le_gt_cases 1024 maxTileSize) as [|Hsmall]; [assumption|].
      exfalso.
      assert (Harea : 0 <= fWidth imageSize * fHeight imageSize <= 1023 * 1023)
        by nia.
      rewrite int32_t_small in Hmany by (unfold INT_MAX; lia).
      rewrite size_t_small in Hmany by (try assumption; lia).
      lia. }
    destruct (cacheSize =? 0); [discriminate Htiled|].
    match type of Htiled with
    | context [if ?b then _ else _] => destruct b
    end; [discriminate Htiled|].
    cbn [fst snd]. change kBmpSmallTileSize with 1024. split; [auto | lia].
Qed.

(** X29. [ClampedOutsetWithOffset], when its two differences of edges do
    not overflow: each edge of the rectangle is the edge of the outset
    rectangle clamped to the edge of [clamp] (the greater of the two on the
    left and at the top, the lesser on the right and at the bottom), and
    each coordinate of the offset is moved back by the outset less what the
    clamp took from it. *)
Theorem ClampedOutsetWithOffset_clamps
    (iRect : SkIRect) (outset : Z) (offset : SkPoint) (clamp : SkIRect) :
  let outer := SkIRect_outset iRect outset outset in
  forall
    (Hleft : - 2147483648 <= fLeft clamp - fLeft outer <= INT_MAX)
    (Htop : - 2147483648 <= fTop clamp - fTop outer <= INT_MAX)
    (HmoveX : - 2147483648 <= outset - (fLeft clamp - fLeft outer) <= INT_MAX)
    (HmoveY : - 2147483648 <= outset - (fTop clamp - fTop outer) <= INT_MAX),
  ClampedOutsetWithOffset iRect outset offset clamp
  = ({| fLeft := Z.max (fLeft outer) (fLeft clamp);
        fTop := Z.max (fTop outer) (fTop clamp);
        fRight := Z.min (fRight outer) (fRight clamp);
        fBottom := Z.min (fBottom outer) (fBottom clamp) |},
     {| fX := SkScalar_minus_int (fX offset)
                (outset - (Z.max (fLeft outer) (fLeft clamp) - fLeft outer));
        fY := SkScalar_minus_int (fY offset)
                (outset - (Z.max (fTop outer) (fTop clamp) - fTop outer)) |}).
Proof.
  intros outer Hleft Htop HmoveX HmoveY.
  unfold ClampedOutsetWithOffset. fold outer.
  rewrite (int32_t_small (fLeft clamp - fLeft outer)) by assumption.
  rewrite (int32_t_small (fTop clamp - fTop outer)) by assumption.
  rewrite (int32_t_small (outset - (fLeft clamp - fLeft outer)))
    by assumption.
  rewrite (int32_t_small (outset - (fTop clamp - fTop outer))) by assumption.
  f_equal; f_equal.
  - destruct (Z.gtb_spec (fLeft clamp - fLeft outer) 0); lia.
  - destruct (Z.gtb_spec (fTop clamp - fTop outer) 0); lia.
  - destruct (Z.gtb_spec (fRight outer) (fRight clamp)); lia.
  - destruct (Z.gtb_spec (fBottom outer) (fBottom clamp)); lia.
  - destruct (Z.gtb_spec (fLeft clamp - fLeft outer) 0); f_equal; lia.
  - destruct (Z.gtb_spec (fTop clamp - fTop outer) 0); f_equal; lia.
Qed.

End TilingProperties.

(** * Part IV: the properties at work on the concrete generator *)

#[local] Existing Instance wideningTypes.
#[local] Existing Instance noFloats.
#[local] Existing Instance exampleSwizzles.
#[local] Existing Instance exampleConstants.
#[local] Existing Instance exampleCollaborators.
#[local] Existing Instance exampleUndefined.

#[local] Existing Instance wideningNodes.

(** [2147483647 + 1] folds, from the syntax tree on. *)
Example fold_INT_MAX_plus_1 :
  convertExpression (kBinary 0 (kInt 0 2147483647) TK_PLUS (kInt 13 1))
    exampleEnv
  = (Some (IntLiteral 0 2147483648 T_int), exampleEnv).
Proof. vm_compute. reflexivity. Qed.

(** [1 - 2] wraps around to [4294967295]. *)
Example fold_1_minus_2 :
  constantFold (IntLiteral 0 1 T_int) TK_MINUS (IntLiteral 4 2 T_int) exampleEnv
  = (Some (IntLiteral 0 4294967295 T_int), exampleEnv).
Proof. vm_compute. reflexivity. Qed.

(** [x && true], with the variable [x] on the left, folds to [x]. *)
Lemma constantFold_short_circuit_witness :
  isCompileTimeConstant reference_x = false
  /\ constantFold reference_x TK_LOGICALAND (BoolLiteral 35 true T_bool)
       exampleEnv
     = (Some reference_x, exampleEnv).
Proof.
  split; [reflexivity|].
  exact (proj2 (proj1 (constantFold_short_circuit 35 true T_bool reference_x
                         exampleEnv eq_refl))).
Defined.

(** Coercing the literal [7] of type [int] to [int]. *)
Lemma coerce_same_type_witness :
  Type_eqb (type_of literal_7) T_int = true
  /\ coerce (Some literal_7) T_int exampleEnv = (Some literal_7, exampleEnv).
Proof.
  split; [reflexivity|].
  exact (coerce_same_type literal_7 T_int exampleEnv eq_refl).
Defined.

Lemma SkType_eqb_sym (a : SkType) : forall b, SkType_eqb a b = SkType_eqb b a.
Proof.
  induction a; destruct b; cbn; try reflexivity;
    rewrite ?IHa; rewrite ?(Z.eqb_sym n), ?(Z.eqb_sym c), ?(Z.eqb_sym r),
      ?(Z.eqb_sym size); reflexivity.
Qed.

(** Widening goes one way: of two different types of the examples, at most
    one coerces to the other. *)
Lemma wideningTypes_one_way (a : SkType) :
  forall b,
    SkType_eqb a b = false ->
    @coercionCost _ wideningTypes a b = INT_MAX
    \/ @coercionCost _ wideningTypes b a = INT_MAX.
Proof.
  cbn [coercionCost wideningTypes tableTypes].
  induction a; intros b Hdifferent; destruct b;
    try discriminate Hdifferent;
    try (left; reflexivity); try (right; reflexivity).
  - cbn [SkType_coercionCost]. rewrite (SkType_eqb_sym (T_vector b n0)).
    rewrite Hdifferent. cbn [SkType_eqb] in Hdifferent.
    rewrite (Z.eqb_sym n0 n).
    destruct (n =? n0); [|left; reflexivity].
    rewrite andb_true_r in Hdifferent. now apply IHa.
  - cbn [SkType_coercionCost]. rewrite (SkType_eqb_sym (T_matrix b c0 r0)).
    rewrite Hdifferent. cbn [SkType_eqb] in Hdifferent.
    rewrite (Z.eqb_sym c0 c), (Z.eqb_sym r0 r).
    destruct (c =? c0); [|left; reflexivity].
    destruct (r =? r0); [|left; reflexivity].
    rewrite !andb_true_r in Hdifferent. now apply IHa.
  - left. cbn [SkType_coercionCost]. now rewrite Hdifferent.
  - left. cbn [SkType_coercionCost]. now rewrite Hdifferent.
Qed.



(** The masks "", "xyzwx" and "00" on [v], the read and the write of
    [v.xx], and the write of [v.xy]. *)
Lemma swizzle_validity_witness :
  (exists msg, convertSwizzle reference_v "" exampleEnv
               = (None, reported 40 msg exampleEnv))
  /\ (exists msg, convertSwizzle reference_v "xyzwx" exampleEnv
                  = (None, reported 40 msg exampleEnv))
  /\ (exists msg, convertSwizzle reference_v "00" exampleEnv
                  = (None, reported 40 msg exampleEnv))
  /\ convertSwizzle reference_v "xx" exampleEnv
     = (Some (Swizzle reference_v [0; 0]), exampleEnv)
  /\ setRefKind (Swizzle reference_v [0; 0]) kWrite_RefKind exampleEnv
     = ((false, Swizzle reference_v [0; 0]),
        reported 40 "cannot write to the same swizzle field more than once"
          exampleEnv)
  /\ (fst (checkSwizzleWrite reference_v [0; 1] exampleEnv) = true
      <-> Forall (fun idx => 0 <= idx) [0; 1] /\ NoDup [0; 1]).
Proof.
  pose proof (swizzle_validity (Ty := SkType) (F := unit) (Rest := unit))
    as (Hrejects & _ & Hxx & _ & Hwrite & Hxxwrite).
  split; [apply Hrejects; left; reflexivity|].
  split; [apply Hrejects; right; left; cbn; lia|].
  split; [apply Hrejects; right; right; reflexivity|].
  split; [apply Hxx; reflexivity|].
  split; [apply Hxxwrite|].
  apply (Hwrite reference_v [0; 1] kWrite_RefKind exampleEnv).
  repeat constructor; lia.
Defined.

(** [break;] and [continue;] outside of a loop, and inside of one. *)
Lemma break_continue_legality_witness :
  (0 <= fLoopLevel exampleGenerator /\ 0 <= fSwitchLevel exampleGenerator)
  /\ convertBreak 3 exampleGenerator
     = (None,
        refused 3 "break statement must be inside a loop or switch"
          exampleGenerator)
  /\ convertContinue 3 exampleGenerator
     = (None,
        refused 3 "continue statement must be inside a loop" exampleGenerator)
  /\ convertBreak 3 {| env := exampleEnv; fLoopLevel := 1; fSwitchLevel := 0 |}
     = (Some (BreakStatement 3),
        {| env := exampleEnv; fLoopLevel := 1; fSwitchLevel := 0 |}).
Proof.
  split; [split; discriminate|].
  pose proof (break_continue_legality 3 exampleGenerator) as Houtside.
  pose proof (break_continue_legality 3
                {| env := exampleEnv; fLoopLevel := 1; fSwitchLevel := 0 |})
    as Hinside.
  split; [apply Houtside; try discriminate; split; reflexivity|].
  split; [apply Houtside; try discriminate; reflexivity|].
  apply Hinside; try discriminate. left. discriminate.
Defined.

(** [f(1)] with the overloads [f(float)] and [f(int)], in this order: the
    exact match [f(int)] costs nothing and is selected over the widening
    match [f(float)]. *)
Lemma call_overload_resolution_witness :
  callCost f_int [literal_1] = 0
  /\ callCost f_float [literal_1] = 3
  /\ selectOverload [f_float; f_int] [literal_1] = Some f_int
  /\ exists best,
       selectOverload [f_float; f_int] [literal_1] = Some best
       /\ callCost best [literal_1] = 0
       /\ best <> f_float.
Proof.
  split; [reflexivity|]. split; [reflexivity|]. split; [reflexivity|].
  refine (proj2 (proj2 (call_overload_resolution 0 0 f_float f_int []
                          [literal_1] exampleEnv))
            f_int f_float _ _ eq_refl eq_refl _).
  - right. left. reflexivity.
  - left. reflexivity.
  - intros g [<- | [<- | []]]; discriminate.
Defined.

(** C9, the claim as stated fails: after [const int x = 5;], where
    [getConstantInt] finds the value 5 behind a reference to [x], the
    declaration [int arr[x];] is refused with "array size must be
    specified" and yields no IR node. *)
Lemma array_size_constant_variable_refused :
  getConstantInt reference_x = Some 5
  /\ convertStatement declare_arr_x declaredGenerator
     = (None, refused 28 "array size must be specified" declaredGenerator).
Proof. split; vm_compute; reflexivity. Qed.

(** [int arr[5];], [int arr[-1];] and [int arr[x];]. *)
Lemma array_size_positive_literal_witness :
  Type_eqb IntLiteral_Type fInt_Type = true
  /\ convertArraySizes convertExpression T_int [kInt 28 5] declaredEnv
     = (Some (T_array "int[5]" T_int 5, [Some (IntLiteral 28 5 T_int)]),
        declaredEnv)
  /\ convertArraySizes convertExpression T_int
       [kPrefix 28 Prefix_MINUS (kInt 29 1)] declaredEnv
     = (None, reported 29 "array size must be positive" declaredEnv)
  /\ exists e',
       convertArraySizes convertExpression T_int [kIdentifier 28 "x"]
         declaredEnv
       = (None, reported 28 "array size must be specified" e').
Proof.
  pose proof (array_size_positive_literal T_int [] declaredEnv eq_refl)
    as (Hpositive & _ & Hminus & Hvariable & _).
  split; [reflexivity|].
  split; [apply (Hpositive 28 5); reflexivity|].
  split; [apply (Hminus 28 29)|].
  apply (Hvariable 28 "x" variable_x); reflexivity.
Defined.

(** The declarations above, from the statement on. *)
Example declare_arr_5 :
  fst (convertStatement (declare_arr (kInt 28 5)) declaredGenerator)
  = Some (VarDeclarationsStatement
            {| VarDeclarations_fOffset := 20; fBaseType := T_int;
               fVars :=
                 [{| fVar := mkVar 24 noModifiers "arr"
                               (T_array "int[5]" T_int 5) kLocal_Storage None;
                     fSizes := [Some (IntLiteral 28 5 T_int)];
                     VarDeclaration_fValue := None |}] |}).
Proof. vm_compute. reflexivity. Qed.

Example declare_arr_minus_1 :
  convertStatement (declare_arr (kPrefix 28 Prefix_MINUS (kInt 29 1)))
    declaredGenerator
  = (None, refused 29 "array size must be positive" declaredGenerator).
Proof. vm_compute. reflexivity. Qed.

(** [while (true) { break; }] converts: the loop level is 1 while the body
    is converted, and 0 again after the loop. *)
Example break_inside_while :
  convertStatement (kWhile 0 (kBool 7 true) (kBlock 13 [kBreak 15]))
    exampleGenerator
  = (Some (WhileStatement 0 (BoolLiteral 7 true T_bool)
             (Block 13 [BreakStatement 15] true)),
     exampleGenerator).
Proof. vm_compute. reflexivity. Qed.

(** [switch (1) { case 1: break; }] converts; [break] then [continue] in
    the case would not: the switch level does not make [continue] legal. *)
Example continue_inside_switch :
  fst (convertStatement
         (kSwitch 0 false (kInt 8 1) [kSwitchCase 13 (kInt 18 1) [kBreak 21]])
         exampleGenerator)
  = Some (SwitchStatement 0 false (IntLiteral 8 1 T_int)
            [mkSwitchCase 13 (Some (IntLiteral 18 1 T_int)) [BreakStatement 21]])
  /\ convertStatement
       (kSwitch 0 false (kInt 8 1)
          [kSwitchCase 13 (kInt 18 1) [kContinue 21]])
       exampleGenerator
     = (None, refused 21 "continue statement must be inside a loop"
                exampleGenerator).
Proof. split; vm_compute; reflexivity. Qed.


(** ** The further properties at work *)

(** [-7 / 2] and [-7 % 2]. *)
Lemma constantFold_int_quotient_remainder_witness :
  exists q r,
    constantFold (IntLiteral 0 (-7) T_int) TK_SLASH (IntLiteral 5 2 T_int)
      exampleEnv
    = (Some (IntLiteral_new 0 q), exampleEnv)
    /\ constantFold (IntLiteral 0 (-7) T_int) TK_PERCENT (IntLiteral 5 2 T_int)
         exampleEnv
       = (Some (IntLiteral_new 0 r), exampleEnv)
    /\ -7 = q * 2 + r /\ Z.abs r < Z.abs 2 /\ 0 <= r * -7.
Proof.
  apply constantFold_int_quotient_remainder; [lia | right; lia].
Defined.

(** [float2(1, 2) / float2(3, 0)]: over the floats of the examples every
    component compares equal to zero. *)
Lemma constantFold_vector_division_witness :
  constantFold
    (Constructor 0 (T_vector T_float 2)
       [FloatLiteral 7 tt T_float; FloatLiteral 10 tt T_float])
    TK_SLASH
    (Constructor 15 (T_vector T_float 2)
       [FloatLiteral 22 tt T_float; FloatLiteral 25 tt T_float])
    exampleEnv
  = (None, reported 15 "division by zero" exampleEnv).
Proof.
  apply (proj1 (constantFold_vector_division (types := wideningTypes) 0
                  [FloatLiteral 7 tt T_float; FloatLiteral 10 tt T_float] 15
                  [FloatLiteral 22 tt T_float; FloatLiteral 25 tt T_float]
                  (T_vector T_float 2) exampleEnv eq_refl eq_refl eq_refl
                  eq_refl eq_refl)).
  left. reflexivity.
Defined.

(** [int < float] compares two [float]. *)
Lemma determine_binary_type_relational_witness :
  isScalar T_int = true /\ isScalar T_float = true
  /\ T_float = T_float
  /\ (T_float = T_int \/ T_float = T_float)
  /\ T_bool = fBool_Type.
Proof.
  exact (determine_binary_type_relational (types := wideningTypes) TK_LT T_int T_float
           {| outLeftType := T_float; outRightType := T_float;
              outResultType := T_bool |} eq_refl eq_refl).
Defined.

(** [float = int] converts the right operand; [int = float] is illegal. *)
Lemma determine_binary_type_assignment_witness :
  determine_binary_type TK_EQ T_float T_int
  = Some {| outLeftType := T_float; outRightType := T_float;
            outResultType := T_float |}
  /\ determine_binary_type TK_EQ T_int T_float = None.
Proof.
  split.
  - refine (determine_binary_type_assignment (types := wideningTypes) TK_EQ T_float T_int eq_refl _
              eq_refl eq_refl _);
      [repeat split; discriminate | vm_compute; discriminate].
  - refine (determine_binary_type_assignment (types := wideningTypes) TK_EQ T_int T_float eq_refl _
              eq_refl eq_refl _);
      [repeat split; discriminate | vm_compute; discriminate].
Defined.

(** [float4 * float] and [float4 * int]. *)
Lemma determine_binary_type_vector_scalar_witness :
  determine_binary_type TK_STAR (T_vector T_float 4) T_float
  = Some {| outLeftType := T_vector T_float 4; outRightType := T_float;
            outResultType := T_vector T_float 4 |}
  /\ determine_binary_type TK_STAR (T_vector T_float 4) T_int
     = Some {| outLeftType := T_vector T_float 4; outRightType := T_float;
               outResultType := T_vector T_float 4 |}.
Proof.
  split.
  - refine (determine_binary_type_vector_scalar (types := wideningTypes) TK_STAR (T_vector T_float 4)
              T_float _ eq_refl eq_refl eq_refl).
    right. right. left. reflexivity.
  - refine (determine_binary_type_vector_scalar (types := wideningTypes) TK_STAR (T_vector T_float 4)
              T_int _ eq_refl eq_refl eq_refl).
    right. right. left. reflexivity.
Defined.

(** [block.count] is the first field named [count]; [block.size] is
    reported. *)
Lemma convertField_first_field_witness :
  (exists i t,
     @convertField _ _ blockTypes _ reference_block "count" exampleEnv
     = (Some (FieldAccess reference_block i kDefault_OwnerKind), exampleEnv)
     /\ 0 <= i
     /\ nth_error (@fields _ blockTypes T_fragmentProcessor) (Z.to_nat i)
        = Some ("count", t)
     /\ (forall j n t', (j < Z.to_nat i)%nat ->
           nth_error (@fields _ blockTypes T_fragmentProcessor) j
           = Some (n, t') -> n <> "count")
     /\ @type_of _ _ blockTypes
          (FieldAccess reference_block i kDefault_OwnerKind) = t)
  /\ @convertField _ _ blockTypes _ reference_block "size" exampleEnv
     = (None,
        reported 50
          "type 'fragmentProcessor' does not have a field named 'size"
          exampleEnv).
Proof.
  split.
  - apply (proj1 (@convertField_first_field _ _ _ blockTypes reference_block
                    "count" exampleEnv ltac:(discriminate))).
    right. left. reflexivity.
  - apply (proj2 (@convertField_first_field _ _ _ blockTypes reference_block
                    "size" exampleEnv ltac:(discriminate))).
    intros [H | [H | [H | []]]]; discriminate H.
Defined.

(** The mask [x0xx1] of a scalar: two runs of [x] and two literals. *)
Lemma swizzleArguments_per_chunk_witness :
  Z.of_nat (List.length (swizzleArguments literal_7 0 0 [0; -2; 0; 0; -1]))
  = count_contiguous_swizzle_chunks [0; -2; 0; 0; -1] + 2
  /\ 0 <= count_contiguous_swizzle_chunks [0; -2; 0; 0; -1] <= 3.
Proof.
  apply (swizzleArguments_per_chunk literal_7 0 [0; -2; 0; 0; -1]).
  repeat (constructor; [cbn; lia|]). constructor.
Defined.

(** [const] where [const] is permitted. *)
Lemma checkModifiers_permitted_witness :
  checkModifiers 3 constModifiers kConst_Flag exampleEnv = (tt, exampleEnv).
Proof.
  exact (checkModifiers_permitted (constants := exampleConstants) 3 constModifiers kConst_Flag exampleEnv
           eq_refl).
Defined.

(** [const in uniform] where only [in] is permitted. *)
Lemma checkModifiers_reports_forbidden_witness :
  checkModifiers 3 {| fLayout := exampleLayout; fFlags := 11 |} kIn_Flag
    exampleEnv
  = (tt,
     with_fErrors
       [ (3, "'const' is not permitted here");
         (3, "'uniform' is not permitted here") ] exampleEnv).
Proof.
  refine (checkModifiers_reports_forbidden 3
            {| fLayout := exampleLayout; fFlags := 11 |} kIn_Flag exampleEnv
            _).
  unfold flagsDisjoint, modifierNames. repeat constructor.
Defined.

(** [case 4294967298:] after [case 1:] and [case 2:], and [case 3:]. *)
Lemma convertCaseValue_duplicates_witness :
  snd (convertCaseValue T_int [1; 2] (kInt 9 4294967298) exampleEnv)
  = reported 9 "duplicate case value" exampleEnv
  /\ snd (convertCaseValue T_int [1; 2] (kInt 9 3) exampleEnv) = exampleEnv.
Proof.
  split.
  - apply (proj1 (proj2 (convertCaseValue_duplicates (types := wideningTypes) T_int [1; 2] 9
                           4294967298 exampleEnv eq_refl))).
    exists 2. split; [right; left; reflexivity | reflexivity].
  - apply (proj2 (proj2 (convertCaseValue_duplicates (types := wideningTypes) T_int [1; 2] 9 3
                           exampleEnv eq_refl))).
    intros w [<- | [<- | []]]; discriminate.
Defined.

(** [discard; break; discard;] outside of a loop stops at [break]. *)
Lemma convertStatements_stops_at_failure_witness :
  convertStatements convertStatement [kDiscard 0; kBreak 9; kDiscard 16]
    exampleGenerator
  = (None,
     refused 9 "break statement must be inside a loop or switch"
       exampleGenerator).
Proof.
  apply (convertStatements_stops_at_failure convertStatement [kDiscard 0]
           (kBreak 9) [kDiscard 16] [DiscardStatement 0] exampleGenerator
           exampleGenerator); vm_compute; reflexivity.
Defined.

(** [-(-5)] and [!!true]. *)
Lemma convertPrefixExpression_double_negation_witness :
  convertExpression
    (kPrefix 0 Prefix_MINUS (kPrefix 1 Prefix_MINUS (kInt 2 5))) exampleEnv
  = (Some (IntLiteral_new 2 5), exampleEnv)
  /\ convertExpression
       (kPrefix 0 Prefix_LOGICALNOT
          (kPrefix 1 Prefix_LOGICALNOT (kBool 2 true))) exampleEnv
     = (Some (BoolLiteral_new 2 true), exampleEnv).
Proof.
  apply (convertPrefixExpression_double_negation (types := wideningTypes) 0 1 2 5 true exampleEnv);
    [unfold INT64_MIN, INT64_MAX; lia | reflexivity].
Defined.

(** [7 / 0] converts to a division. *)
Lemma convertBinaryExpression_folds_literals_witness :
  convertExpression (kBinary 3 (kInt 0 7) TK_SLASH (kInt 4 0)) exampleEnv
  = (Some (BinaryExpression 3 (IntLiteral_new 0 7) TK_SLASH
             (IntLiteral_new 4 0) T_int),
     reported 4 "division by zero" exampleEnv).
Proof.
  apply (proj2 (convertBinaryExpression_folds_literals (types := wideningTypes) TK_SLASH 3 0 7 4 0
                  exampleEnv eq_refl eq_refl eq_refl
                  ltac:(vm_compute; discriminate))).
Defined.

(** [if (true) discard;] and [if (false) discard;]. *)
Lemma convertIf_static_test_witness :
  convertIf convertStatement 0 false (kBool 4 true) (kDiscard 10) None
    exampleGenerator
  = (Some (DiscardStatement 10), exampleGenerator)
  /\ convertIf convertStatement 0 false (kBool 4 false) (kDiscard 10) None
       exampleGenerator
     = (Some Nop, exampleGenerator).
Proof.
  pose proof (proj2 (convertIf_static_test (types := wideningTypes) convertStatement 0 false 4
                       (kDiscard 10) exampleGenerator exampleGenerator
                       eq_refl)
                (DiscardStatement 10) eq_refl) as (Htrue & Hfalse & _).
  split; [exact Htrue | exact Hfalse].
Defined.

(** [while (true) break;] and [do continue; while (true);]. *)
Lemma break_continue_inside_loop_witness :
  convertWhile convertStatement 0 (kBool 7 true) (kBreak 13) exampleGenerator
  = (Some (WhileStatement 0 (BoolLiteral 7 true T_bool) (BreakStatement 13)),
     exampleGenerator)
  /\ convertDo convertStatement 0 (kContinue 3) (kBool 20 true)
       exampleGenerator
     = (Some (DoStatement 0 (ContinueStatement 3) (BoolLiteral 20 true T_bool)),
        exampleGenerator).
Proof.
  assert (Hlevel : 0 <= fLoopLevel exampleGenerator) by discriminate.
  split.
  - refine (proj1 (break_continue_inside_loop (types := wideningTypes) 0 13
                     (kBool 7 true) (BoolLiteral 7 true T_bool)
                     exampleGenerator exampleEnv Hlevel _)).
    vm_compute. reflexivity.
  - refine (proj2 (proj2 (proj2
              (break_continue_inside_loop (types := wideningTypes) 0 3
                 (kBool 20 true) (BoolLiteral 20 true T_bool)
                 exampleGenerator exampleEnv Hlevel _)))).
    vm_compute. reflexivity.
Defined.

(** The literal [true] where an [int] is expected. *)
Lemma coerce_fails_with_one_error_witness :
  coerce (Some (BoolLiteral 5 true T_bool)) T_int exampleEnv
  = (None, reported 5 "expected 'int', but found 'bool'" exampleEnv).
Proof.
  apply (proj2 (coerce_fails_with_one_error (types := wideningTypes) (BoolLiteral 5 true T_bool) T_int
                  exampleEnv eq_refl));
    try reflexivity; discriminate.
Defined.

(** [return 1;] and [return;] in the function [f(int)], which returns
    [void]. *)
Lemma convertReturn_void_rules_witness :
  convertReturn 0 (Some (kInt 7 1)) functionEnv
  = (None,
     reported 7 "may not return a value from a void function" functionEnv)
  /\ convertReturn 0 None functionEnv
     = (Some (ReturnStatement 0 None), functionEnv).
Proof.
  pose proof (proj1 (convertReturn_void_rules (types := wideningTypes) 0 f_int functionEnv eq_refl)
                eq_refl) as (_ & Hvalue & Hnone).
  split; [|exact Hnone].
  apply (Hvalue (kInt 7 1) (IntLiteral 7 1 T_int) functionEnv). reflexivity.
Defined.

(** An image of 5000 by 5000 pixels and tiles of at most 4096 pixels a
    side. *)
Lemma ShouldTileImage_tile_size_witness :
  let tileSize :=
    fst (snd (@ShouldTileImage examplePlatform
                {| fLeft := 0; fTop := 0; fRight := 800; fBottom := 600 |}
                {| fWidth := 5000; fHeight := 5000 |} tt tt None 4096 0 0
                {| fLeft := 0; fTop := 0; fRight := 0; fBottom := 0 |})) in
  (tileSize = 4096 \/ tileSize = kBmpSmallTileSize)
  /\ 0 < tileSize <= 4096.
Proof.
  apply (@ShouldTileImage_tile_size examplePlatform);
    cbn; unfold INT_MAX; try lia.
Defined.

(** The rectangle [(10, 10, 20, 20)] outset by 2 and clamped to
    [(9, 0, 21, 30)]: the left edge and the right edge are clamped. *)
Lemma ClampedOutsetWithOffset_clamps_witness :
  @ClampedOutsetWithOffset examplePlatform
    {| fLeft := 10; fTop := 10; fRight := 20; fBottom := 20 |} 2
    (@Build_SkPoint examplePlatform 100 100)
    {| fLeft := 9; fTop := 0; fRight := 21; fBottom := 30 |}
  = ({| fLeft := 9; fTop := 8; fRight := 21; fBottom := 22 |},
     @Build_SkPoint examplePlatform 99 98).
Proof.
  apply (@ClampedOutsetWithOffset_clamps examplePlatform
           {| fLeft := 10; fTop := 10; fRight := 20; fBottom := 20 |} 2
           (@Build_SkPoint examplePlatform 100 100)
           {| fLeft := 9; fTop := 0; fRight := 21; fBottom := 30 |});
    cbn; unfold INT_MAX; lia.
Defined.

(** The collaborators of the examples change no state. *)
Ltac example_collaborators same :=
  repeat split; intros; intros ?;
  try match goal with
      | ctor : Expression |- _ => destruct ctor
      end;
  first [reflexivity | apply same; reflexivity].


(** [(x + 1).x0x;] sets the declaration of a temporary aside: the result
    is the block of that declaration and the statement. *)
Lemma convertStatement_extra_statements_witness :
  fst (convertStatement swizzled_statement declaredGenerator)
  = Some (Block (-1)
            [ VarDeclarationsStatement
                {| VarDeclarations_fOffset := 2; fBaseType := T_int;
                   fVars := [{| fVar := swizzle_temporary; fSizes := [];
                                VarDeclaration_fValue := Some x_plus_1 |}] |};
              ExpressionStatement
                (Constructor 2 (T_vector T_int 3)
                   [ VariableReference 2 swizzle_temporary kRead_RefKind;
                     IntLiteral 2 0 T_int;
                     VariableReference 2 swizzle_temporary kRead_RefKind ]) ]
            false)
  /\ fExtraStatements
       (env (snd (convertStatement swizzled_statement declaredGenerator)))
     = [].
Proof.
  destruct (convertStatement_extra_statements swizzled_statement
              declaredGenerator
              ltac:(example_collaborators (@eq_refl ProgramKind))
              ltac:(discriminate)) as [Hresult Hrestored].
  split; [rewrite Hresult; vm_compute; reflexivity | exact Hrestored].
Defined.

(** [break;] outside of a loop, after the error of [int arr[-1];]. *)
Lemma conversion_appends_errors_witness :
  exists more,
    fErrors (env (snd (convertStatement (kBreak 40)
                         (refused 29 "array size must be positive"
                            declaredGenerator))))
    = [(29, "array size must be positive")] ++ more.
Proof.
  apply (proj2 (conversion_appends_errors
                  ltac:(example_collaborators
                          (@extendsErrors_same SkType unit unit)))
           ltac:(example_collaborators (@eq_refl ProgramKind)));
    discriminate.
Defined.

(** The expression [x + 1] declares nothing. *)
Lemma convertExpression_keeps_symbol_table_witness :
  fSymbolTable
    (snd (convertExpression (kBinary 0 (kIdentifier 0 "x") TK_PLUS (kInt 4 1))
            declaredEnv))
  = fSymbolTable declaredEnv.
Proof.
  apply convertExpression_keeps_symbol_table.
  repeat split; intros; intros ?;
    try match goal with
        | ctor : Expression |- _ => destruct ctor
        end; reflexivity.
Defined.

(** [int arr[5];] adds [arr] to the scope of [v] and [x]. *)
Lemma convertStatement_extends_innermost_scope_witness :
  exists added,
    fSymbolTable (env (snd (convertStatement (declare_arr (kInt 28 5))
                              declaredGenerator)))
    = (added
       ++ [("v", Symbol_Variable variable_v);
           ("x", Symbol_Variable variable_x)])
      :: tl (fSymbolTable exampleEnv).
Proof.
  apply convertStatement_extends_innermost_scope;
    [example_collaborators (@extendsScope_same SkType unit unit)
    | example_collaborators (@eq_refl ProgramKind)
    | discriminate
    | reflexivity].
Defined.

(** [{ int arr[5]; }]: [arr] is not declared after the block. *)
Lemma block_restores_symbol_table_witness :
  fSymbolTable
    (env (snd (convertStatement (kBlock 18 [declare_arr (kInt 28 5)])
                 declaredGenerator)))
  = fSymbolTable declaredEnv.
Proof.
  apply (block_restores_symbol_table (kBlock 18 [declare_arr (kInt 28 5)])
           declaredGenerator);
    [example_collaborators (@extendsScope_same SkType unit unit)
    | example_collaborators (@eq_refl ProgramKind)
    | discriminate
    | exact I].
Defined.
